(** * A shallow embedding of the dataset core

    The development follows the C++ sources of the repository:
    - [dimensions.h]      : the [Dimensions] value type,
    - [value_with_delta.h]: [ValueWithDelta],
    - [tags.h]            : the tag catalogue,
    - [variable.cpp]      : [VariableModel] (apply, copy, rebin, makeView) and
                            [Variable] (arithmetic, slice, split, concatenate,
                            rebin),
    - [dataset.h]         : [Dataset] (erase, merge).

    Elements of type [double] are IEEE binary64 numbers (Rocq's primitive
    floats), [gsl::index] is a signed integer ([Z]), exceptions are values of
    [exn] carried by [result].  An in-place member function that may throw
    after having written to its object returns the object as the throw left
    it, together with the exception. *)

From Stdlib Require Import ZArith List Lia Bool String Floats Sorted.
Import ListNotations.
Open Scope Z_scope.

Set Implicit Arguments.

(* ===================================================================== *)
(** * Exceptions *)
(* ===================================================================== *)

(** [std::runtime_error] carries its message; the two exception classes of
    [except.h] used by the sources under study are kept apart, as are
    [std::bad_cast] (a failed [dynamic_cast]) and [std::length_error].
    [out_of_bounds] stands for an access outside a buffer or a division by
    zero (undefined behaviour in C++), which the embedding never lets pass
    silently; [not_modelled] marks the two paths of the sources that the
    embedding leaves out (see [Vector_apply] and [VariableModel_rebin]). *)
Inductive exn :=
| runtime_error (what : string)
| DimensionNotFoundError
| DimensionMismatchError
| bad_cast
| length_error
| out_of_bounds
| not_modelled.

Inductive result (A : Type) :=
| Ok (a : A)
| Throw (e : exn).
Arguments Ok {A} a.
Arguments Throw {A} e.

Definition bind {A B} (r : result A) (k : A -> result B) : result B :=
  match r with
  | Ok a => k a
  | Throw e => Throw e
  end.

Notation "'do' x <- r ; k" := (bind r (fun x => k))
  (at level 10, x name, r at level 100, k at level 200).

Definition is_ok {A} (r : result A) : bool :=
  match r with Ok _ => true | Throw _ => false end.

(** Sequential composition over a list, stopping at the first throw. *)
Fixpoint mapM {A B} (f : A -> result B) (l : list A) : result (list B) :=
  match l with
  | [] => Ok []
  | a :: l' => do b <- f a; do bs <- mapM f l'; Ok (b :: bs)
  end.

Fixpoint foldM {A S} (f : S -> A -> result S) (l : list A) (s : S) : result S :=
  match l with
  | [] => Ok s
  | a :: l' => do s' <- f s a; foldM f l' s'
  end.

(* ===================================================================== *)
(** * Integer-indexed lists *)
(* ===================================================================== *)

(** [0, 1, ..., n-1]; empty when [n <= 0]. *)
Definition zseq (n : Z) : list Z := map Z.of_nat (seq 0 (Z.to_nat n)).

(** [l[i]], [None] outside the list. *)
Definition zlookup {A} (l : list A) (i : Z) : option A :=
  if i <? 0 then None else nth_error l (Z.to_nat i).

Fixpoint upd_nat {A} (l : list A) (n : nat) (x : A) : list A :=
  match l, n with
  | [], _ => []
  | _ :: l', O => x :: l'
  | a :: l', S n' => a :: upd_nat l' n' x
  end.

(** [l[i] = x] on a list known to hold position [i]. *)
Definition zupd {A} (l : list A) (i : Z) (x : A) : list A :=
  if i <? 0 then l else upd_nat l (Z.to_nat i) x.

(** The elements [l[b], ..., l[e-1]] of a span. *)
Definition zslice {A} (l : list A) (b e : Z) : list A :=
  firstn (Z.to_nat (e - b)) (skipn (Z.to_nat b) l).

(* ===================================================================== *)
(** * Dim *)
(* ===================================================================== *)

(** Modelled from the spec: [dimension.h] is not among the sources.  Section 3
    of the specification lists the labels of the closed enumeration. *)
Inductive Dim :=
| Invalid | DimX | DimY | DimZ | Tof | Q | Spectrum | Detector | Event | Row
| Component.

Definition Dim_eq_dec (a b : Dim) : {a = b} + {a <> b}.
Proof. decide equality. Defined.

Definition Dim_eqb (a b : Dim) : bool :=
  if Dim_eq_dec a b then true else false.

(* ===================================================================== *)
(** * Dimensions (dimensions.h) *)
(* ===================================================================== *)

(** [m_dims[i], m_shape[i]] for [i < m_ndim], outermost first. *)
Definition Dimensions := list (Dim * Z).

Module Dims.

(** The loop of the constructor: every entry is stored, its label checked
    against [Dim::Invalid] and its extent against negative values.  Nothing
    compares an entry with the earlier ones. *)
Fixpoint fill (dims : list (Dim * Z)) : result Dimensions :=
  match dims with
  | [] => Ok []
  | (d, n) :: rest =>
      if Dim_eqb d Invalid
      then Throw (runtime_error "Dim::Invalid is not a valid dimension.")
      else if n <? 0
      then Throw (runtime_error "Dimension extent cannot be negative.")
      else do r <- fill rest; Ok ((d, n) :: r)
  end.

(** [Dimensions(std::initializer_list<std::pair<Dim, gsl::index>>)]. *)
Definition make (dims : list (Dim * Z)) : result Dimensions :=
  if 6 <? Z.of_nat (List.length dims)
  then Throw (runtime_error "At most 6 dimensions are supported.")
  else fill dims.

Definition ndim (d : Dimensions) : Z := Z.of_nat (List.length d).
Definition count (d : Dimensions) : Z := ndim d.
Definition empty (d : Dimensions) : bool := ndim d =? 0.

(** The volume of a [Dimensions]: the product of its extents, which is the
    number of elements of a buffer laid out by it.  [Dimensions::volume()]
    computes this product in [gsl::index]; that loop is [Dims_volume64]
    below, and it gives the product while the product is below [2^63]. *)
Fixpoint volume (d : Dimensions) : Z :=
  match d with
  | [] => 1
  | (_, n) :: rest => n * volume rest
  end.

Definition labels (d : Dimensions) : list Dim := map fst d.
Definition shape (d : Dimensions) : list Z := map snd d.

(** [contains(const Dim)]. *)
Fixpoint contains (d : Dimensions) (dim : Dim) : bool :=
  match d with
  | [] => false
  | (l, _) :: rest => if Dim_eqb l dim then true else contains rest dim
  end.

Definition entry_eq_dec (p q : Dim * Z) : {p = q} + {p <> q}.
Proof. decide equality; [apply Z.eq_dec | apply Dim_eq_dec]. Defined.

(** [operator==]: same rank, same labels and extents position by position. *)
Definition dims_eqb (a b : Dimensions) : bool :=
  if list_eq_dec entry_eq_dec a b then true else false.

(** Modelled from the spec: the member functions below are defined in
    [dimensions.cpp], which is not among the sources.  Section 3 and 4.A
    give their contracts. *)

(** Modelled from the spec: [label(i)], the label at position [i]; the
    slots past [m_ndim] hold [Dim::Invalid]. *)
Definition label (d : Dimensions) (i : Z) : Dim :=
  match zlookup d i with
  | Some (l, _) => l
  | None => Invalid
  end.

(** Modelled from the spec: [size(Dim)], the extent recorded for a label. *)
Fixpoint size (d : Dimensions) (dim : Dim) : result Z :=
  match d with
  | [] => Throw DimensionNotFoundError
  | (l, n) :: rest => if Dim_eqb l dim then Ok n else size rest dim
  end.

(** Modelled from the spec: [offset(Dim)], the product of the extents
    strictly after that label. *)
Fixpoint offset (d : Dimensions) (dim : Dim) : result Z :=
  match d with
  | [] => Throw DimensionNotFoundError
  | (l, _) :: rest => if Dim_eqb l dim then Ok (volume rest) else offset rest dim
  end.

(** Modelled from the spec: [resize(Dim, n)] keeps the position of the
    label. *)
Fixpoint resize (d : Dimensions) (dim : Dim) (n : Z) : result Dimensions :=
  match d with
  | [] => Throw DimensionNotFoundError
  | (l, m) :: rest =>
      if Dim_eqb l dim then Ok ((l, n) :: rest)
      else do r <- resize rest dim n; Ok ((l, m) :: r)
  end.

(** Modelled from the spec: [erase(Dim)] shifts the later labels leftward. *)
Fixpoint erase (d : Dimensions) (dim : Dim) : result Dimensions :=
  match d with
  | [] => Throw DimensionNotFoundError
  | (l, m) :: rest =>
      if Dim_eqb l dim then Ok rest
      else do r <- erase rest dim; Ok ((l, m) :: r)
  end.

(** Modelled from the spec: [add(Dim, n)].  The new label becomes the
    outermost one (scenario 2 of section 8: joining two [{Tof:2}] along [Q]
    gives [{Q:2, Tof:2}]); the invariants of section 3 (at most 6 entries,
    no [Dim::Invalid], no duplicate, no negative extent) are guarded. *)
Definition add (d : Dimensions) (dim : Dim) (n : Z) : result Dimensions :=
  if 6 <=? ndim d
  then Throw (runtime_error "More than 6 dimensions are not supported.")
  else if Dim_eqb dim Invalid
  then Throw (runtime_error "Dim::Invalid is not a valid dimension.")
  else if contains d dim
  then Throw (runtime_error "Duplicate dimension.")
  else if n <? 0
  then Throw (runtime_error "Dimension extent cannot be negative.")
  else Ok ((dim, n) :: d).

(** Modelled from the spec: [contains(const Dimensions &)], every
    (label, extent) of [other] appears in [d] with the same extent. *)
Definition contains_dims (d other : Dimensions) : bool :=
  forallb (fun p : Dim * Z =>
             match size d (fst p) with
             | Ok n => (n =? snd p) && contains d (fst p)
             | Throw _ => false
             end) other.

(** Modelled from the spec: [isContiguousIn(parent)], the entries of [d]
    are a suffix of the entries of [parent] (the empty [d] is one). *)
Fixpoint isContiguousIn (d parent : Dimensions) : bool :=
  if dims_eqb d parent then true
  else match parent with
       | [] => false
       | _ :: rest => isContiguousIn d rest
       end.

End Dims.

(* ===================================================================== *)
(** * Unit *)
(* ===================================================================== *)

(** Modelled from the spec: [unit.h] is not among the sources.  Section 3
    and 4.B describe a finite identifier set with a closed multiplication
    table; the identifiers are those the sources and their tests mention
    ([Length * Length] is [Area] in the test of [operator*=]). *)
Inductive Unit := Dimensionless | Length | Area.

Definition Unit_eqb (a b : Unit) : bool :=
  match a, b with
  | Dimensionless, Dimensionless | Length, Length | Area, Area => true
  | _, _ => false
  end.

Definition Unit_mul (a b : Unit) : result Unit :=
  match a, b with
  | Dimensionless, u | u, Dimensionless => Ok u
  | Length, Length => Ok Area
  | _, _ => Throw (runtime_error "Unsupported unit combination.")
  end.

(* ===================================================================== *)
(** * ValueWithDelta (value_with_delta.h) *)
(* ===================================================================== *)

Record ValueWithDelta := mkValueWithDelta { m_value : float; m_delta : float }.

(** [ValueWithDelta() = default]: both members are [0.0]. *)
Definition ValueWithDelta_default : ValueWithDelta :=
  mkValueWithDelta 0%float 0%float.

(** [std::max(a, b)] is [(a < b) ? b : a]. *)
Definition std_max (a b : float) : float :=
  if PrimFloat.ltb a b then b else a.

(** [ValueWithDelta::operator==]. *)
Definition ValueWithDelta_eq (a b : ValueWithDelta) : bool :=
  PrimFloat.ltb (PrimFloat.abs (PrimFloat.sub (m_value a) (m_value b)))
                (std_max (m_delta a) (m_delta b)).

(* ===================================================================== *)
(** * Tags (tags.h) *)
(* ===================================================================== *)

(** The tags whose element type is one of [double], [int32_t], [int64_t],
    [std::string], [ValueWithDelta<double>] and [Dataset] (event lists). *)
Inductive Tag :=
| Coord_X | Coord_Y | Coord_Z | Coord_Tof | Coord_MonitorTof
| Coord_DetectorId | Coord_SpectrumNumber | Coord_DetectorPosition
| Coord_RowLabel | Coord_Polarization | Coord_Temperature
| Coord_FuzzyTemperature | Coord_Time | Coord_ComponentName
| Data_Tof | Data_PulseTime | Data_Value | Data_Variance | Data_Int
| Data_DimensionSize | Data_String | Data_Events.

(** [tag_id<T>]: the position of the tag in [Tags], the concatenation of
    [Coord::tags], [Data::tags] and [Attr::tags]. *)
Definition tag_id (t : Tag) : Z :=
  match t with
  | Coord_X => 0 | Coord_Y => 1 | Coord_Z => 2 | Coord_Tof => 3
  | Coord_MonitorTof => 4 | Coord_DetectorId => 5
  | Coord_SpectrumNumber => 6 | Coord_DetectorPosition => 10
  | Coord_RowLabel => 13 | Coord_Polarization => 14
  | Coord_Temperature => 15 | Coord_FuzzyTemperature => 16
  | Coord_Time => 17 | Coord_ComponentName => 26
  | Data_Tof => 34 | Data_PulseTime => 35 | Data_Value => 36
  | Data_Variance => 37 | Data_Int => 39 | Data_DimensionSize => 40
  | Data_String => 41 | Data_Events => 43
  end.

Definition Tag_eqb (a b : Tag) : bool := tag_id a =? tag_id b.

(** [std::tuple_size<Coord::tags>::value]. *)
Definition coord_tags_size : Z := 34.

Definition is_coord (t : Tag) : bool := tag_id t <? coord_tags_size.

Inductive ElemType :=
| TDouble | TInt32 | TInt64 | TString | TValueWithDelta | TDataset.

(** [Tag::type]. *)
Definition Tag_type (t : Tag) : ElemType :=
  match t with
  | Coord_X | Coord_Y | Coord_Z | Coord_Tof | Coord_MonitorTof
  | Coord_DetectorPosition | Coord_Temperature
  | Data_Tof | Data_PulseTime | Data_Value | Data_Variance => TDouble
  | Coord_DetectorId | Coord_SpectrumNumber => TInt32
  | Coord_Time | Data_Int | Data_DimensionSize => TInt64
  | Coord_RowLabel | Coord_Polarization | Coord_ComponentName
  | Data_String => TString
  | Coord_FuzzyTemperature => TValueWithDelta
  | Data_Events => TDataset
  end.

(** [Tag::unit]. *)
Definition Tag_unit (t : Tag) : Unit :=
  match t with
  | Coord_X | Coord_Y | Coord_Z | Coord_DetectorPosition => Length
  | _ => Dimensionless
  end.

(** [is_dimension_coordinate<Tag>] and [coordinate_dimension<Tag>], as the
    tables [isDimensionCoord] and [coordDimension] hold them. *)
Definition coordDimension (t : Tag) : Dim :=
  match t with
  | Coord_Tof => Tof
  | Coord_X => DimX
  | Coord_Y => DimY
  | Coord_Z => DimZ
  | Coord_SpectrumNumber => Spectrum
  | Coord_RowLabel => Row
  | _ => Invalid
  end.

Definition isDimensionCoord (t : Tag) : bool :=
  match t with
  | Coord_Tof | Coord_X | Coord_Y | Coord_Z | Coord_SpectrumNumber
  | Coord_RowLabel => true
  | _ => false
  end.

(* ===================================================================== *)
(** * Variable and Dataset: the data *)
(* ===================================================================== *)

(** [Vector<T>], tagged by its element type: the closed sum that stands for
    the type-erased [VariableModel<Vector<T>>].  [D] is the type of a nested
    [Dataset]. *)
Inductive VectorOf (D : Type) :=
| VecDouble (l : list float)
| VecInt32 (l : list Z)
| VecInt64 (l : list Z)
| VecString (l : list string)
| VecValueWithDelta (l : list ValueWithDelta)
| VecDataset (l : list D).
Arguments VecDouble {D} l.
Arguments VecInt32 {D} l.
Arguments VecInt64 {D} l.
Arguments VecString {D} l.
Arguments VecValueWithDelta {D} l.
Arguments VecDataset {D} l.

(** [Variable]: [m_type], [m_name], [m_unit] and the object behind
    [m_object], which is its [Dimensions] and its [Vector]. *)
Record VariableOf (D : Type) := mkVariable {
  m_type : Tag;
  m_name : string;
  m_unit : Unit;
  dimensions : Dimensions;
  m_model : VectorOf D
}.

(** [Dataset]: the shared registry [m_dimensions] and [m_variables]. *)
#[warnings="-register-all"]
Inductive Dataset := mkDataset {
  m_dimensions : Dimensions;
  m_variables : list (VariableOf Dataset)
}.

Abbreviation Vector := (VectorOf Dataset).
Abbreviation Variable_ := (VariableOf Dataset).

(** [Dataset() = default]. *)
Definition Dataset_default : Dataset := mkDataset [] [].

Definition Vector_size (v : Vector) : Z :=
  match v with
  | VecDouble l => Z.of_nat (List.length l)
  | VecInt32 l => Z.of_nat (List.length l)
  | VecInt64 l => Z.of_nat (List.length l)
  | VecString l => Z.of_nat (List.length l)
  | VecValueWithDelta l => Z.of_nat (List.length l)
  | VecDataset l => Z.of_nat (List.length l)
  end.

Definition Vector_type (v : Vector) : ElemType :=
  match v with
  | VecDouble _ => TDouble
  | VecInt32 _ => TInt32
  | VecInt64 _ => TInt64
  | VecString _ => TString
  | VecValueWithDelta _ => TValueWithDelta
  | VecDataset _ => TDataset
  end.

Definition set_unit (v : Variable_) (u : Unit) : Variable_ :=
  mkVariable (m_type v) (m_name v) u (dimensions v) (m_model v).

Definition set_name (v : Variable_) (n : string) : Variable_ :=
  mkVariable (m_type v) n (m_unit v) (dimensions v) (m_model v).

Definition set_object (v : Variable_) (d : Dimensions) (m : Vector) : Variable_ :=
  mkVariable (m_type v) (m_name v) (m_unit v) d m.

Definition set_model (v : Variable_) (m : Vector) : Variable_ :=
  set_object v (dimensions v) m.

(** [valueTypeIs<Tag>()]. *)
Definition valueTypeIs (v : Variable_) (t : Tag) : bool := Tag_eqb t (m_type v).

(** [isCoord()]. *)
Definition isCoord (v : Variable_) : bool := is_coord (m_type v).

(** The constructor of [VariableModel] checks the length of the data
    against the volume of the dimensions. *)
Definition VariableModel_check (dims : Dimensions) (m : Vector) : result unit :=
  if Dims.volume dims =? Vector_size m then Ok tt
  else Throw (runtime_error
    "Creating Variable: data size does not match volume given by dimension extents").

(** [makeVariable<Tag>(dimensions, values)]. *)
Definition makeVariable (t : Tag) (dims : Dimensions) (values : Vector)
  : result Variable_ :=
  do _ <- VariableModel_check dims values;
  Ok (mkVariable t EmptyString (Tag_unit t) dims values).

(** What the C++ types and the constructor of [VariableModel] guarantee of
    every [Variable]: the element type is the one of the tag, the data
    fill the volume, labels are distinct and extents are not negative. *)
Definition distinct_labels (d : Dimensions) : Prop := NoDup (Dims.labels d).
Definition extents_nonneg (d : Dimensions) : Prop :=
  Forall (fun p : Dim * Z => 0 <= snd p) d.
Definition wf_dims (d : Dimensions) : Prop :=
  distinct_labels d /\ extents_nonneg d.

Record wf_variable (v : Variable_) : Prop := {
  wf_type : Vector_type (m_model v) = Tag_type (m_type v);
  wf_size : Vector_size (m_model v) = Dims.volume (dimensions v);
  wf_dimensions : wf_dims (dimensions v)
}.

(* ===================================================================== *)
(** * VariableView *)
(* ===================================================================== *)

(** Modelled from the spec: [variable_view.h] and [multi_index.h] are not
    among the sources.  Sections 4.D and 9 describe a strided view as the
    position of its first element in the host buffer, the parent
    [Dimensions] (they give the strides) and the projected [Dimensions]
    (they give the iteration order and the length); a projected label that
    the parent does not hold has stride zero, and a parent label in another
    position is reached through the parent's stride. *)
Record VariableView := mkView {
  m_variable : Z;
  m_targetDimensions : Dimensions;
  m_parentDimensions : Dimensions
}.

Definition stride (parent : Dimensions) (d : Dim) : Z :=
  match Dims.offset parent d with
  | Ok s => s
  | Throw _ => 0
  end.

(** The positions in the host buffer of the elements of a view, in
    iteration order (the order of the projected labels, outermost first). *)
Fixpoint offsets (parent target : Dimensions) (base : Z) : list Z :=
  match target with
  | [] => [base]
  | (d, n) :: rest =>
      flat_map (fun i => offsets parent rest (base + i * stride parent d)) (zseq n)
  end.

Definition view_positions (v : VariableView) : list Z :=
  offsets (m_parentDimensions v) (m_targetDimensions v) (m_variable v).

Definition view_size (v : VariableView) : Z := Dims.volume (m_targetDimensions v).

(** [makeVariableView(data + base, targetDimensions, dimensions)]. *)
Definition makeVariableView (base : Z) (target parent : Dimensions) : VariableView :=
  mkView base target parent.

(** A view built from a view keeps the host layout for the strides and
    forgets the labels the first view had sliced away: they count as absent
    (stride zero) from then on. *)
Definition hide (parent visible : Dimensions) : Dimensions :=
  map (fun p : Dim * Z =>
         if Dims.contains visible (fst p) then p else (Invalid, snd p)) parent.

(** [VariableView(other, targetDimensions)]. *)
Definition retarget (v : VariableView) (target : Dimensions) : VariableView :=
  mkView (m_variable v) target
         (hide (m_parentDimensions v) (m_targetDimensions v)).

(** [VariableView(other, targetDimensions, dim, begin)]. *)
Definition subview (v : VariableView) (target : Dimensions) (dim : Dim) (begin : Z)
  : VariableView :=
  let parent := hide (m_parentDimensions v) (m_targetDimensions v) in
  mkView (m_variable v + begin * stride parent dim) target parent.

(** The positions [b, b+1, ..., b+n-1] of a span. *)
Definition span_positions (b n : Z) : list Z := map (Z.add b) (zseq n).

(* ===================================================================== *)
(** * VariableConcept and VariableModel (variable.cpp) *)
(* ===================================================================== *)

(** The geometry of a [VariableConcept]: its [Dimensions], and its view
    when the model is a [VariableView] ([None] for an owning
    [Vector]). *)
Record Geometry := mkGeometry {
  g_dims : Dimensions;
  g_view : option VariableView
}.

(** [isView()] and [isContiguous()]. *)
Definition isView (g : Geometry) : bool :=
  match g_view g with Some _ => true | None => false end.

Definition isContiguous (g : Geometry) : bool :=
  match g_view g with
  | None => true
  | Some v => Dims.isContiguousIn (g_dims g) (m_parentDimensions v)
  end.

(** [CastHelper::getData]: the position of the first element. *)
Definition getData (g : Geometry) : Z :=
  match g_view g with
  | None => 0
  | Some v => m_variable v
  end.

(** [size()]: the length of the vector, or the volume of the view. *)
Definition concept_size (g : Geometry) (buffer_length : Z) : Z :=
  match g_view g with
  | None => buffer_length
  | Some v => view_size v
  end.

(** [CastHelper::getSpan(concept)]. *)
Definition getSpan (g : Geometry) (buffer_length : Z) : list Z :=
  span_positions (getData g) (concept_size g buffer_length).

(** [CastHelper<Vector<T>>::getSpan(concept, dim, begin, end)]. *)
Definition getSpan_range (g : Geometry) (buffer_length : Z)
                         (dim : Dim) (begin end_ : Z) : result (list Z) :=
  let dims := g_dims g in
  if negb (Dims.contains dims dim) && (negb (begin =? 0) || negb (end_ =? 1))
  then Throw (runtime_error "VariableConcept: Slice index out of range.")
  else if negb (Dims.contains dims dim)
  then Ok (span_positions (getData g) (concept_size g buffer_length))
  else
    do n <- Dims.size dims dim;
    if n =? end_ - begin
    then Ok (span_positions (getData g) (concept_size g buffer_length))
    else
      do o <- Dims.offset dims dim;
      Ok (span_positions (getData g + begin * o) (end_ * o - begin * o)).

(** [CastHelper::getView(concept, dims)]. *)
Definition getView (g : Geometry) (dims : Dimensions) : VariableView :=
  match g_view g with
  | None => makeVariableView 0 dims (g_dims g)
  | Some v => retarget v dims
  end.

(** [CastHelper::getView(concept, dims, dim, begin)]. *)
Definition getView_at (g : Geometry) (dims : Dimensions) (dim : Dim) (begin : Z)
  : result VariableView :=
  match g_view g with
  | None =>
      do beginOffset <-
         (if Dims.contains (g_dims g) dim
          then do o <- Dims.offset (g_dims g) dim; Ok (begin * o)
          else Ok (begin * Dims.volume (g_dims g)));
      Ok (makeVariableView beginOffset dims (g_dims g))
  | Some v => Ok (subview v dims dim begin)
  end.

(** [makeView(dim, begin, end)]: the geometry of the view on a slice. *)
Definition makeView (g : Geometry) (dim : Dim) (begin end_ : Z) : result Geometry :=
  do dims <- (if end_ =? -1 then Dims.erase (g_dims g) dim
              else Dims.resize (g_dims g) dim (end_ - begin));
  do v <- getView_at g dims dim begin;
  Ok (mkGeometry dims (Some v)).

Section Elements.

Variable A : Type.

(** [std::transform(a.begin(), a.end(), b.begin(), a.begin(), op)] on
    the buffer [buf].  [wr] lists the positions of [a] in [buf], [rd] the
    positions of [b] in its buffer, which is [src], or [buf] itself as
    written so far when [b] is a view of the object being written
    ([src = None]).  Leaving a buffer, or running out of elements of [b],
    is [out_of_bounds]. *)
Fixpoint transform (op : A -> A -> A) (buf : list A) (src : option (list A))
                   (wr rd : list Z) : result (list A) :=
  match wr with
  | [] => Ok buf
  | w :: wr' =>
      match rd with
      | [] => Throw out_of_bounds
      | r :: rd' =>
          match zlookup buf w,
                zlookup (match src with Some s => s | None => buf end) r with
          | Some x, Some y => transform op (zupd buf w (op x y)) src wr' rd'
          | _, _ => Throw out_of_bounds
          end
      end
  end.

(** [std::copy(view1.begin(), view1.end(), view2.begin())]: the elements
    of [src] at the positions [rd] are written to [buf] at the positions
    [wr] in turn. *)
Fixpoint copy_elements (buf src : list A) (rd wr : list Z) : result (list A) :=
  match rd with
  | [] => Ok buf
  | r :: rd' =>
      match wr with
      | [] => Throw out_of_bounds
      | w :: wr' =>
          match zlookup src r, zlookup buf w with
          | Some x, Some _ => copy_elements (zupd buf w x) src rd' wr'
          | _, _ => Throw out_of_bounds
          end
      end
  end.

(** The two operands of [VariableModel<T>::apply<Op>]: where [*this]
    writes and where [other] is read.  The four cases of the source differ
    in whether an operand is walked as a span or through a view. *)
Definition apply_positions (this : Geometry) (this_length : Z)
                           (other : Geometry) (other_length : Z)
  : list Z * list Z :=
  let wr := if isContiguous this then getSpan this this_length
            else match g_view this with
                 | Some v => view_positions v
                 | None => getSpan this this_length
                 end in
  let rd := if isContiguous other
               && Dims.isContiguousIn (g_dims this) (g_dims other)
            then getSpan other other_length
            else view_positions (getView other (g_dims this)) in
  (wr, rd).

Definition apply_elements (op : A -> A -> A)
                          (this : Geometry) (buf : list A)
                          (other : Geometry) (src : option (list A))
  : result (list A) :=
  let other_length :=
    Z.of_nat (List.length (match src with Some s => s | None => buf end)) in
  let '(wr, rd) :=
    apply_positions this (Z.of_nat (List.length buf)) other other_length in
  transform op buf src wr rd.

(** [VariableModel<Vector<T>>::copy(other, dim, offset, otherBegin,
    otherEnd)] for an owning [*this] with dimensions [dims] and data
    [buf]. *)
Definition copy_list (dims : Dimensions) (buf : list A)
                     (other : Geometry) (src : list A)
                     (dim : Dim) (offset otherBegin otherEnd : Z)
  : result (list A) :=
  let this := mkGeometry dims None in
  let delta := otherEnd - otherBegin in
  do iterDims <- (if Dims.contains dims dim then Dims.resize dims dim delta
                  else Ok dims);
  do otherView <- getView_at other iterDims dim otherBegin;
  let this_length := Z.of_nat (List.length buf) in
  let other_length := Z.of_nat (List.length src) in
  if isContiguous this && Dims.isContiguousIn iterDims dims
  then
    do target <- getSpan_range this this_length dim offset (offset + delta);
    if isContiguous other && Dims.isContiguousIn iterDims (g_dims other)
    then
      do source <- getSpan_range other other_length dim otherBegin otherEnd;
      copy_elements buf src source target
    else copy_elements buf src (view_positions otherView) target
  else
    do view <- getView_at this iterDims dim offset;
    if isContiguous other && Dims.isContiguousIn iterDims (g_dims other)
    then
      do source <- getSpan_range other other_length dim otherBegin otherEnd;
      copy_elements buf src source (view_positions view)
    else copy_elements buf src (view_positions otherView) (view_positions view).

End Elements.

(* ===================================================================== *)
(** * Element arithmetic *)
(* ===================================================================== *)

(** [std::plus], [std::minus], [std::multiplies]. *)
Inductive Op := plus | minus | multiplies.

Definition double_op (op : Op) (x y : float) : float :=
  match op with
  | plus => PrimFloat.add x y
  | minus => PrimFloat.sub x y
  | multiplies => PrimFloat.mul x y
  end.

(** Two's complement wrap-around of a [bits]-bit signed integer. *)
Definition wrap (bits : Z) (z : Z) : Z :=
  (z + 2 ^ (bits - 1)) mod 2 ^ bits - 2 ^ (bits - 1).

Definition int_op (bits : Z) (op : Op) (x y : Z) : Z :=
  wrap bits (match op with
             | plus => x + y
             | minus => x - y
             | multiplies => x * y
             end).

(* ===================================================================== *)
(** * RebinHelper (variable.cpp) *)
(* ===================================================================== *)

(** The [while] loop of [RebinHelper::rebinInner] for one value of [c].
    Every pass moves [iold] or [inew] up by one, so [fuel] passes suffice
    when [fuel] is at least [(oldSize - iold) + (newSize - inew)]. *)
Fixpoint rebinInner_while (fuel : nat) (xold xnew oldData : list float)
                          (oldSize newSize oldOffset newOffset iold inew : Z)
                          (newData : list float) : result (list float) :=
  if (iold <? oldSize) && (inew <? newSize) then
    match fuel with
    | O => Throw out_of_bounds
    | S fuel' =>
        match zlookup xold iold, zlookup xold (iold + 1),
              zlookup xnew inew, zlookup xnew (inew + 1) with
        | Some xo_low, Some xo_high, Some xn_low, Some xn_high =>
            if PrimFloat.leb xn_high xo_low then
              rebinInner_while fuel' xold xnew oldData oldSize newSize
                               oldOffset newOffset iold (inew + 1) newData
            else if PrimFloat.leb xo_high xn_low then
              rebinInner_while fuel' xold xnew oldData oldSize newSize
                               oldOffset newOffset (iold + 1) inew newData
            else
              let delta := PrimFloat.sub
                             (if PrimFloat.ltb xo_high xn_high then xo_high else xn_high)
                             (if PrimFloat.ltb xn_low xo_low then xo_low else xn_low) in
              let owidth := PrimFloat.sub xo_high xo_low in
              match zlookup newData (newOffset + inew),
                    zlookup oldData (oldOffset + iold) with
              | Some n, Some o =>
                  let newData' :=
                    zupd newData (newOffset + inew)
                         (PrimFloat.add n (PrimFloat.div (PrimFloat.mul o delta) owidth)) in
                  if PrimFloat.ltb xo_high xn_high then
                    rebinInner_while fuel' xold xnew oldData oldSize newSize
                                     oldOffset newOffset (iold + 1) inew newData'
                  else
                    rebinInner_while fuel' xold xnew oldData oldSize newSize
                                     oldOffset newOffset iold (inew + 1) newData'
              | _, _ => Throw out_of_bounds
              end
        | _, _, _, _ => Throw out_of_bounds
        end
    end
  else Ok newData.

(** [RebinHelper<Vector<double>>::rebinInner]. *)
Definition rebinInner (dim : Dim)
                      (oldDims : Dimensions) (oldData : list float)
                      (newDims : Dimensions) (newData : list float)
                      (xold xnew : list float) : result (list float) :=
  do oldSize <- Dims.size oldDims dim;
  do newSize <- Dims.size newDims dim;
  if oldSize =? 0 then Throw out_of_bounds
  else
    let count := Z.quot (Dims.volume oldDims) oldSize in
    foldM (fun data c =>
             rebinInner_while (Z.to_nat (oldSize + newSize)) xold xnew oldData
                              oldSize newSize (c * oldSize) (c * newSize) 0 0 data)
          (zseq count) newData.

(* ===================================================================== *)
(** * Type-erased operations of VariableModel *)
(* ===================================================================== *)

Definition mismatch : exn :=
  runtime_error
    "Cannot apply arithmetic operation to Variables: Underlying data types do not match.".

(** The [dynamic_cast] of the right-hand operand to the element type of
    [*this]; [None] is the buffer of [*this] itself. *)
Definition cast_other {A} (cast : Vector -> option (list A)) (other : option Vector)
  : option (option (list A)) :=
  match other with
  | None => Some None
  | Some m => match cast m with
              | Some l => Some (Some l)
              | None => None
              end
  end.

Definition as_double (m : Vector) : option (list float) :=
  match m with VecDouble l => Some l | _ => None end.
Definition as_int32 (m : Vector) : option (list Z) :=
  match m with VecInt32 l => Some l | _ => None end.
Definition as_int64 (m : Vector) : option (list Z) :=
  match m with VecInt64 l => Some l | _ => None end.
Definition as_string (m : Vector) : option (list string) :=
  match m with VecString l => Some l | _ => None end.
Definition as_ValueWithDelta (m : Vector) : option (list ValueWithDelta) :=
  match m with VecValueWithDelta l => Some l | _ => None end.
Definition as_Dataset (m : Vector) : option (list Dataset) :=
  match m with VecDataset l => Some l | _ => None end.

(** [VariableModel<T>::apply<Op>(other)].  The operands are cast first (a
    failed cast is caught and rethrown as a [runtime_error]); then
    [ArithmeticHelper<Op, T>::apply] runs [std::transform], or throws for
    the element types of [DISABLE_ARITHMETICS_T] and for strings.  For a
    nested [Dataset] the element operator is the arithmetic of [Dataset],
    which the embedding leaves out: the operators of [Variable] below never
    reach that case for a [Variable] whose tag is [Data::Events]. *)
Definition Vector_apply (op : Op) (this_g : Geometry) (this : Vector)
                        (other_g : Geometry) (other : option Vector)
  : result Vector :=
  match this with
  | VecDouble buf =>
      match cast_other as_double other with
      | Some src => do r <- apply_elements (double_op op) this_g buf other_g src;
                    Ok (VecDouble r)
      | None => Throw mismatch
      end
  | VecInt32 buf =>
      match cast_other as_int32 other with
      | Some src => do r <- apply_elements (int_op 32 op) this_g buf other_g src;
                    Ok (VecInt32 r)
      | None => Throw mismatch
      end
  | VecInt64 buf =>
      match cast_other as_int64 other with
      | Some src => do r <- apply_elements (int_op 64 op) this_g buf other_g src;
                    Ok (VecInt64 r)
      | None => Throw mismatch
      end
  | VecString _ =>
      match cast_other as_string other with
      | Some _ => Throw (runtime_error "Cannot add strings. Use append() instead.")
      | None => Throw mismatch
      end
  | VecValueWithDelta _ =>
      match cast_other as_ValueWithDelta other with
      | Some _ => Throw (runtime_error "Not an arithmetic type. Cannot apply operand.")
      | None => Throw mismatch
      end
  | VecDataset _ =>
      match cast_other as_Dataset other with
      | Some _ => Throw not_modelled
      | None => Throw mismatch
      end
  end.

(** [VariableModel<T>::copy]; the [dynamic_cast] of [other] is not caught. *)
Definition Vector_copy (dims : Dimensions) (this : Vector)
                       (other_g : Geometry) (other : Vector)
                       (dim : Dim) (offset otherBegin otherEnd : Z)
  : result Vector :=
  match this, other with
  | VecDouble buf, VecDouble src =>
      do r <- copy_list dims buf other_g src dim offset otherBegin otherEnd;
      Ok (VecDouble r)
  | VecInt32 buf, VecInt32 src =>
      do r <- copy_list dims buf other_g src dim offset otherBegin otherEnd;
      Ok (VecInt32 r)
  | VecInt64 buf, VecInt64 src =>
      do r <- copy_list dims buf other_g src dim offset otherBegin otherEnd;
      Ok (VecInt64 r)
  | VecString buf, VecString src =>
      do r <- copy_list dims buf other_g src dim offset otherBegin otherEnd;
      Ok (VecString r)
  | VecValueWithDelta buf, VecValueWithDelta src =>
      do r <- copy_list dims buf other_g src dim offset otherBegin otherEnd;
      Ok (VecValueWithDelta r)
  | VecDataset buf, VecDataset src =>
      do r <- copy_list dims buf other_g src dim offset otherBegin otherEnd;
      Ok (VecDataset r)
  | _, _ => Throw bad_cast
  end.

(** [VariableModel<T>::clone(dims)]: [CloneHelper<T>::getModel(dims)] is
    [T(dims.volume())], a vector of value-initialised elements.  The
    number of elements is taken to be the product of the extents: the
    embedding covers the calls in which that product is within
    [gsl::index], as it is whenever a buffer of that many elements exists;
    beyond [2^63] the source passes the wrapped value of [Dims_volume64]
    to the constructor of the vector. *)
Definition Vector_clone (m : Vector) (dims : Dimensions) : result Vector :=
  let n := Dims.volume dims in
  if n <? 0 then Throw length_error
  else
    let k := Z.to_nat n in
    Ok (match m with
        | VecDouble _ => VecDouble (repeat 0%float k)
        | VecInt32 _ => VecInt32 (repeat 0 k)
        | VecInt64 _ => VecInt64 (repeat 0 k)
        | VecString _ => VecString (repeat EmptyString k)
        | VecValueWithDelta _ => VecValueWithDelta (repeat ValueWithDelta_default k)
        | VecDataset _ => VecDataset (repeat Dataset_default k)
        end).

(** [VariableModel<T>::rebin(old, dim, oldCoord, newCoord)] on [*this] with
    dimensions [dims].  The first branch is [RebinHelper<T>::rebinInner];
    [RebinHelper] throws for the element types of [DISABLE_REBIN].  The
    second branch of the source compares the addresses of the elements two
    view iterators point at, which the embedding does not represent, and it
    is left out, as is [rebinInner] on integer elements. *)
Definition VariableModel_rebin (dims : Dimensions) (this : Vector)
                               (old_dims : Dimensions) (old : Vector) (dim : Dim)
                               (oldCoord_dims : Dimensions) (oldCoord : Vector)
                               (newCoord_dims : Dimensions) (newCoord : Vector)
  : result Vector :=
  if Dim_eqb (Dims.label dims 0) dim
     && (Dims.count oldCoord_dims =? 1) && (Dims.count newCoord_dims =? 1)
  then
    match this with
    | VecDouble newData =>
        match old, oldCoord, newCoord with
        | VecDouble oldData, VecDouble xold, VecDouble xnew =>
            do r <- rebinInner dim old_dims oldData dims newData xold xnew;
            Ok (VecDouble r)
        | _, _, _ => Throw bad_cast
        end
    | VecInt32 _ | VecInt64 _ => Throw not_modelled
    | VecString _ | VecValueWithDelta _ | VecDataset _ =>
        match Vector_type this, Vector_type old,
              Vector_type oldCoord, Vector_type newCoord with
        | TString, TString, TString, TString
        | TValueWithDelta, TValueWithDelta, TValueWithDelta, TValueWithDelta
        | TDataset, TDataset, TDataset, TDataset =>
            Throw (runtime_error "Not and arithmetic type. Cannot rebin.")
        | _, _, _, _ => Throw bad_cast
        end
    end
  else Throw not_modelled.

(* ===================================================================== *)
(** * Variable: shape operations (variable.cpp) *)
(* ===================================================================== *)

(** [data()] of an owning [Variable]. *)
Definition geometry (v : Variable_) : Geometry := mkGeometry (dimensions v) None.

(** [Variable::setDimensions]: nothing happens when the dimensions are the
    ones the object has; otherwise the object is replaced by a fresh one. *)
Definition setDimensions (v : Variable_) (dims : Dimensions) : result Variable_ :=
  if Dims.dims_eqb dims (dimensions v) then Ok v
  else do m <- Vector_clone (m_model v) dims; Ok (set_object v dims m).

(** [out.data().copy(other.data(), dim, offset, otherBegin, otherEnd)]. *)
Definition data_copy (out other : Variable_) (dim : Dim)
                     (offset otherBegin otherEnd : Z) : result Variable_ :=
  do m <- Vector_copy (dimensions out) (m_model out) (geometry other) (m_model other)
                      dim offset otherBegin otherEnd;
  Ok (set_model out m).

(** [slice(var, dim, index)]. *)
Definition slice (var : Variable_) (dim : Dim) (index : Z) : result Variable_ :=
  let out := var in
  do dims <- Dims.erase (dimensions out) dim;
  do out <- setDimensions out dims;
  data_copy out var dim 0 index (index + 1).

(** [slice(var, dim, begin, end)]. *)
Definition slice_range (var : Variable_) (dim : Dim) (begin end_ : Z)
  : result Variable_ :=
  let out := var in
  do dims <- Dims.resize (dimensions out) dim (end_ - begin);
  if Dims.dims_eqb dims (dimensions out) then Ok out
  else
    do out <- setDimensions out dims;
    data_copy out var dim 0 begin end_.

(** The loop of [split]: the slices between consecutive indices. *)
Fixpoint split_between (var : Variable_) (dim : Dim) (indices : list Z)
  : result (list Variable_) :=
  match indices with
  | a :: rest =>
      match rest with
      | b :: _ =>
          do s <- slice_range var dim a b;
          do r <- split_between var dim rest;
          Ok (s :: r)
      | [] => Ok []
      end
  | [] => Ok []
  end.

(** [split(var, dim, indices)]. *)
Definition split (var : Variable_) (dim : Dim) (indices : list Z)
  : result (list Variable_) :=
  match indices with
  | [] => Ok [var]
  | front :: _ =>
      do first <- slice_range var dim 0 front;
      do middle <- split_between var dim indices;
      do n <- Dims.size (dimensions var) dim;
      do final <- slice_range var dim (List.last indices 0) n;
      Ok (first :: middle ++ [final])
  end.

(** The loop of [concatenate] over the labels of [dims1]. *)
Fixpoint concatenate_check (labels1 : list Dim) (dims1 dims2 : Dimensions) (dim : Dim)
  : result unit :=
  match labels1 with
  | [] => Ok tt
  | dim1 :: rest =>
      if negb (Dim_eqb dim1 dim) then
        if negb (Dims.contains dims2 dim1)
        then Throw (runtime_error
                      "Cannot concatenate Variables: Dimensions do not match.")
        else
          do n2 <- Dims.size dims2 dim1;
          do n1 <- Dims.size dims1 dim1;
          if negb (n2 =? n1)
          then Throw (runtime_error
                        "Cannot concatenate Variables: Dimension extents do not match.")
          else concatenate_check rest dims1 dims2 dim
      else concatenate_check rest dims1 dims2 dim
  end.

(** [extent1] and [extent2] of [concatenate]: the extent along [dim], one
    when the label is absent. *)
Definition extent_or_1 (dims : Dimensions) (dim : Dim) : result Z :=
  if Dims.contains dims dim
  then do n <- Dims.size dims dim; Ok (1 + (n - 1))
  else Ok 1.

(** [concatenate(a1, a2, dim)] on two [Variable]s. *)
Definition concatenate (a1 a2 : Variable_) (dim : Dim) : result Variable_ :=
  if negb (Tag_eqb (m_type a1) (m_type a2))
  then Throw (runtime_error "Cannot concatenate Variables: Data types do not match.")
  else if negb (Unit_eqb (m_unit a1) (m_unit a2))
  then Throw (runtime_error "Cannot concatenate Variables: Units do not match.")
  else if negb (String.eqb (m_name a1) (m_name a2))
  then Throw (runtime_error "Cannot concatenate Variables: Names do not match.")
  else
    let dims1 := dimensions a1 in
    let dims2 := dimensions a2 in
    do _ <- concatenate_check (Dims.labels dims1) dims1 dims2 dim;
    let size1 := Dims.count dims1 - (if Dims.contains dims1 dim then 1 else 0) in
    let size2 := Dims.count dims2 - (if Dims.contains dims2 dim then 1 else 0) in
    if negb (size1 =? size2)
    then Throw (runtime_error "Cannot concatenate Variables: Dimensions do not match.")
    else
      let out := a1 in
      do extent1 <- extent_or_1 dims1 dim;
      do extent2 <- extent_or_1 dims2 dim;
      do dims <- (if Dims.contains dims1 dim
                  then Dims.resize dims1 dim (extent1 + extent2)
                  else Dims.add dims1 dim (extent1 + extent2));
      do out <- setDimensions out dims;
      do out <- data_copy out a1 dim 0 0 extent1;
      data_copy out a2 dim extent1 0 extent2.


(** [rebin(var, oldCoord, newCoord)] on [Variable]s. *)
Definition rebin (var oldCoord newCoord : Variable_) : result Variable_ :=
  let rebinned := var in
  let dim := coordDimension (m_type newCoord) in
  do n <- Dims.size (dimensions newCoord) dim;
  do dims <- Dims.resize (dimensions rebinned) dim (n - 1);
  do rebinned <- setDimensions rebinned dims;
  do m <- VariableModel_rebin (dimensions rebinned) (m_model rebinned)
                              (dimensions var) (m_model var) dim
                              (dimensions oldCoord) (m_model oldCoord)
                              (dimensions newCoord) (m_model newCoord);
  Ok (set_model rebinned m).

(** [Variable::setSlice(slice, dim, index)].  [same_object] is the outcome
    of [m_object == slice.m_object], the comparison of the two handles:
    nothing is copied when they hold one object. *)
Definition setSlice (this slice_ : Variable_) (same_object : bool)
                    (dim : Dim) (index : Z) : result Variable_ :=
  if negb (Unit_eqb (m_unit this) (m_unit slice_))
  then Throw (runtime_error "Cannot set slice: Units do not match.")
  else if same_object then Ok this
  else if negb (Dims.contains_dims (dimensions this) (dimensions slice_))
  then Throw (runtime_error "Cannot set slice: Dimensions do not match.")
  else data_copy this slice_ dim index 0 1.

(** The loop of [permute]: slab [indices[i]] of [var] is copied to slab
    [i] of [permuted], for every [i] below the number of indices. *)
Fixpoint permute_loop (permuted var : Variable_) (dim : Dim) (i : Z)
                      (indices : list Z) : result Variable_ :=
  match indices with
  | [] => Ok permuted
  | k :: rest =>
      do permuted' <- data_copy permuted var dim i k (k + 1);
      permute_loop permuted' var dim (i + 1) rest
  end.

(** [permute(var, dim, indices)]. *)
Definition permute (var : Variable_) (dim : Dim) (indices : list Z)
  : result Variable_ :=
  permute_loop var var dim 0 indices.

(** The loop of [filter]: the slabs of [var] whose mask entry is not zero
    are copied to [out] one after the other. *)
Fixpoint filter_loop (out var : Variable_) (dim : Dim) (mask : list Z) (iOut iIn : Z)
  : result Variable_ :=
  match mask with
  | [] => Ok out
  | m :: rest =>
      if negb (m =? 0)
      then do out' <- data_copy out var dim iOut iIn (iIn + 1);
           filter_loop out' var dim rest (iOut + 1) (iIn + 1)
      else filter_loop out var dim rest iOut (iIn + 1)
  end.

(** [filter(var, filter)].  [filter_dims] and [mask] are the dimensions
    and the elements of [filter], a [Coord::Mask] Variable, whose elements
    are of type [char]. *)
Definition Variable_filter (var : Variable_) (filter_dims : Dimensions) (mask : list Z)
  : result Variable_ :=
  if negb (Dims.ndim filter_dims =? 1)
  then Throw (runtime_error "Cannot filter variable: The filter must by 1-dimensional.")
  else
    let dim := Dims.label filter_dims 0 in
    let removed := Z.of_nat (count_occ Z.eq_dec mask 0) in
    if removed =? 0 then Ok var
    else
      let out := var in
      do n <- Dims.size (dimensions out) dim;
      do dims <- Dims.resize (dimensions out) dim (n - removed);
      do out <- setDimensions out dims;
      filter_loop out var dim mask 0 0.

(** The positions [i], [i + 1], ... of the entries of a mask that are not
    zero. *)
Fixpoint kept (mask : list Z) (i : Z) : list Z :=
  match mask with
  | [] => []
  | m :: rest => if m =? 0 then kept rest (i + 1) else i :: kept rest (i + 1)
  end.

(* ===================================================================== *)
(** * Equality of Variables and Datasets *)
(* ===================================================================== *)

Fixpoint list_equal {A} (eq : A -> A -> bool) (l1 l2 : list A) : bool :=
  match l1, l2 with
  | [], [] => true
  | x :: l1', y :: l2' => eq x y && list_equal eq l1' l2'
  | _, _ => false
  end.

(** Modelled from the spec: [Dataset::operator==] is defined in
    [dataset.cpp], which is not among the sources; two Datasets are equal
    when their registries are and their Variables are, one by one.  The
    comparison of two Variables is the deep branch of
    [Variable::operator==] with [VariableModel::operator==] on two owning
    models: [std::equal] with the [operator==] of the element type. *)
Fixpoint Dataset_equals (a b : Dataset) {struct a} : bool :=
  Dims.dims_eqb (m_dimensions a) (m_dimensions b)
  && (fix variables (la lb : list Variable_) {struct la} : bool :=
        match la, lb with
        | [], [] => true
        | x :: xs, y :: ys =>
            String.eqb (m_name x) (m_name y)
            && Unit_eqb (m_unit x) (m_unit y)
            && Tag_eqb (m_type x) (m_type y)
            && Dims.dims_eqb (dimensions x) (dimensions y)
            && match m_model x, m_model y with
               | VecDouble l, VecDouble l' => list_equal PrimFloat.eqb l l'
               | VecInt32 l, VecInt32 l' => list_equal Z.eqb l l'
               | VecInt64 l, VecInt64 l' => list_equal Z.eqb l l'
               | VecString l, VecString l' => list_equal String.eqb l l'
               | VecValueWithDelta l, VecValueWithDelta l' =>
                   list_equal ValueWithDelta_eq l l'
               | VecDataset l, VecDataset l' =>
                   (fix datasets (l l' : list Dataset) {struct l} : bool :=
                      match l, l' with
                      | [], [] => true
                      | d :: ds, d' :: ds' => Dataset_equals d d' && datasets ds ds'
                      | _, _ => false
                      end) l l'
               | _, _ => false
               end
            && variables xs ys
        | _, _ => false
        end) (m_variables a) (m_variables b).

(** [VariableModel<Vector<T>>::operator==] on two owning models. *)
Definition Vector_equals (a b : Vector) : bool :=
  match a, b with
  | VecDouble l, VecDouble l' => list_equal PrimFloat.eqb l l'
  | VecInt32 l, VecInt32 l' => list_equal Z.eqb l l'
  | VecInt64 l, VecInt64 l' => list_equal Z.eqb l l'
  | VecString l, VecString l' => list_equal String.eqb l l'
  | VecValueWithDelta l, VecValueWithDelta l' => list_equal ValueWithDelta_eq l l'
  | VecDataset l, VecDataset l' => list_equal Dataset_equals l l'
  | _, _ => false
  end.

(** [Variable::operator==(const Variable &)], the deep comparison (two
    handles on one object compare equal before it is reached). *)
Definition Variable_equals (a b : Variable_) : bool :=
  String.eqb (m_name a) (m_name b)
  && Unit_eqb (m_unit a) (m_unit b)
  && Tag_eqb (m_type a) (m_type b)
  && Dims.dims_eqb (dimensions a) (dimensions b)
  && Vector_equals (m_model a) (m_model b).

(* ===================================================================== *)
(** * Dataset (dataset.h) *)
(* ===================================================================== *)

(** [count(dataset, id)] and [count(dataset, id, name)]. *)
Definition count_tag (vars : list Variable_) (t : Tag) : Z :=
  Z.of_nat (List.length (filter (fun v => Tag_eqb (m_type v) t) vars)).

Definition count_tag_name (vars : list Variable_) (t : Tag) (name : string) : Z :=
  Z.of_nat (List.length
              (filter (fun v => Tag_eqb (m_type v) t && String.eqb (m_name v) name) vars)).

(** [find(dataset, id, name)]: the index of the first match. *)
Fixpoint find_from (vars : list Variable_) (t : Tag) (name : string) (i : Z)
  : result Z :=
  match vars with
  | [] => Throw (runtime_error "Dataset does not contain such a variable.")
  | v :: rest =>
      if Tag_eqb (m_type v) t && String.eqb (m_name v) name then Ok i
      else find_from rest t name (i + 1)
  end.

Definition find (d : Dataset) (t : Tag) (name : string) : result Z :=
  find_from (m_variables d) t name 0.

(** Modelled from the spec: [findUnique(tag)] is defined in [dataset.cpp];
    section 4.H: exactly one Variable has that tag id, whatever its name. *)
Fixpoint find_tag_from (vars : list Variable_) (t : Tag) (i : Z) : result Z :=
  match vars with
  | [] => Throw (runtime_error "Dataset does not contain such a variable.")
  | v :: rest =>
      if Tag_eqb (m_type v) t then Ok i else find_tag_from rest t (i + 1)
  end.

Definition findUnique (d : Dataset) (t : Tag) : result Z :=
  if count_tag (m_variables d) t =? 1
  then find_tag_from (m_variables d) t 0
  else Throw (runtime_error "Dataset does not contain a unique variable of that tag.").

(** [m_variables.erase(m_variables.begin() + i)]. *)
Fixpoint remove_at {A} (l : list A) (i : nat) : list A :=
  match l, i with
  | [], _ => []
  | _ :: l', O => l'
  | a :: l', S i' => a :: remove_at l' i'
  end.

(** The loop of [Dataset::erase<Tag>] over the labels of the erased
    Variable: a label that none of the remaining Variables holds leaves the
    registry. *)
Fixpoint erase_unused (labels : list Dim) (vars : list Variable_)
                      (registry : Dimensions) : result Dimensions :=
  match labels with
  | [] => Ok registry
  | dim :: rest =>
      let found := existsb (fun var => Dims.contains (dimensions var) dim) vars in
      do registry' <- (if negb found then Dims.erase registry dim else Ok registry);
      erase_unused rest vars registry'
  end.

(** [Dataset::erase<Tag>()]. *)
Definition Dataset_erase (d : Dataset) (t : Tag) : result Dataset :=
  do i <- findUnique d t;
  match zlookup (m_variables d) i with
  | None => Throw out_of_bounds
  | Some it =>
      let dims := dimensions it in
      let vars := remove_at (m_variables d) (Z.to_nat i) in
      do registry <- erase_unused (Dims.labels dims) vars (m_dimensions d);
      Ok (mkDataset registry vars)
  end.

(** Modelled from the spec: [Dataset::mergeDimensions] is defined in
    [dataset.cpp].  Section 4.H: for each label the extent must match the
    one of the registry, or differ by one where a dimension coordinate
    holds bin edges: a dimension coordinate may be one longer than the
    registry along its own dimension, and a Variable may be one shorter than
    the registry when every Variable that holds the label so far is the
    dimension coordinate of it with the extent of the registry (the
    registry then takes the shorter extent, and the coordinate holds the
    edges). *)
Fixpoint mergeDimensions (vars : list Variable_) (registry : Dimensions)
                         (dims : Dimensions) (coordDim : Dim) : result Dimensions :=
  match dims with
  | [] => Ok registry
  | (dim, n) :: rest =>
      do registry' <-
        (if Dims.contains registry dim then
           do r <- Dims.size registry dim;
           if r =? n then Ok registry
           else if Dim_eqb dim coordDim then
             if r =? n - 1 then Ok registry
             else Throw (runtime_error
               "Cannot insert variable into Dataset: Variable is a dimension coordinate, but the dimension length matches neither as default coordinate nor as edge coordinate.")
           else if (r =? n + 1)
                   && forallb (fun var =>
                                 negb (Dims.contains (dimensions var) dim)
                                 || (Dim_eqb (coordDimension (m_type var)) dim
                                     && match Dims.size (dimensions var) dim with
                                        | Ok m => m =? r
                                        | Throw _ => false
                                        end)) vars
           then Dims.resize registry dim n
           else Throw (runtime_error
               "Cannot insert variable into Dataset: Dimensions do not match.")
         else Dims.add registry dim n);
      mergeDimensions vars registry' rest coordDim
  end.

(** Modelled from the spec: [Dataset::insert(Variable)] is declared in
    [dataset.h] and defined in [dataset.cpp].  Section 4.H: the pair of tag
    and name must be new (a coordinate has no name, so its tag must be),
    the dimensions are merged into the registry, the Variable is appended. *)
Definition Dataset_insert (d : Dataset) (variable : Variable_) : result Dataset :=
  if 0 <? count_tag_name (m_variables d) (m_type variable) (m_name variable)
  then Throw (runtime_error
                (if isCoord variable
                 then "Attempt to insert duplicate coordinate."
                 else "Attempt to insert data of same type with duplicate name."))
  else
    do registry <- mergeDimensions (m_variables d) (m_dimensions d)
                                   (dimensions variable)
                                   (coordDimension (m_type variable));
    Ok (mkDataset registry (m_variables d ++ [variable])).

(** [Dataset::merge(other)]: every Variable of [other] is inserted. *)
Definition Dataset_merge (d other : Dataset) : result Dataset :=
  foldM Dataset_insert (m_variables other) d.

(** Modelled from the spec: [concatenate(d1, d2, dim)] on Datasets is
    defined in [dataset.cpp].  Section 4.H: the Variables of [d1] are
    matched with those of [d2] by tag and name; coordinates that do not
    hold [dim] must compare equal and are kept, every other pair is joined
    with [concatenate] on Variables. *)
Definition Dataset_concatenate (d1 d2 : Dataset) (dim : Dim) : result Dataset :=
  foldM (fun out var1 =>
           do i2 <- find d2 (m_type var1) (m_name var1);
           match zlookup (m_variables d2) i2 with
           | None => Throw out_of_bounds
           | Some var2 =>
               if isCoord var1 && negb (Dims.contains (dimensions var1) dim)
               then
                 if Variable_equals var1 var2 then Dataset_insert out var1
                 else Throw (runtime_error
                   "Cannot concatenate Datasets: Coordinates do not match.")
               else
                 do joined <- concatenate var1 var2 dim;
                 Dataset_insert out joined
           end)
        (m_variables d1) Dataset_default.

(** ** The invariant of the registry *)

(** Labels as the constructor of [Dimensions] and [add] let them be:
    distinct, and none of them [Dim::Invalid]. *)
Definition valid_labels (d : Dimensions) : Prop :=
  distinct_labels d /\ ~ In Invalid (Dims.labels d).

(** Every extent of [var] is the one the registry records for the label,
    or one more where [var] is the dimension coordinate of the label (bin
    edges). *)
Definition registered (registry : Dimensions) (var : Variable_) : Prop :=
  forall D n, Dims.size (dimensions var) D = Ok n ->
    exists r, Dims.size registry D = Ok r
              /\ (n = r \/ (coordDimension (m_type var) = D /\ n = r + 1)).

(** Some Variable of [vars] holds the label [D]. *)
Definition referenced (vars : list Variable_) (D : Dim) : Prop :=
  exists var, In var vars /\ Dims.contains (dimensions var) D = true.

Record Dataset_invariant (d : Dataset) : Prop := {
  inv_registry : valid_labels (m_dimensions d);
  inv_variables : forall var, In var (m_variables d) -> valid_labels (dimensions var);
  inv_extents : forall var, In var (m_variables d) -> registered (m_dimensions d) var;
  inv_referenced : forall D, Dims.contains (m_dimensions d) D = true ->
                             referenced (m_variables d) D
}.

(* ===================================================================== *)
(** * Variable: arithmetic (variable.cpp) *)
(* ===================================================================== *)

(** The right-hand side [const T &other] of an in-place operator, [T]
    being [Variable] or [VariableSlice]: what the operators read of it.
    [o_data = None] says that [other.data()] is, or is a view into, the
    very object the operator writes: the left-hand Variable itself, or a
    slice of it. *)
Record Operand := mkOperand {
  o_type : Tag;
  o_name : string;
  o_unit : Unit;
  o_geometry : Geometry;
  o_data : option Vector
}.

(** A Variable with an object of its own (a copy that shares the object
    gets one on the first write of the left-hand side). *)
Definition operand (v : Variable_) : Operand :=
  mkOperand (m_type v) (m_name v) (m_unit v) (geometry v) (Some (m_model v)).

(** The left-hand Variable itself, as in [a += a]. *)
Definition operand_itself (this : Variable_) : Operand :=
  mkOperand (m_type this) (m_name this) (m_unit this) (geometry this) None.

(** Modelled from the spec: [VariableSlice] is defined in [variable.h],
    which is not among the sources.  Sections 3, 4.F and 4.G: a slice
    records restrictions [(Dim, begin, end)], [end = -1] being a point
    slice that drops the label; the bounds [0 <= begin <= end <= extent]
    are enforced; its data is the view that [makeView] of [variable.cpp]
    builds. *)
Definition restrict (g : Geometry) (dim : Dim) (begin end_ : Z) : result Geometry :=
  do n <- Dims.size (g_dims g) dim;
  if (begin <? 0) || (if end_ =? -1 then n <=? begin
                      else (end_ <? begin) || (n <? end_))
  then Throw (runtime_error "Slice index out of range.")
  else makeView g dim begin end_.

(** [var(dim, begin, end)] where [var] is the left-hand Variable. *)
Definition slice_of_itself (this : Variable_) (dim : Dim) (begin end_ : Z)
  : result Operand :=
  do g <- restrict (geometry this) dim begin end_;
  Ok (mkOperand (m_type this) (m_name this) (m_unit this) g None).

(** [var(dim, begin, end)] where [var] has an object of its own. *)
Definition slice_of (var : Variable_) (dim : Dim) (begin end_ : Z) : result Operand :=
  do g <- restrict (geometry var) dim begin end_;
  Ok (mkOperand (m_type var) (m_name var) (m_unit var) g (Some (m_model var))).

(** [slice(dim, begin, end)] on a slice. *)
Definition slice_again (o : Operand) (dim : Dim) (begin end_ : Z) : result Operand :=
  do g <- restrict (o_geometry o) dim begin end_;
  Ok (mkOperand (o_type o) (o_name o) (o_unit o) g (o_data o)).

(** The state an in-place member function leaves behind, and the exception
    it threw, if any. *)
Definition inplace (A : Type) : Type := A * option exn.

Definition returns {A} (a : A) : inplace A := (a, None).
Definition throws {A} (a : A) (e : exn) : inplace A := (a, Some e).

(** [m_object.access() op= other.data()]. *)
Definition object_apply (op : Op) (this : Variable_) (other : Operand)
  : inplace Variable_ :=
  match Vector_apply op (geometry this) (m_model this)
                     (o_geometry other) (o_data other) with
  | Ok m => returns (set_model this m)
  | Throw e => throws this e
  end.

(** [other.template cast<Dataset>()]: the nested Datasets of the operand,
    in the iteration order of its dimensions. *)
Definition operand_datasets (this : Variable_) (other : Operand)
  : result (list Dataset) :=
  match as_Dataset (match o_data other with Some m => m | None => m_model this end) with
  | None => Throw bad_cast
  | Some l =>
      match g_view (o_geometry other) with
      | None => Ok l
      | Some v =>
          mapM (fun p => match zlookup l p with
                         | Some d => Ok d
                         | None => Throw out_of_bounds
                         end) (view_positions v)
      end
  end.

(** The loop [datasets[i] = concatenate(datasets[i], otherDatasets[i], dim)];
    a throw leaves the event lists joined so far in place. *)
Fixpoint events_loop (dim : Dim) (datasets others : list Dataset)
  : inplace (list Dataset) :=
  match datasets with
  | [] => returns []
  | d :: ds =>
      match others with
      | [] => throws datasets out_of_bounds
      | o :: os =>
          match Dataset_concatenate d o dim with
          | Ok joined =>
              let '(rest, e) := events_loop dim ds os in (joined :: rest, e)
          | Throw e => throws datasets e
          end
      end
  end.

(** [Variable::operator+=(const T &other)].  [Data::Table] is not among
    the tags of the embedding. *)
Definition plus_equal (this : Variable_) (other : Operand) : inplace Variable_ :=
  if negb (Unit_eqb (m_unit this) (o_unit other))
  then throws this (runtime_error "Cannot add Variables: Units do not match.")
  else if negb (valueTypeIs this Data_Events) then
    if Dims.contains_dims (dimensions this) (g_dims (o_geometry other))
    then object_apply plus this other
    else throws this (runtime_error "Cannot add Variables: Dimensions do not match.")
  else
    if Dims.dims_eqb (dimensions this) (g_dims (o_geometry other)) then
      match operand_datasets this other with
      | Throw e => throws this e
      | Ok otherDatasets =>
          if match otherDatasets with
             | [] => false
             | first :: _ => negb (Dims.count (m_dimensions first) =? 1)
             end
          then throws this (runtime_error
                 "Cannot add Variable: Nested Dataset dimension must be 1.")
          else
            match as_Dataset (m_model this) with
            | None => throws this bad_cast
            | Some datasets =>
                match datasets with
                | [] => throws this out_of_bounds
                | first :: _ =>
                    let dim := Dims.label (m_dimensions first) 0 in
                    let '(joined, e) := events_loop dim datasets otherDatasets in
                    (set_model this (VecDataset joined), e)
                end
            end
      end
    else throws this (runtime_error "Cannot add Variables: Dimensions do not match.").

(** [Variable::operator-=(const T &other)]. *)
Definition minus_equal (this : Variable_) (other : Operand) : inplace Variable_ :=
  if negb (Unit_eqb (m_unit this) (o_unit other))
  then throws this (runtime_error "Cannot subtract Variables: Units do not match.")
  else if Dims.contains_dims (dimensions this) (g_dims (o_geometry other)) then
    if valueTypeIs this Data_Events
    then throws this (runtime_error "Subtraction of events lists not implemented.")
    else object_apply minus this other
  else throws this (runtime_error "Cannot subtract Variables: Dimensions do not match.").

(** [Variable::operator*=(const T &other)]: the unit is assigned before the
    elements are multiplied. *)
Definition times_equal (this : Variable_) (other : Operand) : inplace Variable_ :=
  if negb (Dims.contains_dims (dimensions this) (g_dims (o_geometry other)))
  then throws this (runtime_error "Cannot multiply Variables: Dimensions do not match.")
  else if valueTypeIs this Data_Events
  then throws this (runtime_error "Multiplication of events lists not implemented.")
  else
    match Unit_mul (m_unit this) (o_unit other) with
    | Throw e => throws this e
    | Ok u =>
        let this' := set_unit this u in
        object_apply multiplies this' other
    end.

(* ===================================================================== *)
(** * Dataset: arithmetic *)
(* ===================================================================== *)

(** [m_variables[i] = v]. *)
Definition set_variable (d : Dataset) (i : Z) (v : Variable_) : Dataset :=
  mkDataset (m_dimensions d) (zupd (m_variables d) i v).

(** Modelled from the spec: [Dataset::operator+=] is defined in
    [dataset.cpp].  Section 4.H: a coordinate of the right-hand side that
    the left-hand side holds must compare equal to it, one it does not hold
    is inserted; a data Variable is added to its partner of the same tag and
    name with the arithmetic of [Variable], and inserted when it has no
    partner. *)
Fixpoint Dataset_plus_loop (this : Dataset) (others : list Variable_)
  : inplace Dataset :=
  match others with
  | [] => returns this
  | var2 :: rest =>
      match find this (m_type var2) (m_name var2) with
      | Throw _ =>
          match Dataset_insert this var2 with
          | Ok this' => Dataset_plus_loop this' rest
          | Throw e => throws this e
          end
      | Ok i =>
          match zlookup (m_variables this) i with
          | None => throws this out_of_bounds
          | Some var1 =>
              if isCoord var2 then
                if Variable_equals var1 var2 then Dataset_plus_loop this rest
                else throws this (runtime_error
                       "Cannot add Datasets: Coordinates do not match.")
              else
                let '(sum, e) := plus_equal var1 (operand var2) in
                let this' := set_variable this i sum in
                match e with
                | Some _ => (this', e)
                | None => Dataset_plus_loop this' rest
                end
          end
      end
  end.

Definition Dataset_plus_equal (this other : Dataset) : inplace Dataset :=
  Dataset_plus_loop this (m_variables other).

(* ===================================================================== *)
(** * Slice (dataset.h) *)
(* ===================================================================== *)

(** [Slice<D>]: the Dataset it refers to, the indices of the selected
    Variables, and the restrictions [(dim, begin, end)], [end = -1] being
    a point slice. *)
Record Slice := mkSlice {
  m_dataset : Dataset;
  m_indices : list Z;
  m_slices : list (Dim * Z * Z)
}.

(** [Slice(D &dataset)]: everything is selected. *)
Definition Slice_all (dataset : Dataset) : Slice :=
  mkSlice dataset (zseq (Z.of_nat (List.length (m_variables dataset)))) [].

(** [Slice(D &dataset, const std::string &select)]: the coordinates and
    the Variables of that name. *)
Definition Slice_select (dataset : Dataset) (select : string) : Slice :=
  mkSlice dataset
          (filter (fun i => match zlookup (m_variables dataset) i with
                            | Some var => isCoord var || String.eqb (m_name var) select
                            | None => false
                            end)
                  (zseq (Z.of_nat (List.length (m_variables dataset)))))
          [].

(** The first loop of [Slice::operator()]: a restriction of [dim] that is
    there already is overwritten where it stands. *)
Fixpoint Slice_overwrite (slices : list (Dim * Z * Z)) (dim : Dim) (begin end_ : Z)
  : option (list (Dim * Z * Z)) :=
  match slices with
  | [] => None
  | (d, b, e) :: rest =>
      if Dim_eqb d dim then Some ((d, begin, end_) :: rest)
      else match Slice_overwrite rest dim begin end_ with
           | Some rest' => Some ((d, b, e) :: rest')
           | None => None
           end
  end.

(** The second loop of [Slice::operator()], on a point slice: the indices
    of the Variables whose coordinate dimension is [dim] are erased.
    [m_dataset[*it]] past the end of the Dataset is [out_of_bounds]. *)
Fixpoint Slice_drop (vars : list Variable_) (indices : list Z) (dim : Dim)
  : result (list Z) :=
  match indices with
  | [] => Ok []
  | i :: rest =>
      match zlookup vars i with
      | None => Throw out_of_bounds
      | Some var =>
          do r <- Slice_drop vars rest dim;
          Ok (if Dim_eqb (coordDimension (m_type var)) dim then r else i :: r)
      end
  end.

(** [Slice::operator()(dim, begin, end)]. *)
Definition Slice_call (s : Slice) (dim : Dim) (begin end_ : Z) : result Slice :=
  match Slice_overwrite (m_slices s) dim begin end_ with
  | Some slices => Ok (mkSlice (m_dataset s) (m_indices s) slices)
  | None =>
      let slices := m_slices s ++ [(dim, begin, end_)] in
      if end_ =? -1
      then do indices <- Slice_drop (m_variables (m_dataset s)) (m_indices s) dim;
           Ok (mkSlice (m_dataset s) indices slices)
      else Ok (mkSlice (m_dataset s) (m_indices s) slices)
  end.

(** [Slice::size()]. *)
Definition Slice_size (s : Slice) : Z := Z.of_nat (List.length (m_indices s)).

(** [Slice::dimensions()]: the labels of the registry, in its order, each
    with the extent the restrictions leave, [-1] after a point slice. *)
Definition Slice_dimensions (s : Slice) : list (Dim * Z) :=
  map (fun p : Dim * Z =>
         (fst p,
          fold_left (fun size (sl : Dim * Z * Z) =>
                       if Dim_eqb (fst (fst sl)) (fst p)
                       then if snd sl =? -1 then -1 else snd sl - snd (fst sl)
                       else size)
                    (m_slices s) (snd p)))
      (m_dimensions (m_dataset s)).

(** What the constructors and [operator()] keep of a [Slice]: the indices
    are increasing positions of the Dataset, and no dimension is
    restricted twice. *)
Record Slice_invariant (s : Slice) : Prop := {
  inv_sorted : StronglySorted Z.lt (m_indices s);
  inv_indices : Forall (fun i => 0 <= i < Z.of_nat (List.length (m_variables (m_dataset s))))
                       (m_indices s);
  inv_slices : NoDup (map (fun sl : Dim * Z * Z => fst (fst sl)) (m_slices s))
}.

(* ===================================================================== *)
(** * Labelled indices *)
(* ===================================================================== *)

(** The vocabulary of the statements below.  An element of a Variable is
    named by an index for every label; [linear dims ix] is its row-major
    position in a buffer laid out by [dims] (the first label is the
    outermost), which reads only the indices of the labels of [dims]. *)
Definition Index := Dim -> Z.

Definition in_range (dims : Dimensions) (ix : Index) : Prop :=
  Forall (fun p : Dim * Z => 0 <= ix (fst p) < snd p) dims.

Fixpoint linear (dims : Dimensions) (ix : Index) : Z :=
  match dims with
  | [] => 0
  | (d, _) :: rest => ix d * Dims.volume rest + linear rest ix
  end.

(** [ix] with the index of [dim] replaced by [i]. *)
Definition with_index (ix : Index) (dim : Dim) (i : Z) : Index :=
  fun d => if Dim_eqb d dim then i else ix d.


(** One element of a [Vector], whatever its type. *)
Inductive Element :=
| EDouble (x : float)
| EInt32 (z : Z)
| EInt64 (z : Z)
| EString (s : string)
| EValueWithDelta (v : ValueWithDelta)
| EDataset (d : Dataset).

(** The element at position [p] of a model. *)
Definition element (m : Vector) (p : Z) : option Element :=
  match m with
  | VecDouble l => option_map EDouble (zlookup l p)
  | VecInt32 l => option_map EInt32 (zlookup l p)
  | VecInt64 l => option_map EInt64 (zlookup l p)
  | VecString l => option_map EString (zlookup l p)
  | VecValueWithDelta l => option_map EValueWithDelta (zlookup l p)
  | VecDataset l => option_map EDataset (zlookup l p)
  end.

(** The position reached in a buffer laid out by [parent] when the labels
    of [target] are walked with the indices [ix]. *)
Fixpoint stride_sum (parent target : Dimensions) (ix : Index) : Z :=
  match target with
  | [] => 0
  | (d, _) :: rest => ix d * stride parent d + stride_sum parent rest ix
  end.

(** The value-initialised element of each type: what [T(n)] fills a
    vector with. *)
Definition value_initialised (t : ElemType) : Element :=
  match t with
  | TDouble => EDouble 0%float
  | TInt32 => EInt32 0
  | TInt64 => EInt64 0
  | TString => EString EmptyString
  | TValueWithDelta => EValueWithDelta ValueWithDelta_default
  | TDataset => EDataset Dataset_default
  end.






(** [s] holds the slabs [a], ..., [b - 1] of [v] along [dim]: the tag, name
    and unit of [v], the dimensions of [v] with the extent of [dim] set to
    [b - a], and at every index the element [v] has [a] slabs further. *)
Definition is_slice (v : Variable_) (dim : Dim) (a b : Z) (s : Variable_) : Prop :=
  m_type s = m_type v /\ m_name s = m_name v /\ m_unit s = m_unit v
  /\ wf_variable s
  /\ Dims.resize (dimensions v) dim (b - a) = Ok (dimensions s)
  /\ forall ix, in_range (dimensions s) ix ->
       element (m_model s) (linear (dimensions s) ix)
       = element (m_model v) (linear (dimensions v) (with_index ix dim (ix dim + a))).

(** [parts] are the slices of [v] between the consecutive boundaries
    [a :: bounds]. *)
Fixpoint slices (v : Variable_) (dim : Dim) (a : Z) (bounds : list Z)
                (parts : list Variable_) : Prop :=
  match bounds, parts with
  | [], [] => True
  | b :: bounds', p :: parts' => is_slice v dim a b p /\ slices v dim b bounds' parts'
  | _, _ => False
  end.




(* ===================================================================== *)
(** * Dimensions: the six slots (dimensions.h) *)
(* ===================================================================== *)

(** The members [m_dims] and [m_shape] of a [Dimensions] that holds the
    entries [d], as the constructors leave them: six slots, the ones past
    [m_ndim] with the values of the member initialisers, [Dim::Invalid] and
    [-1]. *)
Definition Dims_slots (d : Dimensions) : list (Dim * Z) :=
  d ++ repeat (Invalid, -1) (6 - List.length d).

(** [Dimensions::volume()] as the machine computes it: the loop
    multiplies the extents in use into a [gsl::index], a 64-bit signed
    integer, and the product wraps around. *)
Definition Dims_volume64 (d : Dimensions) : Z :=
  fold_left (fun volume n => wrap 64 (volume * n)) (Dims.shape d) 1.

(** The loop of [operator[](const Dim)] over the slots. *)
Fixpoint Dims_at_slots (slots : list (Dim * Z)) (dim : Dim) : result Z :=
  match slots with
  | [] => Throw DimensionNotFoundError
  | (l, n) :: rest => if Dim_eqb l dim then Ok n else Dims_at_slots rest dim
  end.

(** [operator[](const Dim)]: all six slots are searched. *)
Definition Dims_at (d : Dimensions) (dim : Dim) : result Z :=
  Dims_at_slots (Dims_slots d) dim.

(** The loop of [operator==] over the slots: the extents are compared
    before the labels. *)
Fixpoint Dims_equal_slots (a b : list (Dim * Z)) : bool :=
  match a, b with
  | (la, na) :: a', (lb, nb) :: b' =>
      if negb (na =? nb) then false
      else if negb (Dim_eqb la lb) then false
      else Dims_equal_slots a' b'
  | _, _ => true
  end.

(** [operator==]. *)
Definition Dims_equal (a b : Dimensions) : bool :=
  if negb (Dims.ndim a =? Dims.ndim b) then false
  else Dims_equal_slots (Dims_slots a) (Dims_slots b).

(* ===================================================================== *)
(** * Inputs of the tests *)
(* ===================================================================== *)

(** [TEST(Variable, operator_plus_equal_transpose)]. *)
Definition transpose_lhs : Variable_ :=
  mkVariable Data_Value EmptyString Dimensionless [(DimY, 3); (DimX, 2)]
             (VecDouble [1; 2; 3; 4; 5; 6]%float).
Definition transpose_rhs : Variable_ :=
  mkVariable Data_Value EmptyString Dimensionless [(DimX, 2); (DimY, 3)]
             (VecDouble [1; 3; 5; 2; 4; 6]%float).

(** [TEST(VariableSlice, self_overlapping_view_operation_broken)]. *)
Definition overlap_var : Variable_ :=
  mkVariable Data_Value EmptyString Dimensionless [(DimY, 2); (DimX, 2)]
             (VecDouble [1; 2; 3; 4]%float).

(** [TEST(Variable, rebin)], and the same data with the old edges as the
    new ones. *)
Definition rebin_var : Variable_ :=
  mkVariable Data_Value EmptyString Dimensionless [(DimX, 2)]
             (VecDouble [1; 2]%float).
Definition rebin_oldEdge : Variable_ :=
  mkVariable Coord_X EmptyString Length [(DimX, 3)] (VecDouble [1; 2; 3]%float).
Definition rebin_newEdge : Variable_ :=
  mkVariable Coord_X EmptyString Length [(DimX, 2)] (VecDouble [1; 3]%float).

(** A [Coord::X] Variable and a [Data::Int] Variable whose unit was set to
    [Length]. *)
Definition times_lhs : Variable_ :=
  mkVariable Coord_X EmptyString Length [(DimX, 2)] (VecDouble [2; 3]%float).
Definition times_rhs : Variable_ :=
  mkVariable Data_Int EmptyString Length [(DimX, 2)] (VecInt64 [1; 2]).

(** Three fuzzy temperatures. *)
Definition fuzzy_a : ValueWithDelta := mkValueWithDelta 0%float 0.75%float.
Definition fuzzy_b : ValueWithDelta := mkValueWithDelta 0.5%float 0%float.
Definition fuzzy_c : ValueWithDelta := mkValueWithDelta 1%float 0.75%float.

Definition fuzzy_variable (x : ValueWithDelta) : Variable_ :=
  mkVariable Coord_FuzzyTemperature EmptyString Dimensionless []
             (VecValueWithDelta [x]).

(** [TEST(Variable, concatenate)]: [a], [b], and the values the test
    expects of [ab] and [ba]. *)
Definition concatenate_a : Variable_ :=
  mkVariable Data_Value EmptyString Length [(Tof, 1)] (VecDouble [1]%float).
Definition concatenate_b : Variable_ :=
  mkVariable Data_Value EmptyString Length [(Tof, 1)] (VecDouble [2]%float).
Definition concatenate_ab : Variable_ :=
  mkVariable Data_Value EmptyString Length [(Tof, 2)] (VecDouble [1; 2]%float).
Definition concatenate_ba : Variable_ :=
  mkVariable Data_Value EmptyString Length [(Tof, 2)] (VecDouble [2; 1]%float).
Definition concatenate_abba : Variable_ :=
  mkVariable Data_Value EmptyString Length [(Q, 2); (Tof, 2)]
             (VecDouble [1; 2; 2; 1]%float).


(** A table column of six rows, as [mergedTable] of
    [TEST(TableWorkspace, basics)]. *)
Definition six_rows : Variable_ :=
  mkVariable Data_Value "Data" Dimensionless [(Row, 6)]
             (VecDouble [1; -2; 3; 1; -2; 3]%float).

(** [TEST(Variable, slice)]: the parent. *)
Definition slice_parent : Variable_ :=
  mkVariable Data_Value EmptyString Dimensionless [(DimZ, 3); (DimY, 2); (DimX, 4)]
             (VecDouble [1; 2; 3; 4; 5; 6; 7; 8; 9; 10; 11; 12; 13; 14; 15; 16; 17; 18; 19; 20; 21; 22; 23; 24]%float).

(** [TEST(Variable, setSlice)]: the parent and the Variable of 24
    value-initialised elements. *)
Definition setSlice_parent : Variable_ :=
  mkVariable Data_Value EmptyString Dimensionless [(DimX, 4); (DimY, 2); (DimZ, 3)]
             (VecDouble [1; 2; 3; 4; 5; 6; 7; 8; 9; 10; 11; 12; 13; 14; 15; 16; 17; 18; 19; 20; 21; 22; 23; 24]%float).
Definition setSlice_empty : Variable_ :=
  mkVariable Data_Value EmptyString Dimensionless [(DimX, 4); (DimY, 2); (DimZ, 3)]
             (VecDouble (repeat 0%float 24)).

(** [TEST(EventWorkspace, plus)]: an event list of [n] events holds
    [Data::Tof] and [Data::PulseTime] along [Dim::Event], value-initialised;
    [d] holds the event lists [e] and [e2] of 10 and 20 events. *)
Definition event_list (n : nat) : Dataset :=
  mkDataset [(Event, Z.of_nat n)]
    [mkVariable Data_Tof EmptyString Dimensionless [(Event, Z.of_nat n)]
                (VecDouble (repeat 0%float n));
     mkVariable Data_PulseTime EmptyString Dimensionless [(Event, Z.of_nat n)]
                (VecDouble (repeat 0%float n))].

Definition events_of (lists : list Dataset) : Variable_ :=
  mkVariable Data_Events EmptyString Dimensionless
             [(Spectrum, Z.of_nat (List.length lists))] (VecDataset lists).

Definition events_d : Dataset :=
  mkDataset [(Spectrum, 2)] [events_of [event_list 10; event_list 20]].

(** [TEST(EventWorkspace, basics)] with smaller extents: the bin edges of
    [Coord::Tof], two event lists, and histogrammed data. *)
Definition workspace_tof : Variable_ :=
  mkVariable Coord_Tof EmptyString Dimensionless [(Tof, 4)]
             (VecDouble [0; 1; 2; 3]%float).
Definition workspace_events : Variable_ := events_of [event_list 0; event_list 0].
Definition workspace_value : Variable_ :=
  mkVariable Data_Value EmptyString Dimensionless [(Tof, 3); (Spectrum, 2)]
             (VecDouble [0; 0; 0; 0; 0; 0]%float).
Definition workspace : Dataset :=
  mkDataset [(Spectrum, 2); (Tof, 3)]
            [workspace_tof; workspace_events; workspace_value].

(** Well-formedness of a concrete Variable, by evaluation. *)
Ltac solve_wf_dims :=
  split; [unfold distinct_labels; simpl; repeat constructor; simpl; intuition discriminate
         |unfold extents_nonneg; repeat constructor; simpl; lia].
Ltac solve_wf := constructor; [reflexivity|reflexivity|solve_wf_dims].
Ltac solve_valid_labels :=
  split; [unfold distinct_labels; simpl; repeat constructor; simpl; intuition discriminate
         |simpl; intuition discriminate].

(* ===================================================================== *)
(* ===================================================================== *)
(** * Proofs *)
(* ===================================================================== *)
(* ===================================================================== *)


(** ** Integer-indexed lists *)

Lemma zlookup_Some_range A (l : list A) i x :
  zlookup l i = Some x -> 0 <= i < Z.of_nat (List.length l).
Proof.
  unfold zlookup. destruct (i <? 0) eqn:E; [discriminate|].
  intros H. apply Z.ltb_ge in E.
  assert (Hn : (Z.to_nat i < List.length l)%nat) by (apply nth_error_Some; congruence).
  lia.
Qed.

Lemma zlookup_in_range A (l : list A) i :
  0 <= i < Z.of_nat (List.length l) -> exists x, zlookup l i = Some x.
Proof.
  intros H. unfold zlookup. destruct (i <? 0) eqn:E; [apply Z.ltb_lt in E; lia|].
  destruct (nth_error l (Z.to_nat i)) eqn:N; [eauto|].
  apply nth_error_None in N. lia.
Qed.

Lemma zlookup_of_nat A (l : list A) (n : nat) :
  zlookup l (Z.of_nat n) = nth_error l n.
Proof.
  unfold zlookup. destruct (Z.of_nat n <? 0) eqn:E; [apply Z.ltb_lt in E; lia|].
  now rewrite Nat2Z.id.
Qed.

Lemma zlookup_nat A (l : list A) i :
  0 <= i -> zlookup l i = nth_error l (Z.to_nat i).
Proof.
  intros H. unfold zlookup. destruct (i <? 0) eqn:E; [apply Z.ltb_lt in E; lia|reflexivity].
Qed.

Lemma zlookup_neg A (l : list A) i : i < 0 -> zlookup l i = None.
Proof. intros H. unfold zlookup. apply Z.ltb_lt in H. now rewrite H. Qed.

Lemma zlookup_app_l A (l1 l2 : list A) i :
  i < Z.of_nat (List.length l1) -> zlookup (l1 ++ l2) i = zlookup l1 i.
Proof.
  intros H. destruct (Z.ltb_spec i 0) as [Hn|Hn].
  - now rewrite !zlookup_neg.
  - rewrite !zlookup_nat by assumption. apply nth_error_app1. lia.
Qed.

Lemma zlookup_app_r A (l1 l2 : list A) i :
  Z.of_nat (List.length l1) <= i ->
  zlookup (l1 ++ l2) i = zlookup l2 (i - Z.of_nat (List.length l1)).
Proof.
  intros H. rewrite !zlookup_nat by lia.
  rewrite nth_error_app2 by lia. f_equal. lia.
Qed.

Lemma upd_nat_length A (l : list A) n x : List.length (upd_nat l n x) = List.length l.
Proof. revert n; induction l; intros [|n]; simpl; auto. Qed.

Lemma zupd_length A (l : list A) i x : List.length (zupd l i x) = List.length l.
Proof. unfold zupd. destruct (i <? 0); [reflexivity|apply upd_nat_length]. Qed.

Lemma upd_nat_app A (l1 l2 : list A) a x :
  upd_nat (l1 ++ a :: l2) (List.length l1) x = l1 ++ x :: l2.
Proof. induction l1; simpl; [reflexivity|now rewrite IHl1]. Qed.

Lemma zupd_app A (l1 l2 : list A) a x :
  zupd (l1 ++ a :: l2) (Z.of_nat (List.length l1)) x = l1 ++ x :: l2.
Proof.
  unfold zupd. destruct (Z.of_nat (List.length l1) <? 0) eqn:E.
  - apply Z.ltb_lt in E. lia.
  - rewrite Nat2Z.id. apply upd_nat_app.
Qed.

Lemma nth_error_upd_nat_eq A (l : list A) n x :
  (n < List.length l)%nat -> nth_error (upd_nat l n x) n = Some x.
Proof.
  revert n; induction l; intros [|n] H; simpl in *; try lia; auto.
  apply IHl. lia.
Qed.

Lemma nth_error_upd_nat_ne A (l : list A) n m x :
  n <> m -> nth_error (upd_nat l n x) m = nth_error l m.
Proof.
  revert n m; induction l; intros [|n] [|m] H; simpl; auto; try congruence.
Qed.

Lemma zlookup_zupd_eq A (l : list A) i x :
  0 <= i < Z.of_nat (List.length l) -> zlookup (zupd l i x) i = Some x.
Proof.
  intros H. rewrite zlookup_nat by lia. unfold zupd.
  destruct (i <? 0) eqn:E; [apply Z.ltb_lt in E; lia|].
  apply nth_error_upd_nat_eq. lia.
Qed.

Lemma zlookup_zupd_ne A (l : list A) i j x :
  i <> j -> zlookup (zupd l i x) j = zlookup l j.
Proof.
  intros H. unfold zupd. destruct (i <? 0) eqn:E; [reflexivity|].
  apply Z.ltb_ge in E.
  destruct (Z.ltb_spec j 0) as [Hj|Hj]; [now rewrite !zlookup_neg|].
  rewrite !zlookup_nat by assumption. apply nth_error_upd_nat_ne. lia.
Qed.

Lemma zseq_length n : List.length (zseq n) = Z.to_nat n.
Proof. unfold zseq. now rewrite length_map, length_seq. Qed.

Lemma zseq_nonpos n : n <= 0 -> zseq n = [].
Proof. intros H. unfold zseq. replace (Z.to_nat n) with 0%nat by lia. reflexivity. Qed.

Lemma zseq_succ n : 0 <= n -> zseq (n + 1) = zseq n ++ [n].
Proof.
  intros H. unfold zseq. replace (Z.to_nat (n + 1)) with (Z.to_nat n + 1)%nat by lia.
  rewrite seq_app, map_app. simpl. now rewrite Z2Nat.id.
Qed.

Lemma zseq_In n i : In i (zseq n) <-> 0 <= i < n.
Proof.
  unfold zseq. rewrite in_map_iff. split.
  - intros [k [<- Hk]]. apply in_seq in Hk. lia.
  - intros H. exists (Z.to_nat i). split; [lia|]. apply in_seq. lia.
Qed.

Lemma zlookup_zseq n i : 0 <= i < n -> zlookup (zseq n) i = Some i.
Proof.
  intros H. rewrite zlookup_nat by lia. unfold zseq.
  rewrite nth_error_map, nth_error_seq.
  destruct (Nat.ltb_spec (Z.to_nat i) (Z.to_nat n)); [|lia].
  simpl. f_equal. lia.
Qed.

Lemma span_positions_length b n : List.length (span_positions b n) = Z.to_nat n.
Proof. unfold span_positions. now rewrite length_map, zseq_length. Qed.

Lemma zlookup_span_positions b n i :
  0 <= i < n -> zlookup (span_positions b n) i = Some (b + i).
Proof.
  intros H. unfold span_positions. rewrite zlookup_nat by lia.
  rewrite nth_error_map. rewrite <- zlookup_nat by lia.
  now rewrite zlookup_zseq.
Qed.

Lemma span_positions_cons b n :
  0 < n -> span_positions b n = b :: span_positions (b + 1) (n - 1).
Proof.
  intros H. unfold span_positions, zseq.
  replace (Z.to_nat n) with (S (Z.to_nat (n - 1))) by lia.
  simpl. f_equal; [lia|].
  rewrite <- seq_shift, !map_map. apply map_ext. intros. lia.
Qed.


(** ** Dim and Dimensions *)

Lemma Dim_eqb_eq a b : Dim_eqb a b = true <-> a = b.
Proof. unfold Dim_eqb. destruct (Dim_eq_dec a b); split; congruence. Qed.

Lemma Dim_eqb_refl a : Dim_eqb a a = true.
Proof. now apply Dim_eqb_eq. Qed.

Lemma Dim_eqb_neq a b : Dim_eqb a b = false <-> a <> b.
Proof. unfold Dim_eqb. destruct (Dim_eq_dec a b); split; congruence. Qed.

Lemma dims_eqb_eq a b : Dims.dims_eqb a b = true <-> a = b.
Proof. unfold Dims.dims_eqb. destruct (list_eq_dec _ a b); split; congruence. Qed.

Lemma dims_eqb_refl a : Dims.dims_eqb a a = true.
Proof. now apply dims_eqb_eq. Qed.

Lemma dims_eqb_neq a b : Dims.dims_eqb a b = false <-> a <> b.
Proof. unfold Dims.dims_eqb. destruct (list_eq_dec _ a b); split; congruence. Qed.

Lemma contains_In d dim : Dims.contains d dim = true <-> In dim (Dims.labels d).
Proof.
  induction d as [|[l n] d IH]; simpl.
  - split; [discriminate|tauto].
  - destruct (Dim_eqb l dim) eqn:E.
    + apply Dim_eqb_eq in E. tauto.
    + apply Dim_eqb_neq in E. rewrite IH. tauto.
Qed.

Lemma contains_false d dim : Dims.contains d dim = false <-> ~ In dim (Dims.labels d).
Proof.
  rewrite <- contains_In. destruct (Dims.contains d dim); split; congruence.
Qed.

Lemma size_contains d dim :
  Dims.contains d dim = true -> exists n, Dims.size d dim = Ok n /\ In (dim, n) d.
Proof.
  induction d as [|[l n] d IH]; simpl; [discriminate|].
  destruct (Dim_eqb l dim) eqn:E.
  - apply Dim_eqb_eq in E. subst. eauto.
  - intros H. destruct (IH H) as [m [Hm Hin]]. eauto.
Qed.

Lemma size_not_contains d dim :
  Dims.contains d dim = false -> Dims.size d dim = Throw DimensionNotFoundError.
Proof.
  induction d as [|[l n] d IH]; simpl; [reflexivity|].
  destruct (Dim_eqb l dim); [discriminate|exact IH].
Qed.

Lemma size_Ok_contains d dim n : Dims.size d dim = Ok n -> Dims.contains d dim = true.
Proof.
  destruct (Dims.contains d dim) eqn:E; [reflexivity|].
  rewrite (size_not_contains _ _ E). discriminate.
Qed.

Lemma size_In d dim n :
  distinct_labels d -> In (dim, n) d -> Dims.size d dim = Ok n.
Proof.
  unfold distinct_labels. induction d as [|[l m] d IH]; simpl; [tauto|].
  intros Hnd [Heq|Hin].
  - inversion Heq; subst. now rewrite Dim_eqb_refl.
  - inversion Hnd; subst. destruct (Dim_eqb l dim) eqn:E.
    + apply Dim_eqb_eq in E. subst. exfalso. apply H1.
      change dim with (fst (dim, n)). now apply in_map.
    + auto.
Qed.

Lemma offset_contains d dim :
  Dims.contains d dim = true -> exists o, Dims.offset d dim = Ok o.
Proof.
  induction d as [|[l n] d IH]; simpl; [discriminate|].
  destruct (Dim_eqb l dim); eauto.
Qed.

Lemma offset_not_contains d dim :
  Dims.contains d dim = false -> Dims.offset d dim = Throw DimensionNotFoundError.
Proof.
  induction d as [|[l n] d IH]; simpl; [reflexivity|].
  destruct (Dim_eqb l dim); [discriminate|exact IH].
Qed.

Lemma stride_not_contains d dim : Dims.contains d dim = false -> stride d dim = 0.
Proof. intros H. unfold stride. now rewrite offset_not_contains. Qed.

Lemma stride_cons_eq l n d : stride ((l, n) :: d) l = Dims.volume d.
Proof. unfold stride. simpl. now rewrite Dim_eqb_refl. Qed.

Lemma stride_cons_ne l n d dim : l <> dim -> stride ((l, n) :: d) dim = stride d dim.
Proof.
  intros H. unfold stride. simpl. apply Dim_eqb_neq in H. now rewrite H.
Qed.

Lemma extents_nonneg_cons p d :
  extents_nonneg (p :: d) <-> 0 <= snd p /\ extents_nonneg d.
Proof. unfold extents_nonneg. split; [intros H; inversion H; auto|intros [? ?]; auto]. Qed.

Lemma distinct_labels_cons l n d :
  distinct_labels ((l, n) :: d) <-> ~ In l (Dims.labels d) /\ distinct_labels d.
Proof.
  unfold distinct_labels. simpl. split.
  - intros H. inversion H; auto.
  - intros [? ?]. now constructor.
Qed.

Lemma volume_nonneg d : extents_nonneg d -> 0 <= Dims.volume d.
Proof.
  induction d as [|[l n] d IH]; simpl; [lia|].
  intros H. apply extents_nonneg_cons in H. simpl in H. destruct H. 
  apply Z.mul_nonneg_nonneg; auto.
Qed.

Lemma in_range_cons l n d ix :
  in_range ((l, n) :: d) ix <-> 0 <= ix l < n /\ in_range d ix.
Proof. unfold in_range. split; [intros H; inversion H; auto|intros [? ?]; auto]. Qed.

Lemma in_range_nonneg d ix : in_range d ix -> extents_nonneg d.
Proof.
  unfold in_range, extents_nonneg. intros H. eapply Forall_impl; [|exact H].
  simpl. intros. lia.
Qed.

Lemma in_range_ext d ix ix' :
  (forall l, In l (Dims.labels d) -> ix l = ix' l) -> in_range d ix -> in_range d ix'.
Proof.
  unfold in_range. rewrite !Forall_forall. intros He H p Hp.
  rewrite <- He; [auto|]. now apply in_map.
Qed.

Lemma linear_ext d ix ix' :
  (forall l, In l (Dims.labels d) -> ix l = ix' l) -> linear d ix = linear d ix'.
Proof.
  induction d as [|[l n] d IH]; simpl; [reflexivity|].
  intros He. rewrite (He l) by auto. f_equal. apply IH. auto.
Qed.

Lemma linear_bounds d ix : in_range d ix -> 0 <= linear d ix < Dims.volume d.
Proof.
  induction d as [|[l n] d IH]; simpl; [lia|].
  intros H. apply in_range_cons in H. destruct H as [Hl Hd].
  specialize (IH Hd). nia.
Qed.

(** Every position of the buffer is the position of an index. *)
Lemma unravel d p :
  distinct_labels d -> extents_nonneg d -> 0 <= p < Dims.volume d ->
  exists ix, in_range d ix /\ linear d ix = p.
Proof.
  revert p. induction d as [|[l n] d IH]; simpl; intros p Hnd Hnn Hp.
  - exists (fun _ => 0). split; [constructor|lia].
  - apply distinct_labels_cons in Hnd. destruct Hnd as [Hl Hnd].
    apply extents_nonneg_cons in Hnn. simpl in Hnn. destruct Hnn as [Hn0 Hnn].
    pose proof (volume_nonneg Hnn) as Hv0.
    assert (Hv : 0 < Dims.volume d) by nia.
    assert (Hn : 0 < n) by nia.
    destruct (IH (p mod Dims.volume d) Hnd Hnn) as [ix [Hr Hlin]].
    { apply Z.mod_pos_bound. lia. }
    exists (with_index ix l (p / Dims.volume d)).
    assert (Hsame : forall l', In l' (Dims.labels d) ->
                               ix l' = with_index ix l (p / Dims.volume d) l').
    { intros l' Hin. unfold with_index. destruct (Dim_eqb l' l) eqn:E; [|reflexivity].
      apply Dim_eqb_eq in E. subst. contradiction. }
    split.
    + apply in_range_cons. split.
      * unfold with_index. rewrite Dim_eqb_refl. split.
        -- apply Z.div_pos; lia.
        -- apply Z.div_lt_upper_bound; lia.
      * eapply in_range_ext; eauto.
    + rewrite <- (@linear_ext d ix _ Hsame), Hlin.
      unfold with_index. rewrite Dim_eqb_refl.
      rewrite (Z.div_mod p (Dims.volume d)) at 3 by lia. lia.
Qed.

(** Two indices in range with the same position agree on every label. *)
Lemma linear_inj d ix ix' :
  in_range d ix -> in_range d ix' -> linear d ix = linear d ix' ->
  forall l, In l (Dims.labels d) -> ix l = ix' l.
Proof.
  induction d as [|[l n] d IH]; simpl; [tauto|].
  intros H H' He. apply in_range_cons in H, H'. destruct H as [Hl Hd], H' as [Hl' Hd'].
  pose proof (linear_bounds Hd) as B. pose proof (linear_bounds Hd') as B'.
  assert (Hq : ix l = ix' l) by nia.
  intros l' [<-|Hin]; [exact Hq|].
  apply IH; auto. rewrite Hq in He. lia.
Qed.

(** ** The positions of a view *)

Lemma flat_map_zseq_length A (f : Z -> list A) n v :
  0 <= n -> (forall i, 0 <= i < n -> Z.of_nat (List.length (f i)) = v) ->
  Z.of_nat (List.length (flat_map f (zseq n))) = n * v.
Proof.
  intros Hn. revert f. pattern n. apply natlike_ind; [| |exact Hn].
  - intros f _. reflexivity.
  - intros x Hx IH f Hf. unfold Z.succ. rewrite zseq_succ by assumption.
    rewrite flat_map_app, length_app. simpl. rewrite app_nil_r.
    rewrite Nat2Z.inj_add, IH by (intros; apply Hf; lia).
    rewrite Hf by lia. lia.
Qed.

Lemma zlookup_flat_map_zseq A (f : Z -> list A) n v i r :
  (forall i, 0 <= i < n -> Z.of_nat (List.length (f i)) = v) ->
  0 <= i < n -> 0 <= r < v ->
  zlookup (flat_map f (zseq n)) (i * v + r) = zlookup (f i) r.
Proof.
  intros Hf Hi Hr. assert (Hn : 0 <= n) by lia.
  revert f Hf i Hi. pattern n. apply natlike_ind; [| |exact Hn].
  - intros; lia.
  - intros x Hx IH f Hf i Hi. unfold Z.succ. rewrite zseq_succ by assumption.
    rewrite flat_map_app. simpl. rewrite app_nil_r.
    assert (Hlen : Z.of_nat (List.length (flat_map f (zseq x))) = x * v).
    { apply flat_map_zseq_length; [assumption|]. intros; apply Hf; lia. }
    destruct (Z.eq_dec i x) as [->|Hne].
    + rewrite zlookup_app_r by nia. f_equal. lia.
    + rewrite zlookup_app_l by nia. apply IH; [|lia]. intros; apply Hf; lia.
Qed.

Lemma offsets_length parent target base :
  extents_nonneg target ->
  Z.of_nat (List.length (offsets parent target base)) = Dims.volume target.
Proof.
  revert base. induction target as [|[d n] rest IH]; simpl; intros base H.
  - reflexivity.
  - apply extents_nonneg_cons in H. simpl in H. destruct H as [Hn Hr].
    apply flat_map_zseq_length; [assumption|]. intros. now apply IH.
Qed.

Lemma offsets_lookup parent target base ix :
  in_range target ix ->
  zlookup (offsets parent target base) (linear target ix)
  = Some (base + stride_sum parent target ix).
Proof.
  revert base. induction target as [|[d n] rest IH]; simpl; intros base H.
  - unfold zlookup. simpl. f_equal. lia.
  - apply in_range_cons in H. destruct H as [Hd Hr].
    rewrite zlookup_flat_map_zseq with (v := Dims.volume rest).
    + rewrite IH by assumption. f_equal. lia.
    + intros. apply offsets_length. eapply in_range_nonneg; eauto.
    + assumption.
    + now apply linear_bounds.
Qed.

Lemma stride_sum_zero target ix : stride_sum [] target ix = 0.
Proof. induction target as [|[d n] rest IH]; simpl; [reflexivity|]. rewrite IH. unfold stride. simpl. lia. Qed.

Lemma stride_sum_cons_absent l n parent target ix :
  ~ In l (Dims.labels target) ->
  stride_sum ((l, n) :: parent) target ix = stride_sum parent target ix.
Proof.
  induction target as [|[d m] rest IH]; simpl; [reflexivity|].
  intros H. rewrite IH by tauto. rewrite stride_cons_ne by intuition congruence.
  reflexivity.
Qed.

Lemma stride_sum_cons_present l n parent target ix :
  distinct_labels target -> In l (Dims.labels target) ->
  stride parent l = 0 ->
  stride_sum ((l, n) :: parent) target ix
  = ix l * Dims.volume parent + stride_sum parent target ix.
Proof.
  induction target as [|[d m] rest IH]; simpl; [tauto|].
  intros Hnd Hin H0. apply distinct_labels_cons in Hnd. destruct Hnd as [Hd Hnd].
  destruct (Dim_eq_dec d l) as [->|Hne].
  - rewrite stride_cons_eq, H0. rewrite stride_sum_cons_absent by assumption. lia.
  - rewrite stride_cons_ne by congruence. rewrite IH; [lia|assumption| |assumption].
    destruct Hin; [congruence|assumption].
Qed.

(** Reading a buffer laid out by [parent] through a view over [target]
    lands on the element of the same index, when every label of [parent]
    is one of [target]. *)
Lemma stride_sum_linear parent target ix :
  distinct_labels parent -> distinct_labels target ->
  incl (Dims.labels parent) (Dims.labels target) ->
  stride_sum parent target ix = linear parent ix.
Proof.
  induction parent as [|[l n] parent IH]; simpl; intros Hp Ht Hi.
  - apply stride_sum_zero.
  - apply distinct_labels_cons in Hp. destruct Hp as [Hl Hp].
    rewrite stride_sum_cons_present.
    + rewrite IH; auto. intros x Hx. apply Hi. now right.
    + assumption.
    + apply Hi. now left.
    + apply stride_not_contains. now apply contains_false.
Qed.

Lemma offsets_self d :
  distinct_labels d -> extents_nonneg d ->
  offsets d d 0 = span_positions 0 (Dims.volume d).
Proof.
  intros Hnd Hnn. 
  apply nth_error_ext. intros k.
  destruct (Nat.ltb_spec k (Z.to_nat (Dims.volume d))) as [Hk|Hk].
  - destruct (@unravel d (Z.of_nat k) Hnd Hnn) as [ix [Hr Hl]]; [lia|].
    rewrite <- !zlookup_of_nat, <- Hl.
    rewrite offsets_lookup by assumption.
    rewrite zlookup_span_positions by (now apply linear_bounds).
    rewrite stride_sum_linear; auto. apply incl_refl.
  - pose proof (@offsets_length d d 0 Hnn). pose proof (span_positions_length 0 (Dims.volume d)).
    rewrite (proj2 (nth_error_None (offsets d d 0) k)) by lia.
    rewrite (proj2 (nth_error_None (span_positions 0 (Dims.volume d)) k)) by lia. reflexivity.
Qed.


Lemma size_In_inv d dim n : Dims.size d dim = Ok n -> In (dim, n) d.
Proof.
  induction d as [|[l m] d IH]; simpl; [discriminate|].
  destruct (Dim_eqb l dim) eqn:E.
  - apply Dim_eqb_eq in E. intros H. inversion H. subst. now left.
  - intros H. right. auto.
Qed.

Lemma contains_dims_spec d other :
  Dims.contains_dims d other = true <->
  forall l n, In (l, n) other -> Dims.size d l = Ok n.
Proof.
  unfold Dims.contains_dims. rewrite forallb_forall. split.
  - intros H l n Hin. specialize (H _ Hin). simpl in H.
    destruct (Dims.size d l) as [m|e]; [|discriminate].
    apply andb_prop in H. destruct H as [H _]. apply Z.eqb_eq in H. now subst.
  - intros H [l n] Hin. simpl. rewrite (H _ _ Hin), Z.eqb_refl. simpl.
    eapply size_Ok_contains. eauto.
Qed.

Lemma contains_dims_incl d other :
  Dims.contains_dims d other = true -> incl other d.
Proof.
  intros H [l n] Hin. apply size_In_inv. eapply contains_dims_spec; eauto.
Qed.

Lemma contains_dims_labels d other :
  Dims.contains_dims d other = true -> incl (Dims.labels other) (Dims.labels d).
Proof.
  intros H l Hin. unfold Dims.labels in *. apply in_map_iff in Hin.
  destruct Hin as [[l' n] [<- Hin]]. apply in_map_iff. exists (l', n). split; [reflexivity|].
  eapply contains_dims_incl; eauto.
Qed.

Lemma in_range_incl d other ix :
  incl other d -> in_range d ix -> in_range other ix.
Proof.
  unfold in_range. rewrite !Forall_forall. intros Hi H p Hp. apply H, Hi, Hp.
Qed.

Lemma isContiguousIn_spec d parent :
  Dims.isContiguousIn d parent = true <-> exists pre, parent = pre ++ d.
Proof.
  induction parent as [|p parent IH]; simpl.
  - destruct (Dims.dims_eqb d []) eqn:E.
    + apply dims_eqb_eq in E. subst. split; [exists []; reflexivity|reflexivity].
    + apply dims_eqb_neq in E. split; [discriminate|].
      intros [pre H]. symmetry in H. apply app_eq_nil in H. tauto.
  - destruct (Dims.dims_eqb d (p :: parent)) eqn:E.
    + apply dims_eqb_eq in E. subst. split; [exists []; reflexivity|reflexivity].
    + apply dims_eqb_neq in E. rewrite IH. split.
      * intros [pre ->]. exists (p :: pre). reflexivity.
      * intros [[|q pre] H]; simpl in H; [congruence|].
        inversion H. eauto.
Qed.

(** Among Dimensions with distinct labels, one that holds every entry of
    another and is a suffix of it is that other. *)
Lemma contiguous_contains_eq a b :
  distinct_labels b -> Dims.isContiguousIn a b = true ->
  Dims.contains_dims a b = true -> a = b.
Proof.
  intros Hnd Hc Hi. apply isContiguousIn_spec in Hc. destruct Hc as [pre ->].
  destruct pre as [|[l n] pre]; [reflexivity|]. exfalso.
  apply contains_dims_incl in Hi.
  assert (Hin : In (l, n) a) by (apply Hi; now left).
  unfold distinct_labels, Dims.labels in Hnd. simpl in Hnd. inversion Hnd; subst.
  apply H1. rewrite map_app. apply in_or_app. right.
  change l with (fst (l, n)). now apply in_map.
Qed.

(** ** [std::transform] on a buffer of its own *)

Section Transform.

Variable A : Type.
Variable op : A -> A -> A.

Lemma transform_span_from (todo : list A) : forall (done src : list A) (rd : list Z),
  List.length rd = List.length todo ->
  (forall r, In r rd -> 0 <= r < Z.of_nat (List.length src)) ->
  exists todo',
    transform op (done ++ todo) (Some src)
              (span_positions (Z.of_nat (List.length done))
                              (Z.of_nat (List.length todo))) rd
    = Ok (done ++ todo')
    /\ List.length todo' = List.length todo
    /\ forall k x r y, nth_error todo k = Some x -> nth_error rd k = Some r ->
                       zlookup src r = Some y ->
                       nth_error todo' k = Some (op x y).
Proof.
  induction todo as [|x todo IH]; intros done src rd Hlen Hrd.
  - exists []. destruct rd; [|discriminate]. simpl. repeat split.
    intros [|k]; discriminate.
  - destruct rd as [|r rd]; [discriminate|].
    destruct (@zlookup_in_range _ src r) as [y Hy]; [apply Hrd; now left|].
    rewrite span_positions_cons by (cbn [List.length]; lia).
    replace (Z.of_nat (List.length (x :: todo)) - 1)
      with (Z.of_nat (List.length todo)) by (cbn [List.length]; lia).
    replace (Z.of_nat (List.length done) + 1)
      with (Z.of_nat (List.length (done ++ [op x y])))
      by (rewrite length_app; cbn [List.length]; lia).
    cbn [transform].
    rewrite zlookup_app_r by lia.
    replace (Z.of_nat (List.length done) - Z.of_nat (List.length done)) with 0 by lia.
    unfold zlookup at 1. cbn [Z.ltb Z.compare Z.to_nat nth_error].
    rewrite Hy, zupd_app.
    replace (done ++ op x y :: todo) with ((done ++ [op x y]) ++ todo)
      by (now rewrite <- app_assoc).
    destruct (IH (done ++ [op x y]) src rd) as [todo' [Ht [Hl Hk]]].
    + simpl in Hlen. lia.
    + intros. apply Hrd. now right.
    + exists (op x y :: todo').
      rewrite Ht, <- app_assoc. simpl. repeat split; [lia|].
      intros [|k] x' r' y' Hx Hr Hy'; simpl in *.
      * inversion Hx; inversion Hr; subst. congruence.
      * eauto.
Qed.

Lemma transform_span (buf src : list A) (rd : list Z) :
  List.length rd = List.length buf ->
  (forall r, In r rd -> 0 <= r < Z.of_nat (List.length src)) ->
  exists buf',
    transform op buf (Some src) (span_positions 0 (Z.of_nat (List.length buf))) rd
    = Ok buf'
    /\ List.length buf' = List.length buf
    /\ forall p x r y, zlookup buf p = Some x -> zlookup rd p = Some r ->
                       zlookup src r = Some y ->
                       zlookup buf' p = Some (op x y).
Proof.
  intros Hlen Hrd.
  destruct (transform_span_from buf [] src rd Hlen Hrd) as [buf' [Ht [Hl Hk]]].
  exists buf'. simpl in Ht. repeat split; auto.
  intros p x r y Hx Hr Hy.
  pose proof (zlookup_Some_range _ _ Hx) as Hp.
  rewrite zlookup_nat in * by lia. eauto.
Qed.

End Transform.


(** ** Reading a Variable through the dimensions of another *)

(** The positions at which [VariableModel::apply] reads an owning
    right-hand side with dimensions [db] when [*this] has dimensions [da]
    are, in both branches, the positions of the view of [db] over [da]. *)
Lemma apply_positions_owning (da db : Dimensions) (na nb : Z) :
  wf_dims da -> wf_dims db ->
  Dims.contains_dims da db = true ->
  nb = Dims.volume db ->
  apply_positions (mkGeometry da None) na (mkGeometry db None) nb
  = (span_positions 0 na, offsets db da 0).
Proof.
  intros [Hda Hna] [Hdb Hnb] Hc ->. unfold apply_positions. simpl.
  unfold getSpan. simpl. f_equal.
  destruct (Dims.isContiguousIn da db) eqn:E; [|reflexivity].
  assert (da = db) by (now apply contiguous_contains_eq). subst.
  symmetry. now apply offsets_self.
Qed.

Lemma broadcast_positions (da db : Dimensions) :
  wf_dims da -> wf_dims db -> Dims.contains_dims da db = true ->
  Z.of_nat (List.length (offsets db da 0)) = Dims.volume da
  /\ (forall ix, in_range da ix ->
        in_range db ix
        /\ zlookup (offsets db da 0) (linear da ix) = Some (linear db ix))
  /\ (forall r, In r (offsets db da 0) -> 0 <= r < Dims.volume db).
Proof.
  intros [Hda Hna] [Hdb Hnb] Hc.
  assert (Hlen : Z.of_nat (List.length (offsets db da 0)) = Dims.volume da)
    by (now apply offsets_length).
  assert (Hix : forall ix, in_range da ix ->
        in_range db ix
        /\ zlookup (offsets db da 0) (linear da ix) = Some (linear db ix)).
  { intros ix Hr. split.
    - eapply in_range_incl; [|exact Hr]. now apply contains_dims_incl.
    - rewrite offsets_lookup by assumption. f_equal.
      rewrite stride_sum_linear; auto. now apply contains_dims_labels. }
  split; [exact Hlen|]. split; [exact Hix|].
  intros r Hin.
  apply In_nth_error in Hin. destruct Hin as [k Hk].
  assert (Hk' : (k < List.length (offsets db da 0))%nat)
    by (apply nth_error_Some; congruence).
  destruct (@unravel da (Z.of_nat k) Hda Hna) as [ix [Hr Hl]]; [lia|].
  destruct (Hix ix Hr) as [Hrb Hz].
  rewrite Hl, zlookup_of_nat, Hk in Hz. inversion Hz; subst.
  apply (linear_bounds Hrb).
Qed.

Lemma not_events_of_double (a : Variable_) la :
  wf_variable a -> m_model a = VecDouble la -> valueTypeIs a Data_Events = false.
Proof.
  intros [Ht _ _] Hm. rewrite Hm in Ht. simpl in Ht.
  unfold valueTypeIs, Tag_eqb. destruct (m_type a); simpl in *; try reflexivity; discriminate.
Qed.

Lemma Unit_eqb_refl u : Unit_eqb u u = true.
Proof. now destruct u. Qed.

Lemma Unit_eqb_eq u v : Unit_eqb u v = true <-> u = v.
Proof. destruct u, v; simpl; split; congruence. Qed.

(** Two buffers of the volume of [d] that agree at the position of every
    index are equal. *)
Lemma buffer_ext A (d : Dimensions) (l1 l2 : list A) :
  wf_dims d ->
  Z.of_nat (List.length l1) = Dims.volume d ->
  Z.of_nat (List.length l2) = Dims.volume d ->
  (forall ix, in_range d ix -> zlookup l1 (linear d ix) = zlookup l2 (linear d ix)) ->
  l1 = l2.
Proof.
  intros [Hd Hn] H1 H2 H. apply nth_error_ext. intros k.
  destruct (Nat.ltb_spec k (List.length l1)) as [Hk|Hk].
  - destruct (@unravel d (Z.of_nat k) Hd Hn) as [ix [Hr Hl]]; [lia|].
    specialize (H ix Hr). now rewrite Hl, !zlookup_of_nat in H.
  - rewrite (proj2 (nth_error_None l1 k)) by lia.
    rewrite (proj2 (nth_error_None l2 k)) by lia. reflexivity.
Qed.

(** The sum of two double Variables, element by element of the left-hand
    side. *)
Lemma plus_equal_elements (a b : Variable_) (la lb : list float) :
  wf_variable a -> wf_variable b ->
  m_model a = VecDouble la -> m_model b = VecDouble lb ->
  m_unit a = m_unit b ->
  Dims.contains_dims (dimensions a) (dimensions b) = true ->
  exists la',
    plus_equal a (operand b) = (set_model a (VecDouble la'), None)
    /\ List.length la' = List.length la
    /\ forall ix, in_range (dimensions a) ix ->
         exists x y,
           zlookup la (linear (dimensions a) ix) = Some x
           /\ zlookup lb (linear (dimensions b) ix) = Some y
           /\ zlookup la' (linear (dimensions a) ix) = Some (PrimFloat.add x y).
Proof.
  intros Ha Hb Hma Hmb Hu Hc.
  pose proof (not_events_of_double Ha Hma) as Hev.
  destruct Ha as [_ Hsa Hda], Hb as [_ Hsb Hdb].
  rewrite Hma in Hsa. rewrite Hmb in Hsb. simpl in Hsa, Hsb.
  destruct (broadcast_positions Hda Hdb Hc) as [Hlen [Hix Hrd]].
  destruct (@transform_span _ (double_op plus) la lb (offsets (dimensions b) (dimensions a) 0))
    as [la' [Ht [Hl Hp]]].
  { lia. }
  { intros r Hr. specialize (Hrd r Hr). lia. }
  exists la'. split; [|split; [exact Hl|]].
  - unfold plus_equal. rewrite Hu, Unit_eqb_refl, Hev. simpl.
    change (g_dims (geometry b)) with (dimensions b). rewrite Hc.
    unfold object_apply, Vector_apply. rewrite Hma. simpl.
    rewrite Hmb. simpl. unfold apply_elements, geometry.
    rewrite apply_positions_owning by (auto; lia).
    now rewrite Ht.
  - intros ix Hr. destruct (Hix ix Hr) as [Hrb Hz].
    destruct (@zlookup_in_range _ la (linear (dimensions a) ix)) as [x Hx].
    { pose proof (linear_bounds Hr). lia. }
    destruct (@zlookup_in_range _ lb (linear (dimensions b) ix)) as [y Hy].
    { pose proof (linear_bounds Hrb). lia. }
    exists x, y. repeat split; auto. eapply Hp; eauto.
Qed.


Lemma contains_dims_refl d : distinct_labels d -> Dims.contains_dims d d = true.
Proof.
  intros H. apply contains_dims_spec. intros l n Hin. now apply size_In.
Qed.

Lemma zlookup_map A B (f : A -> B) (l : list A) i :
  zlookup (map f l) i = option_map f (zlookup l i).
Proof.
  unfold zlookup. destruct (i <? 0); [reflexivity|]. apply nth_error_map.
Qed.

(** C3.  For two double Variables [a] and [b] with equal units: when the
    dimensions of [a] contain those of [b], [a += b] returns, keeps the
    tag, name, unit and dimensions of [a], and the element of the result
    at an index is the sum of the element of [a] at that index and of the
    element of [b] at the same index read by label (labels that [b] lacks
    do not matter, labels in another order are followed); a rank-0 [b]
    adds its one element everywhere; a [b] stored in another order of the
    labels gives the result of the [b'] that stores the same elements in
    the order of [a].  When the dimensions of [a] do not contain those of
    [b], the operator throws and leaves [a] as it was. *)
Theorem plus_equal_broadcast_transpose (a b : Variable_) (la lb : list float) :
  wf_variable a -> wf_variable b ->
  m_model a = VecDouble la -> m_model b = VecDouble lb ->
  m_unit a = m_unit b ->
  (Dims.contains_dims (dimensions a) (dimensions b) = true ->
   exists la',
     plus_equal a (operand b) = (set_model a (VecDouble la'), None)
     /\ List.length la' = List.length la
     /\ (forall ix, in_range (dimensions a) ix ->
           exists x y,
             zlookup la (linear (dimensions a) ix) = Some x
             /\ zlookup lb (linear (dimensions b) ix) = Some y
             /\ zlookup la' (linear (dimensions a) ix) = Some (PrimFloat.add x y))
     /\ (dimensions b = [] ->
           exists s, lb = [s] /\ la' = map (fun x => PrimFloat.add x s) la)
     /\ (forall (b' : Variable_) (lb' : list float),
           wf_variable b' -> m_model b' = VecDouble lb' ->
           m_unit b' = m_unit b -> dimensions b' = dimensions a ->
           (forall ix, in_range (dimensions a) ix ->
                       zlookup lb' (linear (dimensions a) ix)
                       = zlookup lb (linear (dimensions b) ix)) ->
           plus_equal a (operand b') = plus_equal a (operand b)))
  /\ (Dims.contains_dims (dimensions a) (dimensions b) = false ->
      plus_equal a (operand b)
      = (a, Some (runtime_error "Cannot add Variables: Dimensions do not match."))).
Proof.
  intros Ha Hb Hma Hmb Hu. split.
  - intros Hc.
    destruct (plus_equal_elements Ha Hb Hma Hmb Hu Hc) as [la' [He [Hl Hp]]].
    exists la'. split; [exact He|]. split; [exact Hl|]. split; [exact Hp|].
    pose proof (wf_size Ha) as Hsa. pose proof (wf_dimensions Ha) as Hda.
    rewrite Hma in Hsa. simpl in Hsa.
    split.
    + intros Hb0. pose proof (wf_size Hb) as Hsb. rewrite Hmb, Hb0 in Hsb. simpl in Hsb.
      destruct lb as [|s [|s' lb]]; simpl in Hsb; try lia.
      exists s. split; [reflexivity|].
      apply (@buffer_ext _ (dimensions a)); auto.
      * lia.
      * rewrite length_map. lia.
      * intros ix Hr. destruct (Hp ix Hr) as [x [y [Hx [Hy Hz]]]].
        rewrite Hb0 in Hy. simpl in Hy. unfold zlookup in Hy. simpl in Hy.
        inversion Hy; subst. rewrite Hz, zlookup_map, Hx. reflexivity.
    + intros b' lb' Hb' Hmb' Hu' Hd' Hsame.
      assert (Hc' : Dims.contains_dims (dimensions a) (dimensions b') = true).
      { rewrite Hd'. apply contains_dims_refl. apply Hda. }
      destruct (@plus_equal_elements a b' la lb' Ha Hb' Hma Hmb') as [la'' [He' [Hl' Hp']]];
        [congruence|exact Hc'|].
      rewrite He, He'. do 3 f_equal.
      apply (@buffer_ext _ (dimensions a)); auto; try lia.
      intros ix Hr. destruct (Hp ix Hr) as [x [y [Hx [Hy Hz]]]].
      destruct (Hp' ix Hr) as [x' [y' [Hx' [Hy' Hz']]]].
      rewrite Hd', Hsame in Hy' by assumption.
      rewrite Hz, Hz'. congruence.
  - intros Hc. unfold plus_equal.
    rewrite Hu, Unit_eqb_refl, (not_events_of_double Ha Hma). simpl.
    change (g_dims (geometry b)) with (dimensions b). now rewrite Hc.
Qed.

Lemma plus_equal_broadcast_transpose_witness :
  wf_variable transpose_lhs /\ wf_variable transpose_rhs
  /\ m_unit transpose_lhs = m_unit transpose_rhs
  /\ Dims.contains_dims (dimensions transpose_lhs) (dimensions transpose_rhs) = true
  /\ exists la',
       plus_equal transpose_lhs (operand transpose_rhs)
       = (set_model transpose_lhs (VecDouble la'), None)
       /\ List.length la' = 6%nat.
Proof.
  assert (Ha : wf_variable transpose_lhs) by solve_wf.
  assert (Hb : wf_variable transpose_rhs) by solve_wf.
  split; [exact Ha|]. split; [exact Hb|]. split; [reflexivity|]. split; [reflexivity|].
  destruct (@plus_equal_broadcast_transpose transpose_lhs transpose_rhs
              [1; 2; 3; 4; 5; 6]%float [1; 3; 5; 2; 4; 6]%float
              Ha Hb eq_refl eq_refl eq_refl) as [H _].
  destruct (H eq_refl) as [la' [He [Hl _]]].
  exists la'. split; [exact He|exact Hl].
Defined.

(** C6.  On [var] of shape [{Y:2, X:2}] with the values [1, 2, 3, 4],
    [var -= var(Dim::Y, 0)] reads the right-hand side through a view of the
    buffer it is writing: the first slab becomes zero, and the second slab
    then has the zeros subtracted, which gives [0, 0, 3, 4].  With the
    right-hand side taken from a Variable with a buffer of its own the
    result is [0, 0, 2, 2]. *)
Theorem self_overlapping_view_operation_broken :
  (do o <- slice_of_itself overlap_var DimY 0 (-1); Ok (minus_equal overlap_var o))
  = Ok (set_model overlap_var (VecDouble [0; 0; 3; 4]%float), None)
  /\ (do o <- slice_of overlap_var DimY 0 (-1); Ok (minus_equal overlap_var o))
     = Ok (set_model overlap_var (VecDouble [0; 0; 2; 2]%float), None).
Proof. split; reflexivity. Qed.


(** ** The constructor of Dimensions *)

Lemma fill_Ok dims r :
  Dims.fill dims = Ok r ->
  r = dims /\ Forall (fun p : Dim * Z => fst p <> Invalid /\ 0 <= snd p) dims.
Proof.
  revert r. induction dims as [|[d n] dims IH]; simpl; intros r H.
  - inversion H. auto.
  - destruct (Dim_eqb d Invalid) eqn:Ed; [discriminate|].
    destruct (n <? 0) eqn:En; [discriminate|].
    destruct (Dims.fill dims) as [r'|e]; simpl in H; [|discriminate].
    inversion H; subst. destruct (IH r' eq_refl) as [-> Hf]. split; [reflexivity|].
    constructor; [|exact Hf]. simpl. apply Dim_eqb_neq in Ed. apply Z.ltb_ge in En. auto.
Qed.

Lemma fill_valid dims :
  Forall (fun p : Dim * Z => fst p <> Invalid /\ 0 <= snd p) dims ->
  Dims.fill dims = Ok dims.
Proof.
  induction 1 as [|[d n] dims [Hd Hn] _ IH]; simpl in *; [reflexivity|].
  apply Dim_eqb_neq in Hd. rewrite Hd.
  destruct (Z.ltb_spec n 0); [lia|]. now rewrite IH.
Qed.

(** The constructor succeeds exactly on the lists of at most six entries
    with no [Dim::Invalid] and no negative extent; it stores the list as it
    is. *)
Lemma make_succeeds_iff dims :
  Dims.make dims = Ok dims
  <-> (List.length dims <= 6)%nat
      /\ Forall (fun p : Dim * Z => fst p <> Invalid /\ 0 <= snd p) dims.
Proof.
  unfold Dims.make. destruct (Z.ltb_spec 6 (Z.of_nat (List.length dims))).
  - split; [discriminate|]. intros [? _]. lia.
  - split.
    + intros H'. split; [lia|]. now apply fill_Ok in H'.
    + intros [_ Hf]. now apply fill_valid.
Qed.

(** C8.  The constructor of [Dimensions] does not compare the labels of
    its argument with one another: the list [{X, 1}, {X, 2}] is accepted,
    and the value built holds the label [X] twice. *)
Theorem make_accepts_duplicate_labels :
  Dims.make [(DimX, 1); (DimX, 2)] = Ok [(DimX, 1); (DimX, 2)]
  /\ ~ distinct_labels [(DimX, 1); (DimX, 2)].
Proof.
  split; [reflexivity|].
  unfold distinct_labels. simpl. intros H. inversion H; subst.
  apply H2. now left.
Qed.

(** ** ValueWithDelta *)

Lemma ltb_abs_zero (x : float) : PrimFloat.ltb (PrimFloat.abs x) 0%float = false.
Proof.
  rewrite ltb_spec, abs_spec.
  change (Prim2SF 0%float) with (S754_zero false).
  destruct (Prim2SF x) as [s|s| |s m e]; reflexivity.
Qed.

(** C10.  [ValueWithDelta::operator==] holds exactly when the absolute
    difference of the values is below the larger delta; a value whose delta
    is zero, the default-constructed one among them, is not equal to
    itself; there are [a], [b], [c] with [a == b], [b == c] and not
    [a == c]; so the comparison of two Variables of such elements calls a
    Variable different from itself, and two Variables with different
    elements equal. *)
Theorem ValueWithDelta_eq_fuzzy :
  (forall a b,
      ValueWithDelta_eq a b
      = PrimFloat.ltb (PrimFloat.abs (PrimFloat.sub (m_value a) (m_value b)))
                      (std_max (m_delta a) (m_delta b)))
  /\ (forall v, ValueWithDelta_eq (mkValueWithDelta v 0%float)
                                  (mkValueWithDelta v 0%float) = false)
  /\ ValueWithDelta_eq ValueWithDelta_default ValueWithDelta_default = false
  /\ (ValueWithDelta_eq fuzzy_a fuzzy_b = true
      /\ ValueWithDelta_eq fuzzy_b fuzzy_c = true
      /\ ValueWithDelta_eq fuzzy_a fuzzy_c = false)
  /\ Variable_equals (fuzzy_variable ValueWithDelta_default)
                     (fuzzy_variable ValueWithDelta_default) = false
  /\ (Variable_equals (fuzzy_variable fuzzy_a) (fuzzy_variable fuzzy_b) = true
      /\ fuzzy_variable fuzzy_a <> fuzzy_variable fuzzy_b).
Proof.
  split; [reflexivity|]. split.
  { intros v. unfold ValueWithDelta_eq. simpl.
    change (std_max 0 0) with 0%float. apply ltb_abs_zero. }
  split; [reflexivity|]. split; [repeat split; reflexivity|].
  split; [reflexivity|]. split; [reflexivity|].
  intros H. assert (E : m_model (fuzzy_variable fuzzy_a) = m_model (fuzzy_variable fuzzy_b))
    by (now rewrite H).
  simpl in E. inversion E.
Qed.

(** ** Failing operators *)

Lemma object_apply_failure op (this : Variable_) other r e :
  object_apply op this other = (r, Some e) -> r = this.
Proof.
  unfold object_apply. destruct (Vector_apply _ _ _ _ _); intros H; inversion H; reflexivity.
Qed.

(** A failing [+=] on a Variable that holds no event lists, and a failing
    [-=], leave the left-hand side as it was. *)
Lemma plus_equal_failure_keeps_state (this : Variable_) other r e :
  valueTypeIs this Data_Events = false ->
  plus_equal this other = (r, Some e) -> r = this.
Proof.
  intros Hev. unfold plus_equal. rewrite Hev. simpl.
  destruct (negb (Unit_eqb (m_unit this) (o_unit other))); [intros H; now inversion H|].
  destruct (Dims.contains_dims _ _); [apply object_apply_failure|intros H; now inversion H].
Qed.

Lemma minus_equal_failure_keeps_state (this : Variable_) other r e :
  minus_equal this other = (r, Some e) -> r = this.
Proof.
  unfold minus_equal.
  destruct (negb (Unit_eqb (m_unit this) (o_unit other))); [intros H; now inversion H|].
  destruct (Dims.contains_dims _ _); [|intros H; now inversion H].
  destruct (valueTypeIs this Data_Events); [intros H; now inversion H|].
  apply object_apply_failure.
Qed.

(** C4.  [operator*=] assigns the product of the units before it
    multiplies the elements: with a [double] left-hand side of unit
    [Length] and an [int64_t] right-hand side of unit [Length] the
    multiplication of the elements throws, and the left-hand side is left
    with the unit [Area]. *)
Theorem times_equal_failure_replaces_unit :
  m_unit times_lhs = Length
  /\ times_equal times_lhs (operand times_rhs)
     = (set_unit times_lhs Area, Some mismatch)
  /\ m_unit (fst (times_equal times_lhs (operand times_rhs))) <> m_unit times_lhs.
Proof. repeat split; try reflexivity. simpl. discriminate. Qed.

(** C1.  [rebin] starts from a copy of [var] and replaces its data only
    when the number of bins changes; [rebinInner] then adds to what the
    buffer holds.  Rebinning the values [1, 2] from the edges [1, 2, 3] to
    the same edges gives [2, 4], not [1, 2]; with the new edges [1, 3] the
    buffer is fresh and the result is [3]. *)
Theorem rebin_same_size_adds_to_copy :
  rebin rebin_var rebin_oldEdge rebin_oldEdge
  = Ok (set_model rebin_var (VecDouble [2; 4]%float))
  /\ rebin rebin_var rebin_oldEdge rebin_newEdge
     = Ok (set_object rebin_var [(DimX, 1)] (VecDouble [3]%float)).
Proof. split; reflexivity. Qed.


(** ** [std::copy] between two buffers *)

Lemma copy_elements_spec A (src : list A) : forall (rd wr : list Z) (buf : list A),
  List.length rd = List.length wr -> NoDup wr ->
  (forall w, In w wr -> 0 <= w < Z.of_nat (List.length buf)) ->
  (forall r, In r rd -> 0 <= r < Z.of_nat (List.length src)) ->
  exists buf',
    copy_elements buf src rd wr = Ok buf'
    /\ List.length buf' = List.length buf
    /\ (forall k w r, nth_error wr k = Some w -> nth_error rd k = Some r ->
                      zlookup buf' w = zlookup src r)
    /\ (forall p, ~ In p wr -> zlookup buf' p = zlookup buf p).
Proof.
  induction rd as [|r rd IH]; intros wr buf Hlen Hnd Hwr Hrd.
  - destruct wr; [|discriminate]. exists buf. simpl. repeat split; auto.
    intros [|k]; discriminate.
  - destruct wr as [|w wr]; [discriminate|]. simpl.
    destruct (@zlookup_in_range _ src r) as [x Hx]; [apply Hrd; now left|].
    destruct (@zlookup_in_range _ buf w) as [y Hy]; [apply Hwr; now left|].
    rewrite Hx, Hy. inversion Hnd as [|? ? Hw Hnd']; subst.
    destruct (IH wr (zupd buf w x)) as [buf' [Hc [Hl [Hk Hp]]]]; auto.
    + intros w' Hin. rewrite zupd_length. apply Hwr. now right.
    + intros r' Hin. apply Hrd. now right.
    + exists buf'. split; [exact Hc|]. split; [now rewrite Hl, zupd_length|]. split.
      * intros [|k] w' r' Hw' Hr'; simpl in *.
        -- inversion Hw'; inversion Hr'; subst.
           rewrite Hp by assumption. rewrite zlookup_zupd_eq; [congruence|].
           apply Hwr. now left.
        -- eauto.
      * intros p Hnin. rewrite Hp by (intros Hin; apply Hnin; now right).
        apply zlookup_zupd_ne. intros ->. apply Hnin. now left.
Qed.

(** ** [resize], [add] and indices *)

Lemma resize_spec d dim n :
  Dims.contains d dim = true ->
  exists d', Dims.resize d dim n = Ok d'
             /\ Dims.labels d' = Dims.labels d
             /\ Dims.size d' dim = Ok n
             /\ (forall l, l <> dim -> Dims.size d' l = Dims.size d l)
             /\ List.length d' = List.length d.
Proof.
  induction d as [|[l m] d IH]; simpl; [discriminate|].
  destruct (Dim_eqb l dim) eqn:E.
  - intros _. apply Dim_eqb_eq in E. subst. exists ((dim, n) :: d). simpl.
    rewrite Dim_eqb_refl. repeat split; auto.
    intros l Hl. apply not_eq_sym in Hl. apply Dim_eqb_neq in Hl. now rewrite Hl.
  - intros H. destruct (IH H) as [d' [Hr [Hl [Hs [Ho Hn]]]]].
    rewrite Hr. simpl. exists ((l, m) :: d'). simpl. rewrite E.
    repeat split; auto; try congruence.
    intros l' Hl'. destruct (Dim_eqb l l'); auto.
Qed.

Lemma resize_not_contains d dim n :
  Dims.contains d dim = false -> Dims.resize d dim n = Throw DimensionNotFoundError.
Proof.
  induction d as [|[l m] d IH]; simpl; [reflexivity|].
  destruct (Dim_eqb l dim); [discriminate|]. intros H. now rewrite IH.
Qed.

Lemma size_Ok_In_labels d l n : Dims.size d l = Ok n -> In l (Dims.labels d).
Proof. intros H. apply contains_In. eapply size_Ok_contains; eauto. Qed.

Lemma In_size d l n : distinct_labels d -> (In (l, n) d <-> Dims.size d l = Ok n).
Proof. intros H. split; [now apply size_In|apply size_In_inv]. Qed.

Lemma in_range_size d ix :
  distinct_labels d ->
  (in_range d ix <-> forall l n, Dims.size d l = Ok n -> 0 <= ix l < n).
Proof.
  intros Hd. unfold in_range. rewrite Forall_forall. split.
  - intros H l n Hs. apply (H (l, n)). now apply size_In_inv.
  - intros H [l n] Hin. simpl. apply H. now apply size_In.
Qed.

Lemma extents_nonneg_size d :
  distinct_labels d ->
  (extents_nonneg d <-> forall l n, Dims.size d l = Ok n -> 0 <= n).
Proof.
  intros Hd. unfold extents_nonneg. rewrite Forall_forall. split.
  - intros H l n Hs. apply (H (l, n)). now apply size_In_inv.
  - intros H [l n] Hin. simpl. eapply H. apply size_In; eauto.
Qed.


Lemma resize_wf d d' dim n :
  wf_dims d -> 0 <= n -> Dims.resize d dim n = Ok d' -> wf_dims d'.
Proof.
  intros [Hd Hn] Hn0 Hr.
  destruct (Dims.contains d dim) eqn:E; [|rewrite resize_not_contains in Hr by assumption; discriminate].
  destruct (@resize_spec d dim n E) as [d2 [Hr2 [Hl [Hs [Ho _]]]]].
  rewrite Hr in Hr2. inversion Hr2; subst d2.
  assert (Hd' : distinct_labels d') by (unfold distinct_labels; now rewrite Hl).
  split; [exact Hd'|]. apply extents_nonneg_size; [exact Hd'|].
  intros l m Hm. destruct (Dim_eq_dec l dim) as [->|Hne].
  - rewrite Hs in Hm. inversion Hm. lia.
  - rewrite Ho in Hm by assumption.
    exact (proj1 (@extents_nonneg_size d Hd) Hn l m Hm).
Qed.

Lemma stride_offset d dim :
  Dims.contains d dim = true -> Dims.offset d dim = Ok (stride d dim).
Proof.
  intros H. unfold stride. destruct (offset_contains _ _ H) as [o Ho]. now rewrite Ho.
Qed.

(** Moving one index moves the position by the stride of its label. *)
Lemma linear_with_index d ix dim j :
  distinct_labels d ->
  linear d (with_index ix dim j) = linear d ix + (j - ix dim) * stride d dim.
Proof.
  induction d as [|[l n] d IH]; simpl; intros Hd.
  - unfold stride. simpl. lia.
  - apply distinct_labels_cons in Hd. destruct Hd as [Hl Hd].
    destruct (Dim_eq_dec l dim) as [->|Hne].
    + rewrite stride_cons_eq. unfold with_index at 1. rewrite Dim_eqb_refl.
      rewrite (@linear_ext d (with_index ix dim j) ix); [lia|].
      intros l Hin. unfold with_index. destruct (Dim_eqb l dim) eqn:E; [|reflexivity].
      apply Dim_eqb_eq in E. subst. contradiction.
    + rewrite stride_cons_ne by assumption. rewrite IH by assumption.
      unfold with_index at 1. apply Dim_eqb_neq in Hne. rewrite Hne. lia.
Qed.

Lemma with_index_same ix dim j : with_index ix dim j dim = j.
Proof. unfold with_index. now rewrite Dim_eqb_refl. Qed.

Lemma with_index_other ix dim j l : l <> dim -> with_index ix dim j l = ix l.
Proof. intros H. unfold with_index. apply Dim_eqb_neq in H. now rewrite H. Qed.

Lemma isContiguousIn_same_length a b :
  Dims.isContiguousIn a b = true -> List.length a = List.length b -> a = b.
Proof.
  intros H Hl. apply isContiguousIn_spec in H. destruct H as [pre ->].
  rewrite length_app in Hl. destruct pre; [reflexivity|simpl in Hl; lia].
Qed.

Lemma labels_length d : List.length (Dims.labels d) = List.length d.
Proof. apply length_map. Qed.

Lemma size_labels_incl a b :
  (forall l n, Dims.size a l = Ok n -> exists m, Dims.size b l = Ok m) ->
  incl (Dims.labels a) (Dims.labels b).
Proof.
  intros H l Hin. apply contains_In in Hin.
  destruct (size_contains _ _ Hin) as [n [Hn _]].
  destruct (H _ _ Hn) as [m Hm]. eapply size_Ok_In_labels; eauto.
Qed.


(** ** The positions of a view that starts at a slab *)

Lemma shifted_view (P T : Dimensions) dim c jx :
  distinct_labels P -> distinct_labels T ->
  incl (Dims.labels P) (Dims.labels T) ->
  in_range T jx ->
  zlookup (offsets P T (c * stride P dim)) (linear T jx)
  = Some (linear P (with_index jx dim (jx dim + c))).
Proof.
  intros HP HT Hi Hr. rewrite offsets_lookup by assumption.
  rewrite stride_sum_linear by assumption.
  rewrite linear_with_index by assumption. f_equal. lia.
Qed.

(** The elements a view walks are pairwise distinct positions of the
    parent when the indices it reaches are in the range of the parent. *)
Lemma shifted_view_positions (P T : Dimensions) dim c :
  wf_dims P -> wf_dims T ->
  incl (Dims.labels P) (Dims.labels T) ->
  (forall jx, in_range T jx -> in_range P (with_index jx dim (jx dim + c))) ->
  (forall r, In r (offsets P T (c * stride P dim)) -> 0 <= r < Dims.volume P)
  /\ (incl (Dims.labels T) (Dims.labels P) ->
      NoDup (offsets P T (c * stride P dim))).
Proof.
  intros [HP HPn] [HT HTn] Hi Hsh.
  pose proof (@offsets_length P T (c * stride P dim) HTn) as Hlen.
  split.
  - intros r Hin. apply In_nth_error in Hin. destruct Hin as [k Hk].
    assert (Hk' : (k < List.length (offsets P T (c * stride P dim)))%nat)
      by (apply nth_error_Some; congruence).
    destruct (@unravel T (Z.of_nat k) HT HTn) as [jx [Hr Hl]]; [lia|].
    pose proof (@shifted_view P T dim c jx HP HT Hi Hr) as Hz.
    rewrite Hl, zlookup_of_nat, Hk in Hz. inversion Hz; subst.
    apply linear_bounds. now apply Hsh.
  - intros Hi'. apply NoDup_nth_error. intros i j Hi0 He.
    assert (Hj0 : (j < List.length (offsets P T (c * stride P dim)))%nat).
    { apply nth_error_Some. rewrite <- He. apply nth_error_Some. exact Hi0. }
    destruct (@unravel T (Z.of_nat i) HT HTn) as [ix [Hri Hli]]; [lia|].
    destruct (@unravel T (Z.of_nat j) HT HTn) as [jx [Hrj Hlj]]; [lia|].
    pose proof (@shifted_view P T dim c ix HP HT Hi Hri) as Hzi.
    pose proof (@shifted_view P T dim c jx HP HT Hi Hrj) as Hzj.
    rewrite Hli, zlookup_of_nat in Hzi. rewrite Hlj, zlookup_of_nat in Hzj.
    rewrite He, Hzj in Hzi. inversion Hzi as [Hlin].
    assert (Hsame : forall l, In l (Dims.labels T) -> ix l = jx l).
    { intros l Hl.
      pose proof (@linear_inj P _ _ (Hsh jx Hrj) (Hsh ix Hri) Hlin l (Hi' l Hl)) as E.
      unfold with_index in E. destruct (Dim_eqb l dim) eqn:El.
      - apply Dim_eqb_eq in El. subst. lia.
      - congruence. }
    apply (linear_ext T) in Hsame. lia.
Qed.

(** ** [VariableModel::copy] into a slab of an owning model *)

Section Copy.

Variable A : Type.
Variables out_dims dims_o : Dimensions.
Variables buf src : list A.
Variable dim : Dim.
Variables offset ob oe n : Z.

Hypothesis Hout : wf_dims out_dims.
Hypothesis Hother : wf_dims dims_o.
Hypothesis Hbuf : Z.of_nat (List.length buf) = Dims.volume out_dims.
Hypothesis Hsrc : Z.of_nat (List.length src) = Dims.volume dims_o.
Hypothesis Hsize : Dims.size out_dims dim = Ok n.
Hypothesis Hoffset : 0 <= offset.
Hypothesis Hdelta : 0 <= oe - ob.
Hypothesis Hfit : offset + (oe - ob) <= n.
Hypothesis Hsame : forall l, l <> dim -> Dims.size out_dims l = Dims.size dims_o l.
Hypothesis Hrange :
  match Dims.size dims_o dim with
  | Ok m => 0 <= ob /\ oe <= m
  | Throw _ => ob = 0 /\ oe = 1
  end.

Lemma copy_list_positions :
  exists iterDims,
    Dims.resize out_dims dim (oe - ob) = Ok iterDims
    /\ wf_dims iterDims
    /\ Dims.labels iterDims = Dims.labels out_dims
    /\ Dims.size iterDims dim = Ok (oe - ob)
    /\ (forall l, l <> dim -> Dims.size iterDims l = Dims.size out_dims l)
    /\ copy_list out_dims buf (mkGeometry dims_o None) src dim offset ob oe
       = copy_elements buf src
           (offsets dims_o iterDims (ob * stride dims_o dim))
           (offsets out_dims iterDims (offset * stride out_dims dim)).
Proof.
  assert (Hc : Dims.contains out_dims dim = true) by (eapply size_Ok_contains; eauto).
  destruct (@resize_spec out_dims dim (oe - ob) Hc) as [iterDims [Hr [Hl [Hs [Ho Hlen]]]]].
  assert (Hwf : wf_dims iterDims) by exact (@resize_wf out_dims iterDims dim (oe - ob) Hout Hdelta Hr).
  exists iterDims. repeat (split; [assumption|]).
  destruct Hout as [Hod Hon]. destruct Hother as [Hdd Hdn]. destruct Hwf as [Hid Hin].
  unfold copy_list. rewrite Hc, Hr. cbn [bind].
  unfold getView_at. cbn [g_view g_dims bind].
  (* the view of the source *)
  assert (Hbase : (if Dims.contains dims_o dim
                   then bind (Dims.offset dims_o dim) (fun o => Ok (ob * o))
                   else Ok (ob * Dims.volume dims_o))
                  = Ok (ob * stride dims_o dim)).
  { destruct (Dims.contains dims_o dim) eqn:Ec.
    - rewrite (stride_offset _ _ Ec). reflexivity.
    - rewrite (stride_not_contains _ _ Ec).
      rewrite (size_not_contains _ _ Ec) in Hrange. destruct Hrange as [-> _].
      f_equal; lia. }
  rewrite Hbase. cbn [bind]. unfold isContiguous. cbn [g_view andb].
  (* the source, walked as a span or through the view *)
  assert (Hsource : forall k : list Z -> result (list A),
    (if Dims.isContiguousIn iterDims dims_o
     then bind (getSpan_range (mkGeometry dims_o None) (Z.of_nat (List.length src))
                              dim ob oe) k
     else k (view_positions (makeVariableView (ob * stride dims_o dim) iterDims dims_o)))
    = k (offsets dims_o iterDims (ob * stride dims_o dim))).
  { intros k. destruct (Dims.isContiguousIn iterDims dims_o) eqn:Eo; [|reflexivity].
    assert (dims_o = iterDims).
    { apply isContiguousIn_spec in Eo. destruct Eo as [pre Hpre].
      destruct pre as [|[l m] pre]; [exact Hpre|]. exfalso.
      assert (Hdim : In dim (Dims.labels iterDims)) by (eapply size_Ok_In_labels; eauto).
      assert (Hnd : NoDup (Dims.labels dims_o)) by exact Hdd.
      rewrite Hpre in Hnd. unfold Dims.labels in Hnd. rewrite map_app in Hnd. simpl in Hnd.
      apply NoDup_cons_iff in Hnd. destruct Hnd as [Hl1 Hnd1].
      assert (Hne : l <> dim).
      { intros ->. apply Hl1. apply in_or_app. now right. }
      assert (Hlo : Dims.size dims_o l = Ok m).
      { apply size_In; [exact Hdd|]. rewrite Hpre. now left. }
      rewrite <- Hsame in Hlo by assumption.
      apply size_Ok_In_labels in Hlo. rewrite <- Hl in Hlo.
      apply Hl1. apply in_or_app. now right. }
    subst iterDims. pose proof Hrange as Hrange'. rewrite Hs in Hrange'.
    assert (Hob : ob = 0) by lia.
    unfold getSpan_range. cbn [g_dims].
    rewrite (size_Ok_contains _ _ Hs). cbn [negb andb]. rewrite Hs. cbn [bind].
    rewrite Z.eqb_refl. cbn [bind getData g_view concept_size].
    rewrite Hsrc, Hob. rewrite offsets_self by assumption. reflexivity. }
  (* the target, likewise *)
  destruct (Dims.isContiguousIn iterDims out_dims) eqn:Et.
  - assert (iterDims = out_dims) by (now apply isContiguousIn_same_length).
    subst iterDims. assert (Hn : n = oe - ob) by congruence.
    assert (Hoff : offset = 0) by lia.
    unfold getSpan_range at 1. cbn [g_dims]. rewrite Hc. cbn [negb andb]. rewrite Hs.
    cbn [bind]. replace (offset + (oe - ob) - offset) with (oe - ob) by lia.
    rewrite Z.eqb_refl. cbn [bind getData g_view concept_size].
    rewrite Hbuf, Hoff.
    replace (0 * stride out_dims dim) with 0 by lia.
    rewrite <- offsets_self by assumption.
    exact (Hsource (fun source =>
             copy_elements buf src source (offsets out_dims out_dims 0))).
  - rewrite (stride_offset _ _ Hc), Hc. cbn [bind].
    exact (Hsource (fun source =>
             copy_elements buf src source
               (offsets out_dims iterDims (offset * stride out_dims dim)))).
Qed.

Lemma copy_list_spec :
  exists buf',
    copy_list out_dims buf (mkGeometry dims_o None) src dim offset ob oe = Ok buf'
    /\ List.length buf' = List.length buf
    /\ forall ix, in_range out_dims ix ->
         zlookup buf' (linear out_dims ix)
         = if (offset <=? ix dim) && (ix dim <? offset + (oe - ob))
           then zlookup src (linear dims_o (with_index ix dim (ix dim - offset + ob)))
           else zlookup buf (linear out_dims ix).
Proof.
  destruct copy_list_positions as [iterDims [Hr [Hwf [Hl [Hs [Ho Hcopy]]]]]].
  rewrite Hcopy. clear Hcopy.
  pose proof Hout as [Hod Hon]. pose proof Hother as [Hdd Hdn]. pose proof Hwf as [Hid Hin].
  assert (Hlo : incl (Dims.labels out_dims) (Dims.labels iterDims))
    by (rewrite Hl; apply incl_refl).
  assert (Hlo' : incl (Dims.labels iterDims) (Dims.labels out_dims))
    by (rewrite Hl; apply incl_refl).
  assert (Hld : incl (Dims.labels dims_o) (Dims.labels iterDims)).
  { intros l Hin'. destruct (Dim_eq_dec l dim) as [->|Hne].
    - eapply size_Ok_In_labels; eauto.
    - rewrite Hl. apply contains_In in Hin'.
      destruct (size_contains _ _ Hin') as [m [Hm _]].
      rewrite <- Hsame in Hm by assumption. eapply size_Ok_In_labels; eauto. }
  assert (Hshw : forall jx, in_range iterDims jx ->
                            in_range out_dims (with_index jx dim (jx dim + offset))).
  { intros jx Hj. apply in_range_size; [exact Hod|]. intros l m Hm.
    destruct (Dim_eq_dec l dim) as [->|Hne].
    - rewrite with_index_same. rewrite Hsize in Hm. inversion Hm; subst m.
      pose proof (proj1 (in_range_size jx Hid) Hj dim _ Hs). lia.
    - rewrite with_index_other by assumption.
      apply (proj1 (in_range_size jx Hid) Hj). now rewrite Ho. }
  assert (Hshr : forall jx, in_range iterDims jx ->
                            in_range dims_o (with_index jx dim (jx dim + ob))).
  { intros jx Hj. apply in_range_size; [exact Hdd|]. intros l m Hm.
    destruct (Dim_eq_dec l dim) as [->|Hne].
    - rewrite with_index_same. rewrite Hm in Hrange.
      pose proof (proj1 (in_range_size jx Hid) Hj dim _ Hs). lia.
    - rewrite with_index_other by assumption.
      apply (proj1 (in_range_size jx Hid) Hj). rewrite Ho by assumption.
      now rewrite Hsame. }
  destruct (@shifted_view_positions out_dims iterDims dim offset Hout Hwf Hlo Hshw)
    as [Hwr Hnd].
  destruct (@shifted_view_positions dims_o iterDims dim ob Hother Hwf Hld Hshr)
    as [Hrd _].
  destruct (@copy_elements_spec A src
              (offsets dims_o iterDims (ob * stride dims_o dim))
              (offsets out_dims iterDims (offset * stride out_dims dim)) buf)
    as [buf' [Hc [Hlen [Hk Hp]]]].
  - apply Nat2Z.inj. now rewrite !offsets_length.
  - now apply Hnd.
  - intros w Hw. rewrite Hbuf. now apply Hwr.
  - intros r Hr'. rewrite Hsrc. now apply Hrd.
  - exists buf'. split; [exact Hc|]. split; [exact Hlen|].
    intros ix Hix.
    assert (Hixd : 0 <= ix dim < n) by (apply (proj1 (in_range_size ix Hod) Hix dim _ Hsize)).
    destruct ((offset <=? ix dim) && (ix dim <? offset + (oe - ob))) eqn:Ew.
    + apply andb_prop in Ew. destruct Ew as [E1 E2].
      apply Z.leb_le in E1. apply Z.ltb_lt in E2.
      set (jx := with_index ix dim (ix dim - offset)).
      assert (Hj : in_range iterDims jx).
      { apply in_range_size; [exact Hid|]. intros l m Hm. unfold jx.
        destruct (Dim_eq_dec l dim) as [->|Hne].
        - rewrite with_index_same. rewrite Hs in Hm. inversion Hm. lia.
        - rewrite with_index_other by assumption. rewrite Ho in Hm by assumption.
          apply (proj1 (in_range_size ix Hod) Hix _ _ Hm). }
      pose proof (@shifted_view out_dims iterDims dim offset jx Hod Hid Hlo Hj) as Hw.
      pose proof (@shifted_view dims_o iterDims dim ob jx Hdd Hid Hld Hj) as Hr'.
      pose proof (linear_bounds Hj) as Hb.
      rewrite zlookup_nat in Hw, Hr' by lia.
      assert (E : linear out_dims (with_index jx dim (jx dim + offset)) = linear out_dims ix).
      { apply linear_ext. intros l _. unfold jx, with_index.
        rewrite Dim_eqb_refl. destruct (Dim_eqb l dim) eqn:El; [|reflexivity].
        apply Dim_eqb_eq in El. subst. lia. }
      assert (E' : linear dims_o (with_index jx dim (jx dim + ob))
                   = linear dims_o (with_index ix dim (ix dim - offset + ob))).
      { apply linear_ext. intros l _. unfold jx, with_index.
        rewrite Dim_eqb_refl. destruct (Dim_eqb l dim) eqn:El; reflexivity. }
      rewrite <- E, <- E'. exact (Hk _ _ _ Hw Hr').
    + apply Hp. intros Hin'. apply In_nth_error in Hin'. destruct Hin' as [k Hk'].
      assert (Hk0 : (k < List.length (offsets out_dims iterDims (offset * stride out_dims dim)))%nat)
        by (apply nth_error_Some; congruence).
      pose proof (@offsets_length out_dims iterDims (offset * stride out_dims dim) Hin) as Hlen'.
      destruct (@unravel iterDims (Z.of_nat k) Hid Hin) as [jx [Hj Hlj]]; [lia|].
      pose proof (@shifted_view out_dims iterDims dim offset jx Hod Hid Hlo Hj) as Hw.
      rewrite Hlj, zlookup_of_nat, Hk' in Hw. inversion Hw as [Hlin].
      assert (Hd : In dim (Dims.labels out_dims)) by (eapply size_Ok_In_labels; eauto).
      pose proof (@linear_inj out_dims _ _ Hix (Hshw jx Hj) Hlin dim Hd) as E.
      rewrite with_index_same in E.
      pose proof (proj1 (in_range_size jx Hid) Hj dim _ Hs).
      apply andb_false_iff in Ew. destruct Ew as [Ew|Ew].
      * apply Z.leb_gt in Ew. lia.
      * apply Z.ltb_ge in Ew. lia.
Qed.

End Copy.


(** ** Models, element by element *)

Lemma Vector_ext d (m1 m2 : Vector) :
  wf_dims d -> Vector_type m1 = Vector_type m2 ->
  Vector_size m1 = Dims.volume d -> Vector_size m2 = Dims.volume d ->
  (forall ix, in_range d ix -> element m1 (linear d ix) = element m2 (linear d ix)) ->
  m1 = m2.
Proof.
  intros Hd Ht H1 H2 H.
  destruct m1, m2; simpl in Ht; try discriminate; f_equal;
    apply (@buffer_ext _ d _ _ Hd H1 H2); intros ix Hix;
    specialize (H ix Hix); simpl in H;
    match goal with
    | |- zlookup ?x ?p = zlookup ?y ?p =>
        destruct (zlookup x p), (zlookup y p); simpl in H; congruence
    end.
Qed.

Lemma Variable_ext (v w : Variable_) :
  wf_variable v -> wf_variable w ->
  m_type v = m_type w -> m_name v = m_name w -> m_unit v = m_unit w ->
  dimensions v = dimensions w ->
  (forall ix, in_range (dimensions v) ix ->
     element (m_model v) (linear (dimensions v) ix)
     = element (m_model w) (linear (dimensions v) ix)) ->
  v = w.
Proof.
  intros [Ht Hs Hd] [Ht' Hs' Hd'] E1 E2 E3 E4 H.
  destruct v as [t nm u d m], w as [t' nm' u' d' m']. simpl in *. subst.
  f_equal. apply (@Vector_ext d' m m' Hd); [congruence|assumption|assumption|exact H].
Qed.

Lemma Vector_copy_spec (out_dims dims_o : Dimensions) (this other : Vector)
      (dim : Dim) (offset ob oe n : Z) :
  wf_dims out_dims -> wf_dims dims_o ->
  Vector_type this = Vector_type other ->
  Vector_size this = Dims.volume out_dims ->
  Vector_size other = Dims.volume dims_o ->
  Dims.size out_dims dim = Ok n ->
  0 <= offset -> 0 <= oe - ob -> offset + (oe - ob) <= n ->
  (forall l, l <> dim -> Dims.size out_dims l = Dims.size dims_o l) ->
  match Dims.size dims_o dim with
  | Ok m => 0 <= ob /\ oe <= m
  | Throw _ => ob = 0 /\ oe = 1
  end ->
  exists m',
    Vector_copy out_dims this (mkGeometry dims_o None) other dim offset ob oe = Ok m'
    /\ Vector_type m' = Vector_type this
    /\ Vector_size m' = Vector_size this
    /\ forall ix, in_range out_dims ix ->
         element m' (linear out_dims ix)
         = if (offset <=? ix dim) && (ix dim <? offset + (oe - ob))
           then element other (linear dims_o (with_index ix dim (ix dim - offset + ob)))
           else element this (linear out_dims ix).
Proof.
  intros Hout Hother Ht Hbuf Hsrc Hsize Hoffset Hdelta Hfit Hsame Hrange.
  destruct this as [buf|buf|buf|buf|buf|buf], other as [src|src|src|src|src|src];
    simpl in Ht; try discriminate; simpl in Hbuf, Hsrc;
    destruct (@copy_list_spec _ out_dims dims_o buf src dim offset ob oe n
                Hout Hother Hbuf Hsrc Hsize Hoffset Hdelta Hfit Hsame Hrange)
      as [buf' [Hc [Hlen Hel]]];
    eexists; (split; [unfold Vector_copy; rewrite Hc; reflexivity|]);
    (split; [reflexivity|]); (split; [simpl; now rewrite Hlen|]);
    intros ix Hix; simpl; rewrite (Hel ix Hix);
    destruct ((offset <=? ix dim) && (ix dim <? offset + (oe - ob))); reflexivity.
Qed.

(** ** [Variable::setDimensions] and the copy into a slab *)

Lemma Vector_clone_spec (m : Vector) (dims : Dimensions) :
  extents_nonneg dims ->
  exists m', Vector_clone m dims = Ok m'
             /\ Vector_type m' = Vector_type m
             /\ Vector_size m' = Dims.volume dims.
Proof.
  intros Hn. pose proof (volume_nonneg Hn) as Hv. unfold Vector_clone.
  destruct (Z.ltb_spec (Dims.volume dims) 0) as [?|_]; [lia|].
  eexists. split; [reflexivity|].
  destruct m; simpl; rewrite repeat_length; split; try reflexivity; lia.
Qed.

Lemma setDimensions_spec (v : Variable_) (dims : Dimensions) :
  wf_variable v -> wf_dims dims ->
  exists m, setDimensions v dims = Ok (set_object v dims m)
            /\ Vector_type m = Vector_type (m_model v)
            /\ Vector_size m = Dims.volume dims.
Proof.
  intros [Ht Hs Hd] [Hdd Hdn]. unfold setDimensions.
  destruct (Dims.dims_eqb dims (dimensions v)) eqn:E.
  - apply dims_eqb_eq in E. subst dims. exists (m_model v).
    split; [destruct v; reflexivity|]. split; [reflexivity|exact Hs].
  - destruct (@Vector_clone_spec (m_model v) dims Hdn) as [m [Hc [Hty Hsz]]].
    exists m. rewrite Hc. cbn [bind]. auto.
Qed.


(** ** Range slices *)

Lemma slice_range_is_slice (v : Variable_) dim n a b :
  wf_variable v -> Dims.size (dimensions v) dim = Ok n ->
  0 <= a -> a <= b -> b <= n ->
  exists s, slice_range v dim a b = Ok s /\ is_slice v dim a b s.
Proof.
  intros Hwf Hn Ha Hab Hb. pose proof Hwf as [Ht Hs Hd].
  assert (Hc : Dims.contains (dimensions v) dim = true) by (eapply size_Ok_contains; eauto).
  destruct (@resize_spec (dimensions v) dim (b - a) Hc) as [dims [Hr [Hl [Hsz [Ho Hlen]]]]].
  assert (Hdelta : 0 <= b - a) by lia.
  pose proof (@resize_wf (dimensions v) dims dim (b - a) Hd Hdelta Hr) as Hd'.
  unfold slice_range. rewrite Hr. cbn [bind].
  destruct (Dims.dims_eqb dims (dimensions v)) eqn:E.
  - apply dims_eqb_eq in E. subst dims. exists v. split; [reflexivity|].
    assert (a = 0) by (rewrite Hn in Hsz; inversion Hsz; lia). subst a.
    repeat (split; [first [reflexivity|assumption]|]).
    intros ix _. f_equal. apply linear_ext. intros l _.
    unfold with_index. destruct (Dim_eqb l dim) eqn:El; [|reflexivity].
    apply Dim_eqb_eq in El. subst. lia.
  - destruct (@setDimensions_spec v dims Hwf Hd') as [m0 [Hset [Hty0 Hsz0]]].
    rewrite Hset. cbn [bind]. unfold data_copy, geometry.
    cbn [dimensions m_model set_object].
    assert (Hrange : match Dims.size (dimensions v) dim with
                     | Ok m => 0 <= a /\ b <= m
                     | Throw _ => a = 0 /\ b = 1
                     end) by (rewrite Hn; lia).
    assert (Hfit : 0 + (b - a) <= b - a) by lia.
    destruct (@Vector_copy_spec dims (dimensions v) m0 (m_model v) dim 0 a b (b - a)
                Hd' Hd Hty0 Hsz0 Hs Hsz (Z.le_refl 0) Hdelta Hfit Ho Hrange)
      as [m' [Hcopy [Hty [Hsize Hel]]]].
    rewrite Hcopy. cbn [bind]. eexists. split; [reflexivity|].
    unfold is_slice, set_model, set_object. cbn [m_type m_name m_unit dimensions m_model].
    repeat (split; [first [reflexivity|assumption]|]).
    split; [constructor; cbn [m_type m_name m_unit dimensions m_model set_object]; first [assumption|congruence]|].
    split; [exact Hr|].
    intros ix Hix. rewrite (Hel ix Hix).
    pose proof (proj1 (in_range_size ix (proj1 Hd')) Hix dim _ Hsz) as Hi.
    replace ((0 <=? ix dim) && (ix dim <? 0 + (b - a))) with true
      by (symmetry; apply andb_true_intro; split; [apply Z.leb_le|apply Z.ltb_lt]; lia).
    replace (ix dim - 0 + a) with (ix dim + a) by lia. reflexivity.
Qed.

(** ** [concatenate] *)

Lemma Tag_eqb_refl t : Tag_eqb t t = true.
Proof. apply Z.eqb_refl. Qed.












(** [TEST(Variable, concatenate)]: [ab], [ba] and [abba]. *)
Example concatenate_test :
  concatenate concatenate_a concatenate_b Tof = Ok concatenate_ab
  /\ concatenate concatenate_b concatenate_a Tof = Ok concatenate_ba
  /\ concatenate concatenate_ab concatenate_ba Q = Ok concatenate_abba.
Proof. repeat split; reflexivity. Qed.




(** ** [split] and the way back *)

Lemma resize_Ok_spec d dim n d' :
  Dims.resize d dim n = Ok d' ->
  Dims.contains d dim = true
  /\ Dims.size d' dim = Ok n
  /\ (forall l, l <> dim -> Dims.size d' l = Dims.size d l).
Proof.
  intros Hr. destruct (Dims.contains d dim) eqn:E.
  - destruct (@resize_spec d dim n E) as [d2 [Hr2 [_ [Hs [Ho _]]]]].
    rewrite Hr in Hr2. inversion Hr2; subst d2. auto.
  - rewrite resize_not_contains in Hr by assumption. discriminate.
Qed.


Lemma resize_same d dim n : Dims.size d dim = Ok n -> Dims.resize d dim n = Ok d.
Proof.
  induction d as [|[l m] d IH]; cbn [Dims.size Dims.resize]; [discriminate|].
  destruct (Dim_eqb l dim) eqn:E.
  - intros H. inversion H. reflexivity.
  - intros H. rewrite (IH H). reflexivity.
Qed.


Section Slices.

Variable v : Variable_.
Variable dim : Dim.
Variable n : Z.
Hypothesis Hwf : wf_variable v.
Hypothesis Hn : Dims.size (dimensions v) dim = Ok n.













End Slices.

(** [TEST(TableWorkspace, basics)]: the column of six rows split at row 3
    gives the column of three rows twice. *)
Example split_test :
  split six_rows Row [3]
  = Ok [mkVariable Data_Value "Data" Dimensionless [(Row, 3)] (VecDouble [1; -2; 3]%float);
        mkVariable Data_Value "Data" Dimensionless [(Row, 3)] (VecDouble [1; -2; 3]%float)].
Proof. reflexivity. Qed.




(** ** Event lists *)

(** [TEST(EventWorkspace, plus)]: the event lists as [insert] and
    [concatenate] on Datasets build them, and the sums of Datasets. *)
Example EventWorkspace_plus :
  Dataset_concatenate (event_list 10) (event_list 10) Event = Ok (event_list 20)
  /\ Dataset_insert Dataset_default (events_of [event_list 10; event_list 20])
     = Ok events_d
  /\ Dataset_plus_equal events_d events_d
     = returns (mkDataset [(Spectrum, 2)] [events_of [event_list 20; event_list 40]])
  /\ Dataset_plus_equal
       (mkDataset [(Spectrum, 2)] [events_of [event_list 20; event_list 40]]) events_d
     = returns (mkDataset [(Spectrum, 2)] [events_of [event_list 30; event_list 60]]).
Proof. repeat split; vm_compute; reflexivity. Qed.

(** A Variable of tag [Data::Events] with extent zero holds no event
    list: [operator+=] then reads [datasets[0]] outside the vector, which
    the embedding reports as [out_of_bounds]. *)
Example events_plus_equal_no_event_list :
  plus_equal (events_of []) (operand (events_of []))
  = throws (events_of []) out_of_bounds.
Proof. reflexivity. Qed.




(** ** Joining two event lists *)




Section EventLists.

Variable dim : Dim.
Variables n m : Z.
Hypothesis Hdim : dim <> Invalid.





End EventLists.







(** ** The registry of a Dataset *)

Lemma contains_size d D : Dims.contains d D = true <-> exists n, Dims.size d D = Ok n.
Proof.
  split.
  - intros H. destruct (size_contains _ _ H) as [n [Hn _]]. eauto.
  - intros [n Hn]. eapply size_Ok_contains; eauto.
Qed.

Lemma erase_Ok_spec d dim : forall d',
  Dims.erase d dim = Ok d' -> distinct_labels d ->
  distinct_labels d'
  /\ Dims.contains d' dim = false
  /\ (forall D, D <> dim -> Dims.size d' D = Dims.size d D)
  /\ (forall D, Dims.contains d' D = true -> Dims.contains d D = true).
Proof.
  induction d as [|[l m] d IH]; intros d'; cbn [Dims.erase]; [discriminate|].
  destruct (Dim_eqb l dim) eqn:E.
  - apply Dim_eqb_eq in E. subst l. intros H Hd. inversion H; subst d'.
    apply distinct_labels_cons in Hd. destruct Hd as [Hl Hd].
    split; [exact Hd|]. split; [now apply contains_false|]. split.
    + intros D HD. cbn [Dims.size].
      assert (E : Dim_eqb dim D = false) by (apply Dim_eqb_neq; congruence).
      now rewrite E.
    + intros D HD. cbn [Dims.contains]. rewrite HD. now destruct (Dim_eqb dim D).
  - destruct (Dims.erase d dim) as [r|] eqn:Er; cbn [bind]; [|discriminate].
    intros H Hd. inversion H; subst d'.
    apply distinct_labels_cons in Hd. destruct Hd as [Hl Hd].
    destruct (IH r eq_refl Hd) as [Hr [Hc [Hs Hin]]].
    split; [|split; [|split]].
    + apply distinct_labels_cons. split; [|exact Hr].
      intros Hl'. apply Hl. apply contains_In. apply Hin. now apply contains_In.
    + cbn [Dims.contains]. now rewrite E.
    + intros D HD. cbn [Dims.size]. destruct (Dim_eqb l D); [reflexivity|now apply Hs].
    + intros D. cbn [Dims.contains]. destruct (Dim_eqb l D); [reflexivity|apply Hin].
Qed.

Lemma In_remove_at A (l : list A) : forall i x, In x (remove_at l i) -> In x l.
Proof.
  induction l as [|a l IH]; intros [|i] x; cbn [remove_at]; try tauto.
  - intros H. now right.
  - intros [H|H]; [now left|right; eauto].
Qed.

Lemma In_remove_at_or A (l : list A) : forall i x,
  In x l -> In x (remove_at l i) \/ nth_error l i = Some x.
Proof.
  induction l as [|a l IH]; intros [|i] x; cbn [remove_at nth_error In]; try tauto.
  - intros [H|H]; [right; congruence|now left].
  - intros [H|H]; [left; now left|].
    destruct (IH i x H) as [H'|H']; [left; now right|now right].
Qed.

Lemma valid_labels_In d D : valid_labels d -> Dims.contains d D = true -> D <> Invalid.
Proof. intros [_ Hi] Hc ->. apply Hi. now apply contains_In. Qed.

Section MergeDimensions.

Variable vars : list Variable_.
Variable coordDim : Dim.

(** One round of the loop of [mergeDimensions]. *)
Lemma mergeDimensions_step registry dim n rest registry' :
  valid_labels registry -> dim <> Invalid ->
  (forall var, In var vars -> registered registry var) ->
  mergeDimensions vars registry ((dim, n) :: rest) coordDim = Ok registry' ->
  exists registry1,
    mergeDimensions vars registry1 rest coordDim = Ok registry'
    /\ valid_labels registry1
    /\ (forall var, In var vars -> registered registry1 var)
    /\ (exists r, Dims.size registry1 dim = Ok r
                  /\ (n = r \/ (coordDim = dim /\ n = r + 1)))
    /\ (forall D, D <> dim -> Dims.size registry1 D = Dims.size registry D)
    /\ (forall D, Dims.contains registry1 D = true ->
                  Dims.contains registry D = true \/ D = dim).
Proof.
  intros [Hd Hi] Hdim Hreg. cbn [mergeDimensions].
  destruct (Dims.contains registry dim) eqn:Hc.
  - destruct (size_contains _ _ Hc) as [r [Hr _]]. rewrite Hr. cbn [bind].
    destruct (Z.eqb_spec r n) as [->|Hne].
    { cbn [bind]. intros H. exists registry. split; [exact H|]. split; [now split|].
      split; [exact Hreg|]. split; [eauto|]. split; auto. }
    destruct (Dim_eqb dim coordDim) eqn:Ec.
    { apply Dim_eqb_eq in Ec. destruct (Z.eqb_spec r (n - 1)) as [Er|_]; [|discriminate].
      cbn [bind]. intros H. exists registry. split; [exact H|]. split; [now split|].
      split; [exact Hreg|]. split; [exists r; split; [exact Hr|right; split; [congruence|lia]]|].
      split; auto. }
    destruct ((r =? n + 1) && _) eqn:Es; [|discriminate].
    apply andb_prop in Es. destruct Es as [Er Hall]. apply Z.eqb_eq in Er.
    rewrite forallb_forall in Hall.
    destruct (@resize_spec registry dim n Hc) as [registry1 [Hres [Hl [Hs [Ho _]]]]].
    rewrite Hres. cbn [bind]. intros H. exists registry1. split; [exact H|].
    split; [split; [unfold distinct_labels; now rewrite Hl|now rewrite Hl]|].
    split; [|split; [eauto|split]].
    + intros var Hin D m Hm. destruct (Dim_eq_dec D dim) as [->|HD].
      * exists n. split; [exact Hs|]. right.
        specialize (Hall var Hin). rewrite (size_Ok_contains _ _ Hm), Hm in Hall.
        cbn [negb orb] in Hall. apply andb_prop in Hall. destruct Hall as [H1 H2].
        apply Dim_eqb_eq in H1. apply Z.eqb_eq in H2. split; [exact H1|lia].
      * rewrite (Ho D HD). exact (Hreg var Hin D m Hm).
    + exact Ho.
    + intros D HD. left. apply contains_In. rewrite <- Hl. now apply contains_In.
  - unfold Dims.add.
    destruct (6 <=? Dims.ndim registry); [discriminate|].
    destruct (Dim_eqb dim Invalid); [discriminate|]. rewrite Hc.
    destruct (n <? 0); [discriminate|]. cbn [bind]. intros H.
    exists ((dim, n) :: registry). split; [exact H|].
    assert (Hsame : forall D, D <> dim ->
              Dims.size ((dim, n) :: registry) D = Dims.size registry D).
    { intros D HD. cbn [Dims.size].
      assert (E : Dim_eqb dim D = false) by (apply Dim_eqb_neq; congruence).
      now rewrite E. }
    split; [split|].
    + apply distinct_labels_cons. split; [now apply contains_false|exact Hd].
    + cbn [Dims.labels map fst]. intros [E|E]; [congruence|now apply Hi].
    + split; [|split; [|split]].
      * intros var Hin D m Hm. destruct (Hreg var Hin D m Hm) as [r [Hr Hor]].
        exists r. split; [|exact Hor]. rewrite Hsame; [exact Hr|].
        intros ->. rewrite (size_Ok_contains _ _ Hr) in Hc. discriminate.
      * exists n. split; [cbn [Dims.size]; now rewrite Dim_eqb_refl|now left].
      * exact Hsame.
      * intros D. cbn [Dims.contains]. destruct (Dim_eqb dim D) eqn:E.
        -- apply Dim_eqb_eq in E. intros _. right. congruence.
        -- intros HD. now left.
Qed.

Lemma mergeDimensions_spec : forall dims registry registry',
  valid_labels registry -> valid_labels dims ->
  (forall var, In var vars -> registered registry var) ->
  mergeDimensions vars registry dims coordDim = Ok registry' ->
  valid_labels registry'
  /\ (forall var, In var vars -> registered registry' var)
  /\ (forall D n, Dims.size dims D = Ok n ->
        exists r, Dims.size registry' D = Ok r
                  /\ (n = r \/ (coordDim = D /\ n = r + 1)))
  /\ (forall D, Dims.contains registry' D = true ->
                Dims.contains registry D = true \/ Dims.contains dims D = true)
  /\ (forall D, Dims.contains dims D = false ->
                Dims.size registry' D = Dims.size registry D).
Proof.
  induction dims as [|[dim n] rest IH]; intros registry registry' Hv Hvd Hreg Hm.
  - cbn in Hm. inversion Hm; subst registry'.
    split; [exact Hv|]. split; [exact Hreg|]. split; [intros D n; discriminate|].
    split; [intros D HD; now left|reflexivity].
  - destruct Hvd as [Hdd Hdi].
    apply distinct_labels_cons in Hdd. destruct Hdd as [Hdim_rest Hdrest].
    assert (Hdim : dim <> Invalid) by (intros ->; apply Hdi; now left).
    assert (Hvrest : valid_labels rest).
    { split; [exact Hdrest|]. intros Hin. apply Hdi. now right. }
    destruct (@mergeDimensions_step registry dim n rest registry' Hv Hdim Hreg Hm)
      as [registry1 [Hm1 [Hv1 [Hreg1 [[r [Hr Hor]] [Hsame1 Hcont1]]]]]].
    destruct (IH registry1 registry' Hv1 Hvrest Hreg1 Hm1)
      as [Hv' [Hreg' [Hent [Hcont Hframe]]]].
    apply contains_false in Hdim_rest.
    split; [exact Hv'|]. split; [exact Hreg'|]. split; [|split].
    + intros D m. cbn [Dims.size]. destruct (Dim_eqb dim D) eqn:E.
      * apply Dim_eqb_eq in E. subst D. intros Hm'. inversion Hm'; subst m.
        exists r. rewrite (Hframe dim Hdim_rest). split; [exact Hr|exact Hor].
      * apply Hent.
    + intros D HD. cbn [Dims.contains]. destruct (Dim_eqb dim D) eqn:E; [now right|].
      destruct (Hcont D HD) as [H1|H1]; [|now right].
      destruct (Hcont1 D H1) as [H2|H2]; [now left|].
      apply Dim_eqb_neq in E. congruence.
    + intros D. cbn [Dims.contains]. destruct (Dim_eqb dim D) eqn:E; [discriminate|].
      intros HD. rewrite (Hframe D HD). apply Hsame1. apply Dim_eqb_neq in E. congruence.
Qed.

End MergeDimensions.

Lemma Dataset_insert_invariant d var d' :
  Dataset_invariant d -> valid_labels (dimensions var) ->
  Dataset_insert d var = Ok d' -> Dataset_invariant d'.
Proof.
  intros [Hr Hv He Href] Hvar. unfold Dataset_insert.
  destruct (0 <? count_tag_name (m_variables d) (m_type var) (m_name var)); [discriminate|].
  destruct (mergeDimensions (m_variables d) (m_dimensions d) (dimensions var)
                            (coordDimension (m_type var))) as [registry|] eqn:Em;
    cbn [bind]; [|discriminate].
  intros H. inversion H; subst d'. clear H.
  destruct (@mergeDimensions_spec (m_variables d) (coordDimension (m_type var))
              (dimensions var) (m_dimensions d) registry Hr Hvar He Em)
    as [Hv' [Hreg' [Hent [Hcont _]]]].
  constructor; cbn [m_dimensions m_variables].
  - exact Hv'.
  - intros x Hx. apply in_app_or in Hx. destruct Hx as [Hx|[<-|[]]]; [now apply Hv|exact Hvar].
  - intros x Hx. apply in_app_or in Hx. destruct Hx as [Hx|[<-|[]]]; [now apply Hreg'|].
    intros D n Hn. destruct (Hent D n Hn) as [r [Hr' Hor]]. exists r. split; [exact Hr'|].
    destruct Hor as [Hor|[Hc Hor]]; [now left|right; split; congruence].
  - intros D HD. destruct (Hcont D HD) as [H1|H1].
    + destruct (Href D H1) as [x [Hx Hc]]. exists x. split; [apply in_or_app; now left|exact Hc].
    + exists var. split; [apply in_or_app; right; now left|exact H1].
Qed.

Lemma Dataset_merge_invariant other : forall d d',
  Dataset_invariant d ->
  (forall var, In var other -> valid_labels (dimensions var)) ->
  foldM Dataset_insert other d = Ok d' -> Dataset_invariant d'.
Proof.
  induction other as [|var rest IH]; intros d d' Hinv Hvalid; cbn [foldM].
  - intros H. inversion H; subst. exact Hinv.
  - destruct (Dataset_insert d var) as [d1|] eqn:E; cbn [bind]; [|discriminate].
    apply IH.
    + apply (@Dataset_insert_invariant d var d1 Hinv); [apply Hvalid; now left|exact E].
    + intros x Hx. apply Hvalid. now right.
Qed.

Section EraseUnused.

Variable vars : list Variable_.

Lemma erase_unused_spec : forall labels registry registry',
  distinct_labels registry ->
  erase_unused labels vars registry = Ok registry' ->
  distinct_labels registry'
  /\ (forall D, Dims.contains registry' D = true -> Dims.contains registry D = true)
  /\ (forall D, existsb (fun var => Dims.contains (dimensions var) D) vars = true ->
                Dims.size registry' D = Dims.size registry D)
  /\ (forall D, In D labels ->
                existsb (fun var => Dims.contains (dimensions var) D) vars = false ->
                Dims.contains registry' D = false).
Proof.
  induction labels as [|dim rest IH]; intros registry registry' Hd; cbn [erase_unused].
  - intros H. inversion H; subst. split; [exact Hd|]. split; [auto|]. split; [auto|].
    intros D [].
  - destruct (existsb (fun var => Dims.contains (dimensions var) dim) vars) eqn:Ef;
      cbn [negb bind].
    + intros H. destruct (IH registry registry' Hd H) as [H1 [H2 [H3 H4]]].
      split; [exact H1|]. split; [exact H2|]. split; [exact H3|].
      intros D [->|HD] Hnf; [congruence|now apply H4].
    + destruct (Dims.erase registry dim) as [registry1|] eqn:Ee; cbn [bind]; [|discriminate].
      intros H.
      destruct (@erase_Ok_spec registry dim registry1 Ee Hd) as [Hd1 [Hc1 [Hs1 Hin1]]].
      destruct (IH registry1 registry' Hd1 H) as [H1 [H2 [H3 H4]]].
      split; [exact H1|]. split; [auto|]. split.
      * intros D HD. rewrite (H3 D HD). apply Hs1. intros ->. congruence.
      * intros D [->|HD] Hnf; [|now apply H4].
        destruct (Dims.contains registry' D) eqn:E; [|reflexivity].
        rewrite (H2 D E) in Hc1. discriminate.
Qed.

End EraseUnused.

Lemma Dataset_erase_invariant d t d' :
  Dataset_invariant d -> Dataset_erase d t = Ok d' -> Dataset_invariant d'.
Proof.
  intros [[Hrd Hri] Hv He Href]. unfold Dataset_erase.
  destruct (findUnique d t) as [i|] eqn:Ei; cbn [bind]; [|discriminate].
  destruct (zlookup (m_variables d) i) as [it|] eqn:Eit; [|discriminate].
  destruct (erase_unused (Dims.labels (dimensions it))
                         (remove_at (m_variables d) (Z.to_nat i)) (m_dimensions d))
    as [registry|] eqn:Ee; cbn [bind]; [|discriminate].
  intros H. inversion H; subst d'. clear H.
  destruct (@erase_unused_spec (remove_at (m_variables d) (Z.to_nat i))
              (Dims.labels (dimensions it)) (m_dimensions d) registry Hrd Ee)
    as [Hd' [Hsub [Hkeep Hgone]]].
  assert (Hex : forall var D,
            In var (remove_at (m_variables d) (Z.to_nat i)) ->
            Dims.contains (dimensions var) D = true ->
            existsb (fun var => Dims.contains (dimensions var) D)
                    (remove_at (m_variables d) (Z.to_nat i)) = true).
  { intros var D Hin Hc. apply existsb_exists. eauto. }
  constructor; cbn [m_dimensions m_variables].
  - split; [exact Hd'|]. intros Hin. apply Hri. apply contains_In. apply Hsub.
    now apply contains_In.
  - intros var Hin. apply Hv. eapply In_remove_at; eauto.
  - intros var Hin D n Hn.
    destruct (He var (In_remove_at _ _ _ Hin) D n Hn) as [r [Hr Hor]].
    exists r. split; [|exact Hor].
    rewrite (Hkeep D (Hex var D Hin (size_Ok_contains _ _ Hn))). exact Hr.
  - intros D HD.
    destruct (existsb (fun var => Dims.contains (dimensions var) D)
                      (remove_at (m_variables d) (Z.to_nat i))) eqn:Ef.
    + apply existsb_exists in Ef. exact Ef.
    + exfalso. destruct (Href D (Hsub D HD)) as [var [Hin Hc]].
      destruct (In_remove_at_or (m_variables d) (Z.to_nat i) var Hin) as [Hin'|Hnth].
      * rewrite (Hex var D Hin' Hc) in Ef. discriminate.
      * assert (var = it).
        { unfold zlookup in Eit. destruct (i <? 0); [discriminate|]. congruence. }
        subst var. apply contains_In in Hc.
        rewrite (Hgone D Hc Ef) in HD. discriminate.
Qed.


Lemma erase_contains d dim :
  Dims.contains d dim = true -> exists d', Dims.erase d dim = Ok d'.
Proof.
  induction d as [|[l m] d IH]; cbn [Dims.contains Dims.erase]; [discriminate|].
  destruct (Dim_eqb l dim); [eauto|].
  intros H. destruct (IH H) as [d' Hd']. rewrite Hd'. cbn [bind]. eauto.
Qed.

Lemma erase_unused_returns vars : forall labels registry,
  NoDup labels -> distinct_labels registry ->
  (forall D, In D labels -> Dims.contains registry D = true) ->
  exists registry', erase_unused labels vars registry = Ok registry'.
Proof.
  induction labels as [|dim rest IH]; intros registry Hnd Hd Hall; cbn [erase_unused];
    [eauto|].
  apply NoDup_cons_iff in Hnd. destruct Hnd as [Hdim Hnd].
  destruct (existsb (fun var => Dims.contains (dimensions var) dim) vars); cbn [negb bind].
  - apply IH; [exact Hnd|exact Hd|]. intros D HD. apply Hall. now right.
  - destruct (@erase_contains registry dim (Hall dim (or_introl eq_refl))) as [r Hr].
    rewrite Hr. cbn [bind].
    destruct (@erase_Ok_spec registry dim r Hr Hd) as [Hd1 [_ [Hs1 _]]].
    apply IH; [exact Hnd|exact Hd1|]. intros D HD.
    assert (Hne : D <> dim) by (intros ->; contradiction).
    apply contains_size. rewrite (Hs1 D Hne). apply contains_size. apply Hall. now right.
Qed.

Lemma find_tag_from_lookup t : forall vars i0 i,
  0 <= i0 -> find_tag_from vars t i0 = Ok i ->
  i0 <= i /\ exists it, nth_error vars (Z.to_nat (i - i0)) = Some it.
Proof.
  induction vars as [|v vars IH]; intros i0 i Hi0; cbn [find_tag_from]; [discriminate|].
  destruct (Tag_eqb (m_type v) t).
  - intros H. inversion H; subst. split; [lia|]. exists v.
    replace (i - i) with 0 by lia. reflexivity.
  - intros H. assert (H0 : 0 <= i0 + 1) by lia.
    destruct (IH (i0 + 1) i H0 H) as [Hle [it Hit]].
    split; [lia|]. exists it.
    replace (Z.to_nat (i - i0)) with (S (Z.to_nat (i - (i0 + 1)))) by lia. exact Hit.
Qed.

Lemma Dataset_erase_returns d t i :
  Dataset_invariant d -> findUnique d t = Ok i -> exists d', Dataset_erase d t = Ok d'.
Proof.
  intros [[Hrd Hri] Hv He Href] Hi. unfold Dataset_erase. rewrite Hi. cbn [bind].
  unfold findUnique in Hi.
  destruct (count_tag (m_variables d) t =? 1); [|discriminate].
  destruct (@find_tag_from_lookup t (m_variables d) 0 i (Z.le_refl 0) Hi) as [Hle [it Hit]].
  replace (i - 0) with i in Hit by lia.
  assert (Hl : zlookup (m_variables d) i = Some it).
  { unfold zlookup. destruct (Z.ltb_spec i 0); [lia|exact Hit]. }
  rewrite Hl. pose proof (nth_error_In _ _ Hit) as Hin.
  destruct (@erase_unused_returns (remove_at (m_variables d) (Z.to_nat i))
              (Dims.labels (dimensions it)) (m_dimensions d)
              (proj1 (Hv it Hin)) Hrd) as [registry Hreg].
  - intros D HD. apply contains_In in HD. apply contains_size in HD.
    destruct HD as [n Hn]. destruct (He it Hin D n Hn) as [r [Hr _]].
    eapply size_Ok_contains; eauto.
  - rewrite Hreg. cbn [bind]. eauto.
Qed.

Lemma data_not_dimension_coordinate (var : Variable_) :
  isCoord var = false -> coordDimension (m_type var) = Invalid.
Proof. unfold isCoord. destruct (m_type var); cbn; intros H; try discriminate; reflexivity. Qed.

Lemma coordDimension_isDimensionCoord t D :
  coordDimension t = D -> D <> Invalid -> isDimensionCoord t = true.
Proof. destruct t; cbn; intros <- H; try reflexivity; congruence. Qed.

Lemma Dataset_default_invariant : Dataset_invariant Dataset_default.
Proof.
  constructor; cbn.
  - split; [constructor|tauto].
  - intros var [].
  - intros var [].
  - intros D; discriminate.
Qed.

Lemma workspace_built :
  (do d <- Dataset_insert Dataset_default workspace_tof;
   do d <- Dataset_insert d workspace_events;
   Dataset_insert d workspace_value) = Ok workspace.
Proof. reflexivity. Qed.

Lemma workspace_invariant : Dataset_invariant workspace.
Proof.
  pose proof workspace_built as H.
  destruct (Dataset_insert Dataset_default workspace_tof) as [d1|] eqn:E1; [|discriminate].
  cbn [bind] in H.
  destruct (Dataset_insert d1 workspace_events) as [d2|] eqn:E2; [|discriminate].
  cbn [bind] in H.
  assert (H1 : Dataset_invariant d1).
  { apply (@Dataset_insert_invariant Dataset_default workspace_tof d1
             Dataset_default_invariant); [solve_valid_labels|exact E1]. }
  assert (H2 : Dataset_invariant d2).
  { apply (@Dataset_insert_invariant d1 workspace_events d2 H1);
      [solve_valid_labels|exact E2]. }
  apply (@Dataset_insert_invariant d2 workspace_value workspace H2);
    [solve_valid_labels|exact H].
Qed.

(** The claim C7 as stated says that every data Variable spans every
    label of the registry.  The Dataset of [TEST(EventWorkspace, basics)]
    (here with smaller extents) is built by [insert], satisfies the
    invariant of the registry, holds [Dim::Tof] in its registry, and its
    data Variable [Data::Events] does not hold [Dim::Tof]. *)
Lemma data_variable_without_registry_label :
  (do d <- Dataset_insert Dataset_default workspace_tof;
   do d <- Dataset_insert d workspace_events;
   Dataset_insert d workspace_value) = Ok workspace
  /\ Dataset_invariant workspace
  /\ Dims.contains (m_dimensions workspace) Tof = true
  /\ In workspace_events (m_variables workspace)
  /\ isCoord workspace_events = false
  /\ Dims.contains (dimensions workspace_events) Tof = false.
Proof.
  split; [exact workspace_built|]. split; [exact workspace_invariant|].
  split; [reflexivity|]. split; [right; now left|]. split; reflexivity.
Qed.

(** C7, with "spans" read as "where it spans".  Let the Dataset [d]
    satisfy the invariant of the registry: the labels of the registry are
    distinct (one extent for each), every Variable has valid labels, every
    extent of a Variable is the one of the registry or one more where the
    Variable is the dimension coordinate of the label, and every label of
    the registry is held by some Variable.  Then a data Variable that
    holds a label has the extent of the registry for it, and a Variable
    with another extent is the dimension coordinate of the label with one
    element more; [insert] of a Variable with valid labels, [erase] of a
    tag and [merge] of a Dataset that satisfies the invariant too leave a
    Dataset that satisfies the invariant, so that after [erase] every label
    left in the registry is held by a remaining Variable; and [erase]
    returns whenever the tag is held by exactly one Variable. *)
Theorem registry_invariant_preserved (d : Dataset) :
  Dataset_invariant d ->
  (forall var D n, In var (m_variables d) -> Dims.size (dimensions var) D = Ok n ->
     exists r, Dims.size (m_dimensions d) D = Ok r
               /\ (isCoord var = false -> n = r)
               /\ (n = r \/ (isDimensionCoord (m_type var) = true
                             /\ coordDimension (m_type var) = D /\ n = r + 1)))
  /\ (forall var d', valid_labels (dimensions var) ->
                     Dataset_insert d var = Ok d' -> Dataset_invariant d')
  /\ (forall t d', Dataset_erase d t = Ok d' ->
        Dataset_invariant d'
        /\ forall D, Dims.contains (m_dimensions d') D = true ->
                     referenced (m_variables d') D)
  /\ (forall t i, findUnique d t = Ok i -> exists d', Dataset_erase d t = Ok d')
  /\ (forall other d', Dataset_invariant other ->
                       Dataset_merge d other = Ok d' -> Dataset_invariant d').
Proof.
  intros Hinv. split; [|split; [|split; [|split]]].
  - intros var D n Hin Hn. pose proof (inv_extents Hinv var Hin) as Hreg. destruct (Hreg D n Hn) as [r [Hr Hor]].
    assert (HD : D <> Invalid).
    { apply (@valid_labels_In (dimensions var) D (inv_variables Hinv var Hin)).
      eapply size_Ok_contains; eauto. }
    exists r. split; [exact Hr|]. split.
    + intros Hc. destruct Hor as [Hor|[Hc' _]]; [exact Hor|].
      rewrite (@data_not_dimension_coordinate var Hc) in Hc'. congruence.
    + destruct Hor as [Hor|[Hc Hor]]; [now left|right].
      split; [exact (@coordDimension_isDimensionCoord (m_type var) D Hc HD)|]. split; assumption.
  - intros var d' Hv Hi. exact (@Dataset_insert_invariant d var d' Hinv Hv Hi).
  - intros t d' He. pose proof (@Dataset_erase_invariant d t d' Hinv He) as Hinv'.
    split; [exact Hinv'|]. exact (inv_referenced Hinv').
  - intros t i Hi. exact (@Dataset_erase_returns d t i Hinv Hi).
  - intros other d' Ho Hm.
    exact (@Dataset_merge_invariant (m_variables other) d d' Hinv (inv_variables Ho) Hm).
Qed.

Lemma registry_invariant_preserved_witness :
  Dataset_invariant workspace
  /\ exists d', Dataset_erase workspace Data_Value = Ok d'
                /\ Dataset_invariant d'
                /\ m_dimensions d' = [(Spectrum, 2); (Tof, 3)].
Proof.
  split; [exact workspace_invariant|].
  destruct (@registry_invariant_preserved workspace workspace_invariant) as [_ [_ [He _]]].
  eexists. split; [reflexivity|].
  split; [exact (proj1 (He Data_Value _ eq_refl))|reflexivity].
Defined.


(* ===================================================================== *)
(** * Further properties of the arithmetic of Variable *)
(* ===================================================================== *)

Section TransformMore.

Variable A : Type.
Variable op : A -> A -> A.

Lemma transform_length : forall (wr rd : list Z) (buf : list A) src buf',
  transform op buf src wr rd = Ok buf' -> List.length buf' = List.length buf.
Proof.
  induction wr as [|w wr IH]; intros rd buf src buf'; cbn [transform].
  - intros H. inversion H. reflexivity.
  - destruct rd as [|r rd]; [discriminate|].
    destruct (zlookup buf w) as [x|]; [|discriminate].
    destruct (zlookup match src with Some s => s | None => buf end r) as [y|];
      [|discriminate].
    intros H. rewrite (IH _ _ _ _ H). apply zupd_length.
Qed.

(** [std::transform] over a span that is read at the positions it is
    written at: every element is read before it is overwritten. *)
Lemma transform_itself_from (todo : list A) : forall (done : list A),
  transform op (done ++ todo) None
            (span_positions (Z.of_nat (List.length done)) (Z.of_nat (List.length todo)))
            (span_positions (Z.of_nat (List.length done)) (Z.of_nat (List.length todo)))
  = Ok (done ++ map (fun x => op x x) todo).
Proof.
  induction todo as [|x todo IH]; intros done.
  - reflexivity.
  - rewrite span_positions_cons by (cbn [List.length]; lia).
    replace (Z.of_nat (List.length (x :: todo)) - 1)
      with (Z.of_nat (List.length todo)) by (cbn [List.length]; lia).
    replace (Z.of_nat (List.length done) + 1)
      with (Z.of_nat (List.length (done ++ [op x x])))
      by (rewrite length_app; cbn [List.length]; lia).
    cbn [transform].
    rewrite zlookup_app_r by lia.
    replace (Z.of_nat (List.length done) - Z.of_nat (List.length done)) with 0 by lia.
    change (zlookup (x :: todo) 0) with (Some x). cbv iota.
    rewrite zupd_app.
    replace (done ++ op x x :: todo) with ((done ++ [op x x]) ++ todo)
      by (now rewrite <- app_assoc).
    rewrite (IH (done ++ [op x x])). rewrite <- app_assoc. reflexivity.
Qed.

Lemma transform_itself (buf : list A) :
  transform op buf None (span_positions 0 (Z.of_nat (List.length buf)))
            (span_positions 0 (Z.of_nat (List.length buf)))
  = Ok (map (fun x => op x x) buf).
Proof. exact (transform_itself_from buf []). Qed.

End TransformMore.

(** ** An operand that is the left-hand side itself *)

Lemma apply_positions_itself (d : Dimensions) (n : Z) :
  apply_positions (mkGeometry d None) n (mkGeometry d None) n
  = (span_positions 0 n, span_positions 0 n).
Proof.
  unfold apply_positions, isContiguous, getSpan, getData, concept_size.
  cbn [g_view g_dims andb]. unfold Dims.isContiguousIn.
  destruct d; rewrite dims_eqb_refl; reflexivity.
Qed.

Lemma object_apply_itself op (a : Variable_) (la : list float) :
  m_model a = VecDouble la ->
  object_apply op a (operand_itself a)
  = returns (set_model a (VecDouble (map (fun x => double_op op x x) la))).
Proof.
  intros Hm. unfold object_apply, Vector_apply, operand_itself.
  cbn [o_geometry o_data]. rewrite Hm. cbn [cast_other].
  unfold apply_elements, geometry. rewrite apply_positions_itself.
  rewrite transform_itself. reflexivity.
Qed.

Lemma object_apply_elements op (a b : Variable_) (la lb : list float) :
  wf_variable a -> wf_variable b ->
  m_model a = VecDouble la -> m_model b = VecDouble lb ->
  Dims.contains_dims (dimensions a) (dimensions b) = true ->
  exists la',
    object_apply op a (operand b) = returns (set_model a (VecDouble la'))
    /\ List.length la' = List.length la
    /\ forall ix, in_range (dimensions a) ix ->
         exists x y,
           zlookup la (linear (dimensions a) ix) = Some x
           /\ zlookup lb (linear (dimensions b) ix) = Some y
           /\ zlookup la' (linear (dimensions a) ix) = Some (double_op op x y).
Proof.
  intros Ha Hb Hma Hmb Hc.
  destruct Ha as [_ Hsa Hda], Hb as [_ Hsb Hdb].
  rewrite Hma in Hsa. rewrite Hmb in Hsb. simpl in Hsa, Hsb.
  destruct (broadcast_positions Hda Hdb Hc) as [Hlen [Hix Hrd]].
  destruct (@transform_span _ (double_op op) la lb (offsets (dimensions b) (dimensions a) 0))
    as [la' [Ht [Hl Hp]]].
  { lia. }
  { intros r Hr. specialize (Hrd r Hr). lia. }
  exists la'. split; [|split; [exact Hl|]].
  - unfold object_apply, Vector_apply, operand. cbn [o_geometry o_data].
    rewrite Hma, Hmb. cbn [cast_other as_double]. unfold apply_elements, geometry.
    rewrite apply_positions_owning by (auto; lia).
    now rewrite Ht.
  - intros ix Hr. destruct (Hix ix Hr) as [Hrb Hz].
    destruct (@zlookup_in_range _ la (linear (dimensions a) ix)) as [x Hx].
    { pose proof (linear_bounds Hr). lia. }
    destruct (@zlookup_in_range _ lb (linear (dimensions b) ix)) as [y Hy].
    { pose proof (linear_bounds Hrb). lia. }
    exists x, y. repeat split; auto. eapply Hp; eauto.
Qed.

(** ** What the operators leave alone *)

Lemma Vector_apply_shape op g (this : Vector) g' other m :
  Vector_apply op g this g' other = Ok m ->
  Vector_type m = Vector_type this /\ Vector_size m = Vector_size this.
Proof.
  unfold Vector_apply, apply_elements.
  destruct this as [buf|buf|buf|buf|buf|buf];
    match goal with
    | |- context [cast_other ?c other] => destruct (cast_other c other) as [src|]
    end; try discriminate;
    try (destruct (apply_positions g (Z.of_nat (List.length buf)) g' _) as [wr rd];
         destruct (transform _ buf src wr rd) as [r|] eqn:E; cbn [bind];
         [|discriminate];
         intros H; inversion H; subst; cbn [Vector_type Vector_size];
         rewrite (transform_length _ _ _ _ _ E); auto).
Qed.

Lemma object_apply_shape op (this : Variable_) other :
  let r := fst (object_apply op this other) in
  m_type r = m_type this /\ m_name r = m_name this /\ m_unit r = m_unit this
  /\ dimensions r = dimensions this
  /\ Vector_type (m_model r) = Vector_type (m_model this)
  /\ Vector_size (m_model r) = Vector_size (m_model this).
Proof.
  unfold object_apply.
  destruct (Vector_apply op (geometry this) (m_model this) (o_geometry other)
                         (o_data other)) as [m|] eqn:E; cbn.
  - destruct (Vector_apply_shape _ _ _ _ _ E) as [H1 H2]. auto 10.
  - auto 10.
Qed.

Lemma events_loop_length dim : forall datasets others,
  List.length (fst (events_loop dim datasets others)) = List.length datasets.
Proof.
  induction datasets as [|d ds IH]; intros others; cbn [events_loop]; [reflexivity|].
  destruct others as [|o os]; [reflexivity|].
  destruct (Dataset_concatenate d o dim); [|reflexivity].
  specialize (IH os). destruct (events_loop dim ds os) as [rest e].
  cbn [fst List.length] in *. now rewrite IH.
Qed.

(** X1.  Whatever the operands, and whether they return or throw,
    [operator+=], [operator-=] and [operator*=] leave the tag, the name and
    the dimensions of the left-hand side as they were, and its data keep
    their element type and their number; [+=] and [-=] keep the unit as
    well.  A well-formed Variable stays well-formed. *)
Theorem arithmetic_keeps_shape (this : Variable_) (other : Operand) :
  Forall (fun r : Variable_ =>
            m_type r = m_type this /\ m_name r = m_name this
            /\ dimensions r = dimensions this
            /\ Vector_type (m_model r) = Vector_type (m_model this)
            /\ Vector_size (m_model r) = Vector_size (m_model this)
            /\ (wf_variable this -> wf_variable r))
         [fst (plus_equal this other); fst (minus_equal this other);
          fst (times_equal this other)]
  /\ m_unit (fst (plus_equal this other)) = m_unit this
  /\ m_unit (fst (minus_equal this other)) = m_unit this.
Proof.
  assert (Hwf : forall r : Variable_,
            m_type r = m_type this -> dimensions r = dimensions this ->
            Vector_type (m_model r) = Vector_type (m_model this) ->
            Vector_size (m_model r) = Vector_size (m_model this) ->
            wf_variable this -> wf_variable r).
  { intros r H1 H2 H3 H4 [Ht Hs Hd]. constructor; congruence. }
  assert (Hsame : m_type this = m_type this /\ m_name this = m_name this
                  /\ m_unit this = m_unit this
                  /\ dimensions this = dimensions this
                  /\ Vector_type (m_model this) = Vector_type (m_model this)
                  /\ Vector_size (m_model this) = Vector_size (m_model this))
    by auto 10.
  assert (Hplus : let r := fst (plus_equal this other) in
            m_type r = m_type this /\ m_name r = m_name this /\ m_unit r = m_unit this
            /\ dimensions r = dimensions this
            /\ Vector_type (m_model r) = Vector_type (m_model this)
            /\ Vector_size (m_model r) = Vector_size (m_model this)).
  { unfold plus_equal.
    destruct (negb (Unit_eqb (m_unit this) (o_unit other))); [exact Hsame|].
    destruct (negb (valueTypeIs this Data_Events)).
    - destruct (Dims.contains_dims _ _); [apply object_apply_shape|exact Hsame].
    - destruct (Dims.dims_eqb _ _); [|exact Hsame].
      destruct (operand_datasets this other) as [otherDatasets|]; [|exact Hsame].
      match goal with |- context [if ?c then _ else _] => destruct c end;
        [exact Hsame|].
      destruct (m_model this) as [l|l|l|l|l|datasets] eqn:Em; cbn [as_Dataset];
        try (cbn [fst throws]; rewrite Em; auto 10).
      destruct datasets as [|first rest] eqn:Ed;
        [cbn [fst throws]; rewrite Em; auto 10|].
      pose proof (events_loop_length (Dims.label (m_dimensions first) 0)
                                     (first :: rest) otherDatasets) as Hl.
      destruct (events_loop (Dims.label (m_dimensions first) 0) (first :: rest)
                            otherDatasets) as [joined e].
      cbn [fst] in Hl |- *. unfold set_model, set_object.
      cbn [m_type m_name m_unit dimensions m_model Vector_type Vector_size].
      rewrite Hl. auto 10. }
  assert (Hminus : let r := fst (minus_equal this other) in
            m_type r = m_type this /\ m_name r = m_name this /\ m_unit r = m_unit this
            /\ dimensions r = dimensions this
            /\ Vector_type (m_model r) = Vector_type (m_model this)
            /\ Vector_size (m_model r) = Vector_size (m_model this)).
  { unfold minus_equal.
    destruct (negb (Unit_eqb (m_unit this) (o_unit other))); [exact Hsame|].
    destruct (Dims.contains_dims _ _); [|exact Hsame].
    destruct (valueTypeIs this Data_Events); [exact Hsame|apply object_apply_shape]. }
  assert (Htimes : let r := fst (times_equal this other) in
            m_type r = m_type this /\ m_name r = m_name this
            /\ dimensions r = dimensions this
            /\ Vector_type (m_model r) = Vector_type (m_model this)
            /\ Vector_size (m_model r) = Vector_size (m_model this)).
  { unfold times_equal.
    destruct (negb (Dims.contains_dims _ _)); [cbn; auto 10|].
    destruct (valueTypeIs this Data_Events); [cbn; auto 10|].
    destruct (Unit_mul (m_unit this) (o_unit other)) as [u|]; [|cbn; auto 10].
    destruct (object_apply_shape multiplies (set_unit this u) other)
      as [H1 [H2 [_ [H4 [H5 H6]]]]].
    cbn zeta. auto 10. }
  cbn zeta in Hplus, Hminus, Htimes.
  destruct Hplus as [P1 [P2 [P3 [P4 [P5 P6]]]]].
  destruct Hminus as [M1 [M2 [M3 [M4 [M5 M6]]]]].
  destruct Htimes as [T1 [T2 [T4 [T5 T6]]]].
  split; [|split; assumption].
  apply Forall_cons; [|apply Forall_cons; [|apply Forall_cons; [|apply Forall_nil]]];
    (repeat (split; [assumption|])); apply Hwf; assumption.
Qed.

(** X2.  For a Variable of [double] elements, [a += a], [a -= a] and
    [a *= a] return: every element is read before it is overwritten, so the
    results hold [x + x], [x - x] and [x * x] for every element [x] of [a]
    (and [a *= a] the product of the unit with itself, when there is one). *)
Theorem arithmetic_with_itself (a : Variable_) (la : list float) :
  wf_variable a -> m_model a = VecDouble la ->
  plus_equal a (operand_itself a)
  = returns (set_model a (VecDouble (map (fun x => PrimFloat.add x x) la)))
  /\ minus_equal a (operand_itself a)
     = returns (set_model a (VecDouble (map (fun x => PrimFloat.sub x x) la)))
  /\ forall u, Unit_mul (m_unit a) (m_unit a) = Ok u ->
       times_equal a (operand_itself a)
       = returns (set_model (set_unit a u)
                            (VecDouble (map (fun x => PrimFloat.mul x x) la))).
Proof.
  intros Ha Hm. pose proof (not_events_of_double Ha Hm) as Hev.
  pose proof (contains_dims_refl (proj1 (wf_dimensions Ha))) as Hc.
  split; [|split].
  - unfold plus_equal. cbn [operand_itself o_unit o_geometry geometry g_dims].
    rewrite Unit_eqb_refl, Hev, Hc. cbn [negb].
    exact (object_apply_itself plus a Hm).
  - unfold minus_equal. cbn [operand_itself o_unit o_geometry geometry g_dims].
    rewrite Unit_eqb_refl, Hev, Hc. cbn [negb].
    exact (object_apply_itself minus a Hm).
  - intros u Hu. unfold times_equal.
    cbn [operand_itself o_unit o_geometry geometry g_dims].
    rewrite Hev, Hc, Hu. cbn [negb].
    unfold object_apply, Vector_apply, set_unit, geometry, operand_itself.
    cbn [o_geometry o_data m_model dimensions].
    rewrite Hm. cbn [cast_other]. unfold apply_elements.
    rewrite apply_positions_itself, transform_itself. reflexivity.
Qed.

Lemma arithmetic_with_itself_witness :
  wf_variable times_lhs
  /\ plus_equal times_lhs (operand_itself times_lhs)
     = returns (set_model times_lhs (VecDouble [4; 6]%float))
  /\ times_equal times_lhs (operand_itself times_lhs)
     = returns (set_model (set_unit times_lhs Area) (VecDouble [4; 9]%float)).
Proof.
  assert (Ha : wf_variable times_lhs) by solve_wf.
  destruct (@arithmetic_with_itself times_lhs [2; 3]%float Ha eq_refl) as [Hp [_ Ht]].
  split; [exact Ha|]. split; [exact Hp|exact (Ht Area eq_refl)].
Defined.

(** X3.  [a -= b] on Variables of [double] elements: with different units
    it throws and leaves [a] as it was; so it does, with equal units, when
    the dimensions of [a] do not contain those of [b]; otherwise it returns,
    and the element of the result at an index is the element of [a] there
    minus the element of [b] read by label, labels that [b] lacks not
    mattering. *)
Theorem minus_equal_elements (a b : Variable_) (la lb : list float) :
  wf_variable a -> wf_variable b ->
  m_model a = VecDouble la -> m_model b = VecDouble lb ->
  (m_unit a <> m_unit b ->
   minus_equal a (operand b)
   = throws a (runtime_error "Cannot subtract Variables: Units do not match."))
  /\ (m_unit a = m_unit b ->
      Dims.contains_dims (dimensions a) (dimensions b) = false ->
      minus_equal a (operand b)
      = throws a (runtime_error "Cannot subtract Variables: Dimensions do not match."))
  /\ (m_unit a = m_unit b ->
      Dims.contains_dims (dimensions a) (dimensions b) = true ->
      exists la',
        minus_equal a (operand b) = returns (set_model a (VecDouble la'))
        /\ List.length la' = List.length la
        /\ forall ix, in_range (dimensions a) ix ->
             exists x y,
               zlookup la (linear (dimensions a) ix) = Some x
               /\ zlookup lb (linear (dimensions b) ix) = Some y
               /\ zlookup la' (linear (dimensions a) ix) = Some (PrimFloat.sub x y)).
Proof.
  intros Ha Hb Hma Hmb. pose proof (not_events_of_double Ha Hma) as Hev.
  unfold minus_equal. cbn [operand o_unit o_geometry geometry g_dims].
  split; [|split].
  - intros Hu. destruct (Unit_eqb (m_unit a) (m_unit b)) eqn:E; [|reflexivity].
    apply Unit_eqb_eq in E. contradiction.
  - intros Hu Hc. rewrite Hu, Unit_eqb_refl, Hc. reflexivity.
  - intros Hu Hc. rewrite Hu, Unit_eqb_refl, Hc, Hev. cbn [negb].
    exact (object_apply_elements minus Ha Hb Hma Hmb Hc).
Qed.

Lemma minus_equal_elements_witness :
  wf_variable transpose_lhs /\ wf_variable transpose_rhs
  /\ exists la',
       minus_equal transpose_lhs (operand transpose_rhs)
       = returns (set_model transpose_lhs (VecDouble la'))
       /\ List.length la' = 6%nat.
Proof.
  assert (Ha : wf_variable transpose_lhs) by solve_wf.
  assert (Hb : wf_variable transpose_rhs) by solve_wf.
  split; [exact Ha|]. split; [exact Hb|].
  destruct (@minus_equal_elements transpose_lhs transpose_rhs
              [1; 2; 3; 4; 5; 6]%float [1; 3; 5; 2; 4; 6]%float
              Ha Hb eq_refl eq_refl) as [_ [_ H]].
  destruct (H eq_refl eq_refl) as [la' [He [Hl _]]].
  exists la'. split; [exact He|exact Hl].
Defined.

(** X4.  [a *= b] on Variables of [double] elements: when the dimensions
    of [a] do not contain those of [b] it throws and leaves [a] as it was,
    whatever the units; so it does when the units have no product;
    otherwise it returns with the product of the units, and the element of
    the result at an index is the element of [a] there times the element
    of [b] read by label. *)
Theorem times_equal_elements (a b : Variable_) (la lb : list float) :
  wf_variable a -> wf_variable b ->
  m_model a = VecDouble la -> m_model b = VecDouble lb ->
  (Dims.contains_dims (dimensions a) (dimensions b) = false ->
   times_equal a (operand b)
   = throws a (runtime_error "Cannot multiply Variables: Dimensions do not match."))
  /\ (Dims.contains_dims (dimensions a) (dimensions b) = true ->
      forall e, Unit_mul (m_unit a) (m_unit b) = Throw e ->
                times_equal a (operand b) = throws a e)
  /\ (Dims.contains_dims (dimensions a) (dimensions b) = true ->
      forall u, Unit_mul (m_unit a) (m_unit b) = Ok u ->
      exists la',
        times_equal a (operand b)
        = returns (set_model (set_unit a u) (VecDouble la'))
        /\ List.length la' = List.length la
        /\ forall ix, in_range (dimensions a) ix ->
             exists x y,
               zlookup la (linear (dimensions a) ix) = Some x
               /\ zlookup lb (linear (dimensions b) ix) = Some y
               /\ zlookup la' (linear (dimensions a) ix) = Some (PrimFloat.mul x y)).
Proof.
  intros Ha Hb Hma Hmb. pose proof (not_events_of_double Ha Hma) as Hev.
  unfold times_equal. cbn [operand o_unit o_geometry geometry g_dims].
  split; [|split].
  - intros Hc. rewrite Hc. reflexivity.
  - intros Hc e He. rewrite Hc, Hev, He. reflexivity.
  - intros Hc u Hu. rewrite Hc, Hev, Hu. cbn [negb].
    assert (Ha' : wf_variable (set_unit a u)) by (destruct Ha; constructor; assumption).
    exact (@object_apply_elements multiplies (set_unit a u) b la lb Ha' Hb Hma Hmb Hc).
Qed.

Lemma times_equal_elements_witness :
  wf_variable times_lhs
  /\ exists la',
       times_equal times_lhs (operand times_lhs)
       = returns (set_model (set_unit times_lhs Area) (VecDouble la'))
       /\ List.length la' = 2%nat.
Proof.
  assert (Ha : wf_variable times_lhs) by solve_wf.
  split; [exact Ha|].
  destruct (@times_equal_elements times_lhs times_lhs [2; 3]%float [2; 3]%float
              Ha Ha eq_refl eq_refl) as [_ [_ H]].
  destruct (H eq_refl Area eq_refl) as [la' [He [Hl _]]].
  exists la'. split; [exact He|exact Hl].
Defined.


(* ===================================================================== *)
(** * How range slices and [concatenate] compose *)
(* ===================================================================== *)








(** ** What [concatenate] requires *)

Lemma Tag_eqb_eq a b : Tag_eqb a b = true <-> a = b.
Proof.
  split; [|intros ->; apply Tag_eqb_refl].
  unfold Tag_eqb. destruct a, b; cbn; intros H; try reflexivity; discriminate.
Qed.





(** ** [concatenate] is associative *)





(* ===================================================================== *)
(** * Dimensions (dimensions.h) *)
(* ===================================================================== *)

(** X10.  The constructor of [Dimensions] returns exactly for the lists of
    at most six entries that hold no [Dim::Invalid] and no negative extent,
    and the value it builds holds the entries of the list, in order; the
    number of entries is checked first. *)
Theorem Dimensions_constructor (dims : list (Dim * Z)) :
  (forall d, Dims.make dims = Ok d ->
     d = dims /\ (List.length dims <= 6)%nat
     /\ Forall (fun p : Dim * Z => fst p <> Invalid /\ 0 <= snd p) dims)
  /\ ((List.length dims <= 6)%nat ->
      Forall (fun p : Dim * Z => fst p <> Invalid /\ 0 <= snd p) dims ->
      Dims.make dims = Ok dims)
  /\ ((6 < List.length dims)%nat ->
      Dims.make dims = Throw (runtime_error "At most 6 dimensions are supported.")).
Proof.
  split; [|split].
  - intros d H. unfold Dims.make in H.
    destruct (Z.ltb_spec 6 (Z.of_nat (List.length dims))); [discriminate|].
    destruct (fill_Ok _ H) as [-> Hf]. split; [reflexivity|]. split; [lia|exact Hf].
  - intros Hl Hf. apply make_succeeds_iff. auto.
  - intros Hl. unfold Dims.make.
    destruct (Z.ltb_spec 6 (Z.of_nat (List.length dims))); [reflexivity|lia].
Qed.

Lemma volume_zero d :
  extents_nonneg d -> (Dims.volume d = 0 <-> exists l, In (l, 0) d).
Proof.
  induction d as [|[l n] d IH]; intros Hn; cbn [Dims.volume].
  - split; [lia|intros [l []]].
  - apply extents_nonneg_cons in Hn. destruct Hn as [Hn0 Hn]. cbn in Hn0.
    specialize (IH Hn). split.
    + intros H. apply Z.mul_eq_0 in H. destruct H as [->|H].
      * exists l. now left.
      * destruct (proj1 IH H) as [l' Hl']. exists l'. now right.
    + intros [l' [H|H]].
      * inversion H; subst. lia.
      * rewrite (proj2 IH (ex_intro _ l' H)). lia.
Qed.

Lemma wrap_small z : - 2 ^ 63 <= z < 2 ^ 63 -> wrap 64 z = z.
Proof.
  intros H. unfold wrap. change (64 - 1) with 63.
  rewrite Z.mod_small; [lia|]. change (2 ^ 64) with (2 * 2 ^ 63). lia.
Qed.

Lemma wrap_mul a b : wrap 64 (wrap 64 a * b) = wrap 64 (a * b).
Proof.
  unfold wrap. change (64 - 1) with 63. f_equal.
  rewrite (Z.mod_eq (a + 2 ^ 63) (2 ^ 64)) by (cbv; discriminate).
  replace ((a + 2 ^ 63 - 2 ^ 64 * ((a + 2 ^ 63) / 2 ^ 64) - 2 ^ 63) * b + 2 ^ 63)
    with (a * b + 2 ^ 63 + (- ((a + 2 ^ 63) / 2 ^ 64) * b) * 2 ^ 64) by ring.
  apply Z_mod_plus_full.
Qed.

Lemma volume64_fold : forall (l : list (Dim * Z)) (acc : Z),
  fold_left (fun volume n => wrap 64 (volume * n)) (Dims.shape l) (wrap 64 acc)
  = wrap 64 (acc * Dims.volume l).
Proof.
  induction l as [|[d n] l IH]; intros acc; cbn [Dims.shape map snd fold_left Dims.volume].
  - now rewrite Z.mul_1_r.
  - change (map snd l) with (Dims.shape l). rewrite IH.
    rewrite <- Z.mul_assoc. apply wrap_mul.
Qed.

Lemma volume64_wrap (d : Dimensions) : Dims_volume64 d = wrap 64 (Dims.volume d).
Proof.
  unfold Dims_volume64. change 1 with (wrap 64 1) at 1.
  rewrite volume64_fold. f_equal. lia.
Qed.

(** X11.  [Dimensions::volume()] multiplies the extents in a 64-bit
    [gsl::index]: its result is the product of the extents wrapped to 64
    bits.  For a [Dimensions] built by the constructor whose product of
    extents is below [2^63] it is that product, it is not negative, and it
    is zero exactly when some extent is zero.  Without the bound it is
    not: the constructor accepts the extents [2^32, 2^32] and [2^62, 2],
    for which [volume()] is [0], with no extent zero, and [-2^63]. *)
Theorem Dimensions_volume (dims d : list (Dim * Z)) :
  Dims.make dims = Ok d ->
  Dims_volume64 d = wrap 64 (fold_right Z.mul 1 (Dims.shape d))
  /\ (fold_right Z.mul 1 (Dims.shape d) < 2 ^ 63 ->
      Dims_volume64 d = fold_right Z.mul 1 (Dims.shape d)
      /\ 0 <= Dims_volume64 d
      /\ (Dims_volume64 d = 0 <-> exists l, In (l, 0) d))
  /\ (Dims.make [(DimX, 2 ^ 32); (DimY, 2 ^ 32)] = Ok [(DimX, 2 ^ 32); (DimY, 2 ^ 32)]
      /\ Dims_volume64 [(DimX, 2 ^ 32); (DimY, 2 ^ 32)] = 0)
  /\ (Dims.make [(DimX, 2 ^ 62); (DimY, 2)] = Ok [(DimX, 2 ^ 62); (DimY, 2)]
      /\ Dims_volume64 [(DimX, 2 ^ 62); (DimY, 2)] = - 2 ^ 63).
Proof.
  intros H. unfold Dims.make in H.
  destruct (Z.ltb_spec 6 (Z.of_nat (List.length dims))); [discriminate|].
  destruct (fill_Ok _ H) as [-> Hf].
  assert (Hn : extents_nonneg dims).
  { unfold extents_nonneg. eapply Forall_impl; [|exact Hf]. intros p [_ Hp]. exact Hp. }
  assert (Hprod : Dims.volume dims = fold_right Z.mul 1 (Dims.shape dims)).
  { clear. unfold Dims.shape.
    induction dims as [|[l n] dims IH]; cbn [Dims.volume map fold_right snd];
      [reflexivity|]. now rewrite IH. }
  rewrite <- Hprod, volume64_wrap.
  split; [reflexivity|]. split; [|split; split; reflexivity].
  intros Hb. pose proof (volume_nonneg Hn) as Hvol.
  rewrite wrap_small by lia.
  split; [reflexivity|]. split; [exact Hvol|]. now apply volume_zero.
Qed.

Lemma Dimensions_volume_witness :
  Dims_volume64 [(DimX, 4); (DimY, 0)] = 0
  /\ Dims_volume64 [(DimX, 4); (DimY, 3)] = 12.
Proof.
  destruct (@Dimensions_volume [(DimX, 4); (DimY, 0)] _ eq_refl) as [_ [H1 _]].
  destruct (@Dimensions_volume [(DimX, 4); (DimY, 3)] _ eq_refl) as [_ [H2 _]].
  split.
  - apply (proj2 (proj2 (H1 ltac:(cbn; lia)))). exists DimY. cbn. tauto.
  - exact (proj1 (H2 ltac:(cbn; lia))).
Defined.

(** ** The six slots *)

Lemma Dims_at_slots_app d rest dim :
  Dims_at_slots (d ++ rest) dim
  = match Dims.size d dim with
    | Ok n => Ok n
    | Throw _ => Dims_at_slots rest dim
    end.
Proof.
  induction d as [|[l n] d IH]; cbn [app Dims_at_slots Dims.size]; [reflexivity|].
  destruct (Dim_eqb l dim); [reflexivity|exact IH].
Qed.

Lemma Dims_at_slots_repeat k dim :
  Dims_at_slots (repeat (Invalid, -1) k) dim
  = if Dim_eqb Invalid dim && negb (Nat.eqb k 0) then Ok (-1)
    else Throw DimensionNotFoundError.
Proof.
  induction k as [|k IH]; cbn [repeat Dims_at_slots].
  - now rewrite andb_false_r.
  - destruct (Dim_eqb Invalid dim); [reflexivity|]. rewrite IH. reflexivity.
Qed.

(** X12.  [operator[](Dim)] searches all six slots of a [Dimensions], not
    only the ones in use.  For a value of at most six entries none of
    which is [Dim::Invalid]: a label other than [Dim::Invalid] gives the
    extent of its entry when it has one, and [DimensionNotFoundError]
    otherwise; [Dim::Invalid] gives the extent [-1] of an unused slot when
    fewer than six entries are held, and throws when all six are. *)
Theorem Dimensions_index_operator (d : Dimensions) :
  (List.length d <= 6)%nat -> ~ In Invalid (Dims.labels d) ->
  (forall dim, dim <> Invalid ->
     Dims_at d dim = Dims.size d dim
     /\ (Dims.contains d dim = false -> Dims_at d dim = Throw DimensionNotFoundError))
  /\ ((List.length d < 6)%nat -> Dims_at d Invalid = Ok (-1))
  /\ (List.length d = 6%nat -> Dims_at d Invalid = Throw DimensionNotFoundError).
Proof.
  intros Hlen Hinv. unfold Dims_at, Dims_slots.
  split; [|split].
  - intros dim Hdim. rewrite Dims_at_slots_app, Dims_at_slots_repeat.
    apply not_eq_sym in Hdim. apply Dim_eqb_neq in Hdim. rewrite Hdim. cbn [andb].
    destruct (Dims.contains d dim) eqn:Ec.
    + destruct (size_contains _ _ Ec) as [n [Hn _]]. rewrite Hn.
      split; [reflexivity|discriminate].
    + rewrite (size_not_contains _ _ Ec). split; reflexivity.
  - intros Hlt. rewrite Dims_at_slots_app, Dims_at_slots_repeat.
    apply contains_false in Hinv. rewrite (size_not_contains _ _ Hinv).
    rewrite Dim_eqb_refl. cbn [andb].
    destruct (6 - List.length d)%nat eqn:E; [lia|reflexivity].
  - intros Heq. rewrite Dims_at_slots_app, Dims_at_slots_repeat.
    apply contains_false in Hinv. rewrite (size_not_contains _ _ Hinv).
    rewrite Heq. reflexivity.
Qed.

Lemma Dimensions_index_operator_witness :
  Dims_at [(DimX, 4); (DimY, 2)] DimY = Ok 2
  /\ Dims_at [(DimX, 4); (DimY, 2)] DimZ = Throw DimensionNotFoundError
  /\ Dims_at [(DimX, 4); (DimY, 2)] Invalid = Ok (-1).
Proof.
  assert (Hl : (List.length [(DimX, 4); (DimY, 2)] <= 6)%nat) by (cbn; lia).
  assert (Hi : ~ In Invalid (Dims.labels [(DimX, 4); (DimY, 2)]))
    by (cbn; intuition discriminate).
  destruct (@Dimensions_index_operator [(DimX, 4); (DimY, 2)] Hl Hi) as [H1 [H2 _]].
  split; [exact (proj1 (H1 DimY ltac:(discriminate)))|].
  split; [exact (proj2 (H1 DimZ ltac:(discriminate)) eq_refl)|].
  apply H2. cbn. lia.
Defined.

Lemma Dims_equal_slots_eq : forall a b,
  List.length a = List.length b -> (Dims_equal_slots a b = true <-> a = b).
Proof.
  induction a as [|[la na] a IH]; intros [|[lb nb] b] Hlen; try discriminate.
  - split; reflexivity.
  - cbn [Dims_equal_slots]. cbn [List.length] in Hlen.
    assert (Hlen' : List.length a = List.length b) by lia.
    destruct (Z.eqb_spec na nb) as [->|Hn]; cbn [negb].
    + destruct (Dim_eqb la lb) eqn:E; cbn [negb].
      * apply Dim_eqb_eq in E. subst lb. rewrite (IH b Hlen').
        split; [intros ->; reflexivity|intros H; now inversion H].
      * apply Dim_eqb_neq in E. split; [discriminate|intros H; inversion H; contradiction].
    + split; [discriminate|intros H; inversion H; contradiction].
Qed.

(** X13.  [operator==] on [Dimensions] compares the number of entries and
    then all six slots.  On values of at most six entries it holds exactly
    when the two hold the same labels with the same extents in the same
    order. *)
Theorem Dimensions_equal_operator (a b : Dimensions) :
  (List.length a <= 6)%nat -> (List.length b <= 6)%nat ->
  (Dims_equal a b = true <-> a = b)
  /\ Dims_equal a b = Dims.dims_eqb a b.
Proof.
  intros Ha Hb.
  assert (Hiff : Dims_equal a b = true <-> a = b).
  { unfold Dims_equal, Dims.ndim.
    destruct (Z.eqb_spec (Z.of_nat (List.length a)) (Z.of_nat (List.length b))) as [E|E];
      cbn [negb].
    - apply Nat2Z.inj in E.
      rewrite Dims_equal_slots_eq
        by (unfold Dims_slots; rewrite !length_app, !repeat_length; lia).
      unfold Dims_slots. rewrite E. split; [apply app_inv_tail|intros ->; reflexivity].
    - split; [discriminate|intros ->; contradiction]. }
  split; [exact Hiff|].
  destruct (Dims.dims_eqb a b) eqn:E.
  - apply Hiff. now apply dims_eqb_eq.
  - apply dims_eqb_neq in E. apply not_true_is_false. intros E'.
    apply Hiff in E'. contradiction.
Qed.

Lemma Dimensions_equal_operator_witness :
  Dims_equal [(DimX, 4); (DimY, 2)] [(DimY, 2); (DimX, 4)] = false.
Proof.
  assert (Hl : forall (p q : Dim * Z), (List.length [p; q] <= 6)%nat) by (intros; cbn; lia).
  rewrite (proj2 (@Dimensions_equal_operator [(DimX, 4); (DimY, 2)] [(DimY, 2); (DimX, 4)]
                    (Hl _ _) (Hl _ _))).
  reflexivity.
Defined.

Lemma Dimensions_constructor_witness :
  Dims.make [(Tof, 3); (Spectrum, 0)] = Ok [(Tof, 3); (Spectrum, 0)]
  /\ Dims.make [(Tof, 3); (Invalid, 1)] <> Ok [(Tof, 3); (Invalid, 1)].
Proof.
  destruct (@Dimensions_constructor [(Tof, 3); (Spectrum, 0)]) as [_ [H _]].
  split; [apply H; [cbn; lia|repeat constructor; cbn; discriminate]|].
  discriminate.
Defined.

(* ===================================================================== *)
(** * Tags (tags.h) *)
(* ===================================================================== *)

(** X14.  The tables [isDimensionCoord] and [coordDimension] agree: a tag
    is a dimension coordinate exactly when its dimension is not
    [Dim::Invalid]; a dimension coordinate is a coordinate; and two
    dimension coordinates with one dimension are one tag. *)
Theorem dimension_coordinate_tables (t : Tag) :
  (isDimensionCoord t = true <-> coordDimension t <> Invalid)
  /\ (isDimensionCoord t = true -> is_coord t = true)
  /\ (forall t', isDimensionCoord t = true ->
        coordDimension t = coordDimension t' -> t = t').
Proof.
  split; [|split].
  - destruct t; cbn; split; intros H; try discriminate; try reflexivity; congruence.
  - destruct t; cbn; intros H; try discriminate; reflexivity.
  - intros t'. destruct t; cbn; intros H; try discriminate;
      destruct t'; cbn; intros E; try discriminate; reflexivity.
Qed.

(* ===================================================================== *)
(** * Dataset: find (dataset.h) *)
(* ===================================================================== *)

Lemma find_from_spec (t : Tag) (name : string) : forall vars i0 i,
  find_from vars t name i0 = Ok i <->
  exists v, zlookup vars (i - i0) = Some v /\ 0 <= i - i0
    /\ Tag_eqb (m_type v) t && String.eqb (m_name v) name = true
    /\ forall j w, 0 <= j < i - i0 -> zlookup vars j = Some w ->
         Tag_eqb (m_type w) t && String.eqb (m_name w) name = false.
Proof.
  induction vars as [|v vars IH]; intros i0 i; cbn [find_from].
  - split; [discriminate|]. intros [v [H _]]. unfold zlookup in H.
    destruct (i - i0 <? 0); [discriminate|]. now destruct (Z.to_nat (i - i0)).
  - destruct (Tag_eqb (m_type v) t && String.eqb (m_name v) name) eqn:Em.
    + split.
      * intros H. injection H as <-. exists v. rewrite Z.sub_diag.
        split; [reflexivity|]. split; [lia|]. split; [exact Em|]. intros; lia.
      * intros [v' [Hl [H0 [Hm Hfirst]]]].
        destruct (Z.eq_dec (i - i0) 0) as [E|E]; [f_equal; lia|].
        rewrite (Hfirst 0 v ltac:(lia) eq_refl) in Em. discriminate.
    + rewrite (IH (i0 + 1) i). split.
      * intros [v' [Hl [H0 [Hm Hfirst]]]]. exists v'.
        split.
        { rewrite <- Hl. unfold zlookup.
          destruct (Z.ltb_spec (i - (i0 + 1)) 0); [lia|].
          destruct (Z.ltb_spec (i - i0) 0); [lia|].
          replace (Z.to_nat (i - i0)) with (S (Z.to_nat (i - (i0 + 1)))) by lia.
          reflexivity. }
        split; [lia|]. split; [exact Hm|].
        intros j w Hj Hw. destruct (Z.eq_dec j 0) as [->|Hj0].
        { cbn in Hw. injection Hw as <-. exact Em. }
        apply (Hfirst (j - 1) w); [lia|].
        rewrite <- Hw. unfold zlookup.
        destruct (Z.ltb_spec (j - 1) 0); [lia|].
        destruct (Z.ltb_spec j 0); [lia|].
        replace (Z.to_nat j) with (S (Z.to_nat (j - 1))) by lia. reflexivity.
      * intros [v' [Hl [H0 [Hm Hfirst]]]].
        assert (Hne : i - i0 <> 0).
        { intros E. rewrite E in Hl. cbn in Hl. injection Hl as <-.
          rewrite Hm in Em. discriminate. }
        exists v'. split.
        { rewrite <- Hl. unfold zlookup.
          destruct (Z.ltb_spec (i - (i0 + 1)) 0); [lia|].
          destruct (Z.ltb_spec (i - i0) 0); [lia|].
          replace (Z.to_nat (i - i0)) with (S (Z.to_nat (i - (i0 + 1)))) by lia.
          reflexivity. }
        split; [lia|]. split; [exact Hm|].
        intros j w Hj Hw. apply (Hfirst (j + 1) w); [lia|].
        rewrite <- Hw. unfold zlookup.
        destruct (Z.ltb_spec (j + 1) 0); [lia|].
        destruct (Z.ltb_spec j 0); [lia|].
        replace (Z.to_nat (j + 1)) with (S (Z.to_nat j)) by lia. reflexivity.
Qed.

Lemma find_from_count (t : Tag) (name : string) : forall vars i0,
  (find_from vars t name i0
   = Throw (runtime_error "Dataset does not contain such a variable.")
   <-> count_tag_name vars t name = 0)
  /\ (is_ok (find_from vars t name i0) = false
      -> find_from vars t name i0
         = Throw (runtime_error "Dataset does not contain such a variable.")).
Proof.
  unfold count_tag_name.
  induction vars as [|v vars IH]; intros i0; cbn [find_from filter].
  - split; [split; reflexivity|reflexivity].
  - destruct (Tag_eqb (m_type v) t && String.eqb (m_name v) name).
    + cbn [List.length is_ok]. split; [split; [discriminate|lia]|discriminate].
    + apply IH.
Qed.

(** X15.  [find(dataset, id, name)] returns the index of the first
    Variable with that tag and that name, and throws exactly when
    [count(dataset, id, name)] is zero: it returns [i] exactly when the
    Variable at [i] matches and none before it does. *)
Theorem find_first_match (d : Dataset) (t : Tag) (name : string) :
  (forall i, find d t name = Ok i <->
     exists v, zlookup (m_variables d) i = Some v
       /\ m_type v = t /\ m_name v = name
       /\ forall j w, 0 <= j < i -> zlookup (m_variables d) j = Some w ->
            ~ (m_type w = t /\ m_name w = name))
  /\ (count_tag_name (m_variables d) t name = 0 <->
      find d t name = Throw (runtime_error "Dataset does not contain such a variable."))
  /\ (0 < count_tag_name (m_variables d) t name <-> is_ok (find d t name) = true).
Proof.
  assert (Hm : forall v : Variable_, Tag_eqb (m_type v) t && String.eqb (m_name v) name = true
                         <-> m_type v = t /\ m_name v = name).
  { intros v. rewrite andb_true_iff, Tag_eqb_eq, String.eqb_eq. reflexivity. }
  unfold find. split; [|split].
  - intros i. rewrite find_from_spec, Z.sub_0_r. split.
    + intros [v [Hl [H0 [Hv Hfirst]]]]. exists v. split; [exact Hl|].
      apply Hm in Hv. destruct Hv as [Ht Hn]. split; [exact Ht|]. split; [exact Hn|].
      intros j w Hj Hw Hmw. apply Hm in Hmw. rewrite (Hfirst j w Hj Hw) in Hmw. discriminate.
    + intros [v [Hl [Ht [Hn Hfirst]]]]. exists v. split; [exact Hl|].
      split.
      { unfold zlookup in Hl. destruct (Z.ltb_spec i 0); [discriminate|lia]. }
      split; [apply Hm; now split|].
      intros j w Hj Hw. apply not_true_is_false. intros Hmw. apply Hm in Hmw.
      exact (Hfirst j w Hj Hw Hmw).
  - symmetry. apply find_from_count.
  - destruct (find_from_count t name (m_variables d) 0) as [Hiff Hno].
    assert (Hc : 0 <= count_tag_name (m_variables d) t name)
      by (unfold count_tag_name; lia).
    split.
    + intros Hpos. apply not_false_is_true. intros E.
      apply Hno in E. apply Hiff in E. lia.
    + intros Hok. destruct (Z.eq_dec (count_tag_name (m_variables d) t name) 0) as [E|E];
        [|lia]. apply Hiff in E. rewrite E in Hok. discriminate.
Qed.


(* ===================================================================== *)
(** * Point slices: [slice(var, dim, index)] and [setSlice] *)
(* ===================================================================== *)

Lemma isContiguousIn_refl d : Dims.isContiguousIn d d = true.
Proof. apply isContiguousIn_spec. now exists []. Qed.

(** A view over [target] with an extra label of extent one walks the
    positions of the view over [target]. *)
Lemma offsets_unit_cons P T dim base :
  offsets P ((dim, 1) :: T) base = offsets P T base.
Proof.
  cbn [offsets]. change (zseq 1) with [0]. cbn [flat_map].
  rewrite app_nil_r. f_equal. lia.
Qed.

(** The slab of a buffer whose outermost label is [dim]. *)
Lemma offsets_suffix (d : Dimensions) dim m base :
  wf_dims d -> ~ In dim (Dims.labels d) ->
  offsets ((dim, m) :: d) d base = span_positions base (Dims.volume d).
Proof.
  intros [Hnd Hnn] Hno.
  apply nth_error_ext. intros k.
  destruct (Nat.ltb_spec k (Z.to_nat (Dims.volume d))) as [Hk|Hk].
  - destruct (@unravel d (Z.of_nat k) Hnd Hnn) as [ix [Hr Hl]]; [lia|].
    rewrite <- !zlookup_of_nat, <- Hl.
    rewrite offsets_lookup by assumption.
    rewrite zlookup_span_positions by (now apply linear_bounds).
    rewrite stride_sum_cons_absent by assumption.
    rewrite stride_sum_linear; auto. apply incl_refl.
  - pose proof (@offsets_length ((dim, m) :: d) d base Hnn).
    pose proof (span_positions_length base (Dims.volume d)).
    rewrite (proj2 (nth_error_None (offsets ((dim, m) :: d) d base) k)) by lia.
    rewrite (proj2 (nth_error_None (span_positions base (Dims.volume d)) k)) by lia.
    reflexivity.
Qed.

Section CopyPoint.

Variable A : Type.
Variables out_dims dims_o : Dimensions.
Variables buf src : list A.
Variable dim : Dim.
Variables ob m : Z.

Hypothesis Hout : wf_dims out_dims.
Hypothesis Hother : wf_dims dims_o.
Hypothesis Hbuf : Z.of_nat (List.length buf) = Dims.volume out_dims.
Hypothesis Hsrc : Z.of_nat (List.length src) = Dims.volume dims_o.
Hypothesis Hno : Dims.contains out_dims dim = false.
Hypothesis Hsize : Dims.size dims_o dim = Ok m.
Hypothesis Hob : 0 <= ob < m.
Hypothesis Hsame : forall l, l <> dim -> Dims.size out_dims l = Dims.size dims_o l.

Lemma contiguous_point :
  Dims.isContiguousIn out_dims dims_o = true -> dims_o = (dim, m) :: out_dims.
Proof.
  intros Hc. apply isContiguousIn_spec in Hc. destruct Hc as [pre Hpre].
  pose proof (proj1 Hother) as Hnd. unfold distinct_labels in Hnd.
  assert (Hdim : ~ In dim (Dims.labels out_dims)) by (now apply contains_false).
  assert (Hpre_dim : forall l k rest, dims_o = (l, k) :: rest ++ out_dims -> l = dim).
  { intros l k rest E. destruct (Dim_eq_dec l dim) as [->|Hne]; [reflexivity|exfalso].
    assert (Hl : Dims.size dims_o l = Ok k).
    { apply size_In; [exact (proj1 Hother)|]. rewrite E. now left. }
    rewrite <- Hsame in Hl by assumption. apply size_Ok_In_labels in Hl.
    rewrite E in Hnd. unfold Dims.labels in Hnd. cbn [map fst] in Hnd.
    rewrite map_app in Hnd. apply NoDup_cons_iff in Hnd. destruct Hnd as [Hl1 _].
    apply Hl1. apply in_or_app. now right. }
  destruct pre as [|[l k] pre].
  - exfalso. apply Hdim. cbn [app] in Hpre. rewrite <- Hpre.
    eapply size_Ok_In_labels; eauto.
  - cbn [app] in Hpre. pose proof (Hpre_dim l k pre Hpre) as El.
    destruct pre as [|[l2 k2] pre].
    + cbn [app] in Hpre. rewrite Hpre in Hsize. rewrite El in Hsize, Hpre.
      cbn [Dims.size] in Hsize. rewrite Dim_eqb_refl in Hsize.
      injection Hsize as Hk. rewrite Hk in Hpre. exact Hpre.
    + exfalso. cbn [app] in Hpre.
      assert (Hl2 : l2 <> dim).
      { intros E2. rewrite Hpre in Hnd. unfold Dims.labels in Hnd.
        cbn [map fst] in Hnd. apply NoDup_cons_iff in Hnd. destruct Hnd as [Hl1 _].
        apply Hl1. left. congruence. }
      assert (Hs2 : Dims.size dims_o l2 = Ok k2).
      { apply size_In; [exact (proj1 Hother)|]. rewrite Hpre. right. now left. }
      rewrite <- Hsame in Hs2 by assumption. apply size_Ok_In_labels in Hs2.
      rewrite Hpre in Hnd. unfold Dims.labels in Hnd. cbn [map fst] in Hnd.
      apply NoDup_cons_iff in Hnd. destruct Hnd as [_ Hnd].
      rewrite map_app in Hnd. apply NoDup_cons_iff in Hnd. destruct Hnd as [Hl1 _].
      apply Hl1. apply in_or_app. now right.
Qed.

Lemma copy_list_point_positions :
  copy_list out_dims buf (mkGeometry dims_o None) src dim 0 ob (ob + 1)
  = copy_elements buf src
      (offsets dims_o out_dims (ob * stride dims_o dim))
      (offsets out_dims out_dims 0).
Proof.
  pose proof Hout as [Hod Hon]. pose proof Hother as [Hdd Hdn].
  assert (Hc : Dims.contains dims_o dim = true) by (eapply size_Ok_contains; eauto).
  unfold copy_list. rewrite Hno. cbn [bind].
  unfold getView_at. cbn [g_view g_dims bind].
  rewrite Hc, (stride_offset _ _ Hc). cbn [bind].
  unfold isContiguous. cbn [g_view andb]. rewrite isContiguousIn_refl.
  unfold getSpan_range at 1. cbn [g_dims]. rewrite Hno.
  replace (0 + (ob + 1 - ob)) with 1 by lia.
  change (0 =? 0) with true. change (1 =? 1) with true. cbn [negb andb orb bind].
  cbn [getData g_view concept_size]. rewrite Hbuf.
  rewrite <- offsets_self by assumption.
  destruct (Dims.isContiguousIn out_dims dims_o) eqn:Eo; [|reflexivity].
  pose proof (contiguous_point Eo) as E.
  assert (Hdim : ~ In dim (Dims.labels out_dims)) by (now apply contains_false).
  unfold getSpan_range. cbn [g_dims]. rewrite Hc. cbn [negb andb]. rewrite Hsize.
  cbn [bind]. replace (ob + 1 - ob) with 1 by lia.
  assert (Hvol : Dims.volume dims_o = m * Dims.volume out_dims)
    by (rewrite E; reflexivity).
  assert (Hstr : stride dims_o dim = Dims.volume out_dims)
    by (rewrite E; apply stride_cons_eq).
  assert (Hoff : forall base,
            offsets dims_o out_dims base = span_positions base (Dims.volume out_dims)).
  { intros base. rewrite E. now apply offsets_suffix. }
  rewrite Hoff.
  destruct (Z.eqb_spec m 1) as [Hm|Hm].
  - cbn [bind getData g_view concept_size]. rewrite Hsrc, Hvol, Hm.
    assert (Hob0 : ob = 0) by lia. rewrite Hob0.
    f_equal. f_equal; lia.
  - rewrite (stride_offset _ _ Hc). cbn [bind getData g_view].
    rewrite Hstr. f_equal. f_equal; lia.
Qed.

Lemma copy_list_point_spec :
  exists buf',
    copy_list out_dims buf (mkGeometry dims_o None) src dim 0 ob (ob + 1) = Ok buf'
    /\ List.length buf' = List.length buf
    /\ forall ix, in_range out_dims ix ->
         zlookup buf' (linear out_dims ix)
         = zlookup src (linear dims_o (with_index ix dim ob)).
Proof.
  rewrite copy_list_point_positions.
  pose proof Hout as [Hod Hon]. pose proof Hother as [Hdd Hdn].
  assert (Hdim : ~ In dim (Dims.labels out_dims)) by (now apply contains_false).
  set (T := (dim, 1) :: out_dims).
  assert (HT : wf_dims T).
  { split.
    - unfold T, distinct_labels, Dims.labels. cbn [map fst]. now constructor.
    - unfold T. constructor; [cbn; lia|exact Hon]. }
  assert (HsT : forall l k, Dims.size T l = Ok k ->
                            (l = dim /\ k = 1) \/ (l <> dim /\ Dims.size out_dims l = Ok k)).
  { intros l k. unfold T. cbn [Dims.size]. destruct (Dim_eqb dim l) eqn:El.
    - apply Dim_eqb_eq in El. intros H. injection H as <-. left. now split.
    - apply Dim_eqb_neq in El. intros H. right. split; [congruence|exact H]. }
  assert (Hld : incl (Dims.labels dims_o) (Dims.labels T)).
  { intros l Hin'. destruct (Dim_eq_dec l dim) as [->|Hne]; [now left|right].
    apply contains_In in Hin'. destruct (size_contains _ _ Hin') as [k [Hk _]].
    rewrite <- Hsame in Hk by assumption. eapply size_Ok_In_labels; eauto. }
  assert (Hshr : forall jx, in_range T jx ->
                            in_range dims_o (with_index jx dim (jx dim + ob))).
  { intros jx Hj. apply in_range_size; [exact Hdd|]. intros l k Hk.
    destruct (Dim_eq_dec l dim) as [->|Hne].
    - rewrite with_index_same. rewrite Hsize in Hk. injection Hk as <-.
      assert (Hd1 : Dims.size T dim = Ok 1)
        by (unfold T; cbn [Dims.size]; now rewrite Dim_eqb_refl).
      pose proof (proj1 (in_range_size jx (proj1 HT)) Hj dim _ Hd1). lia.
    - rewrite with_index_other by assumption.
      apply (proj1 (in_range_size jx (proj1 HT)) Hj). unfold T. cbn [Dims.size].
      assert (El : Dim_eqb dim l = false) by (apply Dim_eqb_neq; congruence).
      rewrite El. now rewrite Hsame. }
  assert (Hshw : forall jx, in_range out_dims jx ->
                            in_range out_dims (with_index jx dim (jx dim + 0))).
  { intros jx Hj. apply (@in_range_ext out_dims jx); [|exact Hj].
    intros l Hl. rewrite with_index_other; [reflexivity|]. intros ->. contradiction. }
  destruct (@shifted_view_positions out_dims out_dims dim 0 Hout Hout
              (incl_refl _) Hshw) as [Hwr Hnd].
  destruct (@shifted_view_positions dims_o T dim ob Hother HT Hld Hshr) as [Hrd _].
  unfold T in Hrd. rewrite offsets_unit_cons in Hrd.
  change (0 * stride out_dims dim) with 0 in Hwr, Hnd.
  destruct (@copy_elements_spec A src
              (offsets dims_o out_dims (ob * stride dims_o dim))
              (offsets out_dims out_dims 0) buf)
    as [buf' [Hc [Hlen [Hk _]]]].
  - apply Nat2Z.inj. now rewrite !offsets_length.
  - apply Hnd. apply incl_refl.
  - intros w Hw. rewrite Hbuf. now apply Hwr.
  - intros r Hr'. rewrite Hsrc. now apply Hrd.
  - exists buf'. split; [exact Hc|]. split; [exact Hlen|].
    intros ix Hix.
    set (jx := with_index ix dim 0).
    assert (Hjo : in_range out_dims jx).
    { apply (@in_range_ext out_dims ix); [|exact Hix].
      intros l Hl. unfold jx. rewrite with_index_other; [reflexivity|].
      intros ->. contradiction. }
    assert (Hj : in_range T jx).
    { unfold T. apply in_range_cons. split; [|exact Hjo].
      cbn [fst snd]. unfold jx. rewrite with_index_same. lia. }
    pose proof (@shifted_view out_dims out_dims dim 0 ix Hod Hod (incl_refl _) Hix) as Hw.
    pose proof (@shifted_view dims_o T dim ob jx Hdd (proj1 HT) Hld Hj) as Hr'.
    unfold T in Hr'. rewrite offsets_unit_cons in Hr'.
    change (0 * stride out_dims dim) with 0 in Hw.
    assert (El : linear ((dim, 1) :: out_dims) jx = linear out_dims ix).
    { cbn [linear]. unfold jx at 1. rewrite with_index_same.
      rewrite (@linear_ext out_dims jx ix); [lia|].
      intros l Hl. unfold jx. rewrite with_index_other; [reflexivity|].
      intros ->. contradiction. }
    rewrite El in Hr'.
    pose proof (linear_bounds Hix) as Hb.
    rewrite zlookup_nat in Hw, Hr' by lia.
    assert (E : linear out_dims (with_index ix dim (ix dim + 0)) = linear out_dims ix).
    { apply linear_ext. intros l Hl. rewrite with_index_other; [reflexivity|].
      intros ->. contradiction. }
    assert (E' : linear dims_o (with_index jx dim (jx dim + ob))
                 = linear dims_o (with_index ix dim ob)).
    { apply linear_ext. intros l _. unfold jx, with_index.
      rewrite Dim_eqb_refl. destruct (Dim_eqb l dim) eqn:El'; [lia|reflexivity]. }
    rewrite <- E, <- E'. exact (Hk _ _ _ Hw Hr').
Qed.

End CopyPoint.


Lemma Vector_copy_point_spec (out_dims dims_o : Dimensions) (this other : Vector)
      (dim : Dim) (ob m : Z) :
  wf_dims out_dims -> wf_dims dims_o ->
  Vector_type this = Vector_type other ->
  Vector_size this = Dims.volume out_dims ->
  Vector_size other = Dims.volume dims_o ->
  Dims.contains out_dims dim = false ->
  Dims.size dims_o dim = Ok m -> 0 <= ob < m ->
  (forall l, l <> dim -> Dims.size out_dims l = Dims.size dims_o l) ->
  exists m',
    Vector_copy out_dims this (mkGeometry dims_o None) other dim 0 ob (ob + 1) = Ok m'
    /\ Vector_type m' = Vector_type this
    /\ Vector_size m' = Vector_size this
    /\ forall ix, in_range out_dims ix ->
         element m' (linear out_dims ix)
         = element other (linear dims_o (with_index ix dim ob)).
Proof.
  intros Hout Hother Ht Hbuf Hsrc Hno Hsize Hob Hsame.
  destruct this as [buf|buf|buf|buf|buf|buf], other as [src|src|src|src|src|src];
    simpl in Ht; try discriminate; simpl in Hbuf, Hsrc;
    destruct (@copy_list_point_spec _ out_dims dims_o buf src dim ob m
                Hout Hother Hbuf Hsrc Hno Hsize Hob Hsame)
      as [buf' [Hc [Hlen Hel]]];
    eexists; (split; [unfold Vector_copy; rewrite Hc; reflexivity|]);
    (split; [reflexivity|]); (split; [simpl; now rewrite Hlen|]);
    intros ix Hix; simpl; rewrite (Hel ix Hix); reflexivity.
Qed.

Lemma erase_wf d d' dim :
  wf_dims d -> Dims.erase d dim = Ok d' -> wf_dims d'.
Proof.
  intros [Hd Hn] He.
  destruct (@erase_Ok_spec d dim d' He Hd) as [Hd' [Hno [Hs _]]].
  split; [exact Hd'|]. apply (extents_nonneg_size Hd'). intros l n Hl.
  destruct (Dim_eq_dec l dim) as [->|Hne].
  - rewrite (size_not_contains _ _ Hno) in Hl. discriminate.
  - rewrite Hs in Hl by assumption. exact (proj1 (extents_nonneg_size Hd) Hn l n Hl).
Qed.

Lemma slice_point_spec (v : Variable_) (dim : Dim) (n i : Z) :
  wf_variable v -> Dims.size (dimensions v) dim = Ok n -> 0 <= i < n ->
  exists s, slice v dim i = Ok s
    /\ m_type s = m_type v /\ m_name s = m_name v /\ m_unit s = m_unit v
    /\ wf_variable s
    /\ Dims.erase (dimensions v) dim = Ok (dimensions s)
    /\ forall ix, in_range (dimensions s) ix ->
         element (m_model s) (linear (dimensions s) ix)
         = element (m_model v) (linear (dimensions v) (with_index ix dim i)).
Proof.
  intros Hwf Hn Hi. pose proof Hwf as [Ht Hs Hd].
  assert (Hc : Dims.contains (dimensions v) dim = true) by (eapply size_Ok_contains; eauto).
  destruct (@erase_contains (dimensions v) dim Hc) as [dims He].
  pose proof (@erase_wf (dimensions v) dims dim Hd He) as Hd'.
  destruct (@erase_Ok_spec (dimensions v) dim dims He (proj1 Hd)) as [_ [Hno [Hsz _]]].
  unfold slice. rewrite He. cbn [bind].
  destruct (@setDimensions_spec v dims Hwf Hd') as [m0 [Hset [Hty0 Hsz0]]].
  rewrite Hset. cbn [bind]. unfold data_copy, geometry.
  cbn [dimensions m_model set_object].
  destruct (@Vector_copy_point_spec dims (dimensions v) m0 (m_model v) dim i n
              Hd' Hd Hty0 Hsz0 Hs Hno Hn Hi Hsz)
    as [m' [Hcopy [Hty [Hsize Hel]]]].
  rewrite Hcopy. cbn [bind]. eexists. split; [reflexivity|].
  unfold set_model, set_object. cbn [m_type m_name m_unit dimensions m_model].
  repeat (split; [reflexivity|]).
  split; [constructor; cbn [m_type m_name m_unit dimensions m_model];
          first [assumption|congruence]|].
  split; [reflexivity|]. exact Hel.
Qed.

Lemma data_copy_spec (out other : Variable_) (dim : Dim) (offset ob oe n : Z) :
  wf_variable out -> wf_variable other ->
  Vector_type (m_model out) = Vector_type (m_model other) ->
  Dims.size (dimensions out) dim = Ok n ->
  0 <= offset -> 0 <= oe - ob -> offset + (oe - ob) <= n ->
  (forall l, l <> dim -> Dims.size (dimensions out) l = Dims.size (dimensions other) l) ->
  match Dims.size (dimensions other) dim with
  | Ok m => 0 <= ob /\ oe <= m
  | Throw _ => ob = 0 /\ oe = 1
  end ->
  exists r, data_copy out other dim offset ob oe = Ok r
    /\ m_type r = m_type out /\ m_name r = m_name out /\ m_unit r = m_unit out
    /\ dimensions r = dimensions out
    /\ wf_variable r
    /\ forall ix, in_range (dimensions out) ix ->
         element (m_model r) (linear (dimensions out) ix)
         = if (offset <=? ix dim) && (ix dim <? offset + (oe - ob))
           then element (m_model other)
                  (linear (dimensions other) (with_index ix dim (ix dim - offset + ob)))
           else element (m_model out) (linear (dimensions out) ix).
Proof.
  intros [Ht Hs Hd] [Ht' Hs' Hd'] Hty Hn Ho Hdelta Hfit Hsame Hrange.
  destruct (@Vector_copy_spec (dimensions out) (dimensions other) (m_model out)
              (m_model other) dim offset ob oe n
              Hd Hd' Hty Hs Hs' Hn Ho Hdelta Hfit Hsame Hrange)
    as [m' [Hcopy [Hty' [Hsize Hel]]]].
  unfold data_copy, geometry. rewrite Hcopy. cbn [bind]. eexists. split; [reflexivity|].
  unfold set_model, set_object. cbn [m_type m_name m_unit dimensions m_model].
  repeat (split; [reflexivity|]).
  split; [constructor; cbn [m_type m_name m_unit dimensions m_model];
          first [assumption|congruence]|].
  exact Hel.
Qed.

Lemma linear_absent d ix dim j :
  Dims.contains d dim = false -> linear d (with_index ix dim j) = linear d ix.
Proof.
  intros H. apply contains_false in H. apply linear_ext. intros l Hl.
  apply with_index_other. intros ->. contradiction.
Qed.

Lemma in_range_absent d ix dim j :
  Dims.contains d dim = false -> in_range d ix -> in_range d (with_index ix dim j).
Proof.
  intros H. apply contains_false in H. apply in_range_ext. intros l Hl.
  symmetry. apply with_index_other. intros ->. contradiction.
Qed.

Lemma setSlice_spec (this s : Variable_) (dim : Dim) (n i : Z) :
  wf_variable this -> wf_variable s ->
  m_unit this = m_unit s ->
  Vector_type (m_model this) = Vector_type (m_model s) ->
  Dims.size (dimensions this) dim = Ok n -> 0 <= i < n ->
  (forall l, l <> dim ->
     Dims.size (dimensions this) l = Dims.size (dimensions s) l) ->
  Dims.contains (dimensions s) dim = false
  \/ Dims.size (dimensions s) dim = Ok n ->
  exists r, setSlice this s false dim i = Ok r
    /\ m_type r = m_type this /\ m_name r = m_name this /\ m_unit r = m_unit this
    /\ dimensions r = dimensions this
    /\ wf_variable r
    /\ forall ix, in_range (dimensions this) ix ->
         element (m_model r) (linear (dimensions this) ix)
         = if ix dim =? i
           then element (m_model s) (linear (dimensions s) (with_index ix dim 0))
           else element (m_model this) (linear (dimensions this) ix).
Proof.
  intros Hwf Hwfs Hu Hty Hn Hi Hsame Hdim.
  unfold setSlice. rewrite (proj2 (Unit_eqb_eq _ _) Hu). cbn [negb].
  assert (Hcd : Dims.contains_dims (dimensions this) (dimensions s) = true).
  { apply contains_dims_spec. intros l k Hin.
    pose proof (@size_In (dimensions s) l k (proj1 (wf_dimensions Hwfs)) Hin) as Hk.
    destruct (Dim_eq_dec l dim) as [->|Hne].
    - destruct Hdim as [Hc|Hm].
      + rewrite (size_not_contains _ _ Hc) in Hk. discriminate.
      + congruence.
    - now rewrite Hsame. }
  rewrite Hcd. cbn [negb].
  assert (Hrange : match Dims.size (dimensions s) dim with
                   | Ok m => 0 <= 0 /\ 1 <= m
                   | Throw _ => 0 = 0 /\ 1 = 1
                   end).
  { destruct Hdim as [Hc|Hm].
    - rewrite (size_not_contains _ _ Hc). split; reflexivity.
    - rewrite Hm. lia. }
  destruct (@data_copy_spec this s dim i 0 1 n Hwf Hwfs Hty Hn
              ltac:(lia) ltac:(lia) ltac:(lia) Hsame Hrange)
    as [r [Hr [H1 [H2 [H3 [H4 [H5 Hel]]]]]]].
  exists r. repeat (split; [assumption|]).
  intros ix Hix. rewrite (Hel ix Hix).
  destruct (Z.eqb_spec (ix dim) i) as [E|E].
  - replace ((i <=? ix dim) && (ix dim <? i + (1 - 0))) with true
      by (symmetry; apply andb_true_intro; split; [apply Z.leb_le|apply Z.ltb_lt]; lia).
    f_equal. apply linear_ext. intros l _. unfold with_index.
    destruct (Dim_eqb l dim); [lia|reflexivity].
  - replace ((i <=? ix dim) && (ix dim <? i + (1 - 0))) with false; [reflexivity|].
    symmetry. apply andb_false_iff.
    destruct (Z.ltb_spec (ix dim) i); [left; apply Z.leb_gt; lia|right; apply Z.ltb_ge; lia].
Qed.

Lemma volume_erase d dim n : forall d',
  Dims.erase d dim = Ok d' -> Dims.size d dim = Ok n ->
  Dims.volume d = n * Dims.volume d'.
Proof.
  induction d as [|[l m] d IH]; intros d'; cbn [Dims.erase Dims.size]; [discriminate|].
  destruct (Dim_eqb l dim).
  - intros He Hn. injection He as <-. injection Hn as <-. reflexivity.
  - intros He Hn. destruct (Dims.erase d dim) as [r|] eqn:Er; [|discriminate].
    cbn [bind] in He. injection He as <-. cbn [Dims.volume].
    rewrite (IH r eq_refl Hn). ring.
Qed.

(** X16.  [slice(var, dim, index)] of a Variable that holds [dim] with an
    extent above [index] returns a Variable with the tag, the name and the
    unit of [var], with the dimensions of [var] less [dim] (the other
    labels keep their order and their extents), and holding, at every
    index, the element [var] has at that index and [index] along [dim]. *)
Theorem slice_elements (v : Variable_) (dim : Dim) (n i : Z) :
  wf_variable v -> Dims.size (dimensions v) dim = Ok n -> 0 <= i < n ->
  exists s, slice v dim i = Ok s
    /\ m_type s = m_type v /\ m_name s = m_name v /\ m_unit s = m_unit v
    /\ wf_variable s
    /\ Dims.erase (dimensions v) dim = Ok (dimensions s)
    /\ Dims.contains (dimensions s) dim = false
    /\ (forall l, l <> dim -> Dims.size (dimensions s) l = Dims.size (dimensions v) l)
    /\ Dims.volume (dimensions v) = n * Dims.volume (dimensions s)
    /\ forall ix, in_range (dimensions s) ix ->
         element (m_model s) (linear (dimensions s) ix)
         = element (m_model v) (linear (dimensions v) (with_index ix dim i)).
Proof.
  intros Hwf Hn Hi.
  destruct (@slice_point_spec v dim n i Hwf Hn Hi)
    as [s [Hs [H1 [H2 [H3 [Hws [He Hel]]]]]]].
  destruct (@erase_Ok_spec (dimensions v) dim (dimensions s) He
              (proj1 (wf_dimensions Hwf))) as [_ [Hno [Hsz _]]].
  exists s. repeat (split; [assumption|]). split; [|exact Hel].
  exact (@volume_erase (dimensions v) dim n (dimensions s) He Hn).
Qed.

Lemma slice_elements_witness :
  exists s, slice slice_parent DimY 1 = Ok s
    /\ dimensions s = [(DimZ, 3); (DimX, 4)]
    /\ forall ix, in_range (dimensions s) ix ->
         element (m_model s) (linear (dimensions s) ix)
         = element (m_model slice_parent)
             (linear (dimensions slice_parent) (with_index ix DimY 1)).
Proof.
  destruct (@slice_elements slice_parent DimY 2 1) as [s [Hs [_ [_ [_ [_ [He [_ [_ [_ Hel]]]]]]]]]];
    [solve_wf|reflexivity|lia|].
  exists s. split; [exact Hs|]. split; [|exact Hel].
  cbn in He. now injection He as <-.
Defined.

(** X17.  [setSlice(slice, dim, index)] on a Variable that does not share
    its object with [slice], where the units and the element types agree,
    [slice] holds every label of the Variable other than [dim] with the
    same extent (in any order), and [index] is below the extent of [dim]:
    the Variable keeps its tag, name, unit and dimensions; slab [index]
    along [dim] takes the elements of [slice] (of its slab 0 if [slice]
    holds [dim] itself); every other element is kept. *)
Theorem setSlice_elements (this s : Variable_) (dim : Dim) (n i : Z) :
  wf_variable this -> wf_variable s ->
  m_unit this = m_unit s ->
  Vector_type (m_model this) = Vector_type (m_model s) ->
  Dims.size (dimensions this) dim = Ok n -> 0 <= i < n ->
  (forall l, l <> dim ->
     Dims.size (dimensions this) l = Dims.size (dimensions s) l) ->
  Dims.contains (dimensions s) dim = false
  \/ Dims.size (dimensions s) dim = Ok n ->
  exists r, setSlice this s false dim i = Ok r
    /\ m_type r = m_type this /\ m_name r = m_name this /\ m_unit r = m_unit this
    /\ dimensions r = dimensions this
    /\ wf_variable r
    /\ forall ix, in_range (dimensions this) ix ->
         element (m_model r) (linear (dimensions this) ix)
         = if ix dim =? i
           then element (m_model s) (linear (dimensions s) (with_index ix dim 0))
           else element (m_model this) (linear (dimensions this) ix).
Proof. exact (@setSlice_spec this s dim n i). Qed.

Lemma setSlice_elements_witness :
  exists r, setSlice transpose_lhs rebin_var false DimY 1 = Ok r
    /\ m_type r = m_type transpose_lhs /\ m_name r = m_name transpose_lhs
    /\ m_unit r = m_unit transpose_lhs
    /\ dimensions r = dimensions transpose_lhs
    /\ wf_variable r
    /\ forall ix, in_range (dimensions transpose_lhs) ix ->
         element (m_model r) (linear (dimensions transpose_lhs) ix)
         = if ix DimY =? 1
           then element (m_model rebin_var)
                  (linear (dimensions rebin_var) (with_index ix DimY 0))
           else element (m_model transpose_lhs) (linear (dimensions transpose_lhs) ix).
Proof.
  apply (@setSlice_elements transpose_lhs rebin_var DimY 3 1);
    [solve_wf|solve_wf|reflexivity|reflexivity|reflexivity|lia| |left; reflexivity].
  intros l Hl. destruct l; try reflexivity. contradiction.
Defined.


(** ** Slices set back one by one *)

Lemma foldM_app A S (f : S -> A -> result S) (l1 l2 : list A) : forall s,
  foldM f (l1 ++ l2) s = bind (foldM f l1 s) (foldM f l2).
Proof.
  induction l1 as [|a l1 IH]; intros s; cbn [app foldM bind]; [reflexivity|].
  destruct (f s a); cbn [bind]; [apply IH|reflexivity].
Qed.

Lemma setSlice_slices_prefix (parent d : Variable_) (dim : Dim) (n : Z) :
  wf_variable parent -> wf_variable d ->
  m_unit d = m_unit parent ->
  Vector_type (m_model d) = Vector_type (m_model parent) ->
  dimensions d = dimensions parent ->
  Dims.size (dimensions parent) dim = Ok n ->
  forall k : nat, Z.of_nat k <= n ->
  exists r,
    foldM (fun d i => do s <- slice parent dim i; setSlice d s false dim i)
          (zseq (Z.of_nat k)) d = Ok r
    /\ m_type r = m_type d /\ m_name r = m_name d /\ m_unit r = m_unit d
    /\ dimensions r = dimensions d
    /\ wf_variable r
    /\ forall ix, in_range (dimensions d) ix ->
         element (m_model r) (linear (dimensions d) ix)
         = if ix dim <? Z.of_nat k
           then element (m_model parent) (linear (dimensions d) ix)
           else element (m_model d) (linear (dimensions d) ix).
Proof.
  intros Hp Hd Hu Hty Hdims Hn. induction k as [|k IH]; intros Hk.
  - exists d. cbn [Z.of_nat zseq Z.to_nat seq map foldM].
    repeat (split; [first [reflexivity|assumption]|]).
    intros ix Hix. pose proof (proj1 (in_range_size ix (proj1 (wf_dimensions Hd))) Hix dim n) as Hi.
    rewrite Hdims in Hi. specialize (Hi Hn).
    destruct (Z.ltb_spec (ix dim) 0); [lia|reflexivity].
  - destruct IH as [r [Hr [H1 [H2 [H3 [H4 [Hwr Hel]]]]]]]; [lia|].
    replace (Z.of_nat (S k)) with (Z.of_nat k + 1) by lia.
    rewrite zseq_succ by lia. rewrite foldM_app, Hr. cbn [bind foldM].
    destruct (@slice_point_spec parent dim n (Z.of_nat k) Hp Hn ltac:(lia))
      as [s [Hs [_ [_ [Hsu [Hws [He Hsel]]]]]]].
    rewrite Hs. cbn [bind].
    destruct (@erase_Ok_spec (dimensions parent) dim (dimensions s) He
                (proj1 (wf_dimensions Hp))) as [_ [Hno [Hsz _]]].
    assert (Hrn : Dims.size (dimensions r) dim = Ok n) by (rewrite H4, Hdims; exact Hn).
    assert (Hsame : forall l, l <> dim ->
                      Dims.size (dimensions r) l = Dims.size (dimensions s) l).
    { intros l Hl. rewrite H4, Hdims. symmetry. now apply Hsz. }
    assert (Htys : Vector_type (m_model r) = Vector_type (m_model s)).
    { rewrite (wf_type Hwr), (wf_type Hws), H1.
      rewrite <- (wf_type Hd), Hty, (wf_type Hp).
      destruct (@slice_point_spec parent dim n (Z.of_nat k) Hp Hn ltac:(lia))
        as [s' [Hs' [Hst _]]].
      rewrite Hs in Hs'. injection Hs' as <-. now rewrite Hst. }
    destruct (@setSlice_spec r s dim n (Z.of_nat k) Hwr Hws
                ltac:(congruence) Htys Hrn ltac:(lia) Hsame (or_introl Hno))
      as [r' [Hr' [H1' [H2' [H3' [H4' [Hwr' Hel']]]]]]].
    rewrite Hr'. exists r'. split; [reflexivity|].
    split; [congruence|]. split; [congruence|]. split; [congruence|].
    split; [congruence|]. split; [exact Hwr'|].
    intros ix Hix. rewrite H4 in Hel'. rewrite (Hel' ix Hix), (Hel ix Hix).
    destruct (Z.eqb_spec (ix dim) (Z.of_nat k)) as [E|E].
    + replace (ix dim <? Z.of_nat k + 1) with true by (symmetry; apply Z.ltb_lt; lia).
      rewrite Hsel.
      * rewrite Hdims. f_equal. apply linear_ext. intros l _. unfold with_index.
        destruct (Dim_eqb l dim) eqn:El; [|reflexivity].
        apply Dim_eqb_eq in El. subst l. lia.
      * apply in_range_absent; [exact Hno|].
        apply in_range_size; [exact (proj1 (wf_dimensions Hws))|].
        intros l m Hm. destruct (Dim_eq_dec l dim) as [->|Hne].
        { rewrite (size_not_contains _ _ Hno) in Hm. discriminate. }
        rewrite Hsz in Hm by assumption. rewrite <- Hdims in Hm.
        exact (proj1 (in_range_size ix (proj1 (wf_dimensions Hd))) Hix l m Hm).
    + destruct (Z.ltb_spec (ix dim) (Z.of_nat k)), (Z.ltb_spec (ix dim) (Z.of_nat k + 1));
        try lia; reflexivity.
Qed.

(** X18.  Setting the slices of [parent] along [dim] one by one, at their
    own indices, into a Variable with the dimensions, the unit and the
    element type of [parent] gives that Variable the elements of
    [parent]: [slice] and [setSlice] are inverse to each other, slab by
    slab ([TEST(Variable, setSlice)]). *)
Theorem setSlice_slices_restore (parent d : Variable_) (dim : Dim) (n : Z) :
  wf_variable parent -> wf_variable d ->
  m_unit d = m_unit parent ->
  Vector_type (m_model d) = Vector_type (m_model parent) ->
  dimensions d = dimensions parent ->
  Dims.size (dimensions parent) dim = Ok n ->
  foldM (fun d i => do s <- slice parent dim i; setSlice d s false dim i) (zseq n) d
  = Ok (set_model d (m_model parent)).
Proof.
  intros Hp Hd Hu Hty Hdims Hn.
  assert (Hn0 : 0 <= n).
  { exact (proj1 (extents_nonneg_size (proj1 (wf_dimensions Hp)))
             (proj2 (wf_dimensions Hp)) dim n Hn). }
  destruct (@setSlice_slices_prefix parent d dim n Hp Hd Hu Hty Hdims Hn
              (Z.to_nat n) ltac:(lia))
    as [r [Hr [H1 [H2 [H3 [H4 [Hwr Hel]]]]]]].
  rewrite Z2Nat.id in Hr, Hel by lia. rewrite Hr. f_equal.
  apply Variable_ext; unfold set_model, set_object;
    cbn [m_type m_name m_unit dimensions m_model]; try assumption.
  - constructor; cbn [m_type m_name m_unit dimensions m_model].
    + rewrite <- Hty. exact (wf_type Hd).
    + rewrite Hdims. exact (wf_size Hp).
    + exact (wf_dimensions Hd).
  - intros ix Hix. rewrite H4 in Hix |- *. rewrite (Hel ix Hix).
    pose proof (proj1 (in_range_size ix (proj1 (wf_dimensions Hd))) Hix dim n) as Hi.
    rewrite Hdims in Hi. specialize (Hi Hn).
    destruct (Z.ltb_spec (ix dim) n); [reflexivity|lia].
Qed.

Lemma setSlice_slices_restore_witness :
  foldM (fun d i => do s <- slice setSlice_parent DimY i; setSlice d s false DimY i)
        (zseq 2) setSlice_empty
  = Ok (set_model setSlice_empty (m_model setSlice_parent)).
Proof.
  apply (@setSlice_slices_restore setSlice_parent setSlice_empty DimY 2);
    [solve_wf|solve_wf|reflexivity|reflexivity|reflexivity|reflexivity].
Defined.

(* ===================================================================== *)
(** * [permute] *)
(* ===================================================================== *)

Lemma zlookup_cons A (a : A) (l : list A) j :
  0 < j -> zlookup (a :: l) j = zlookup l (j - 1).
Proof.
  intros Hj. unfold zlookup.
  destruct (Z.ltb_spec j 0); [lia|]. destruct (Z.ltb_spec (j - 1) 0); [lia|].
  replace (Z.to_nat j) with (S (Z.to_nat (j - 1))) by lia. reflexivity.
Qed.

Lemma permute_loop_spec (v : Variable_) (dim : Dim) (n : Z) :
  wf_variable v -> Dims.size (dimensions v) dim = Ok n ->
  forall (indices : list Z) (p : Variable_) (i : Z),
  wf_variable p -> Vector_type (m_model p) = Vector_type (m_model v) ->
  dimensions p = dimensions v ->
  0 <= i -> i + Z.of_nat (List.length indices) <= n ->
  Forall (fun k => 0 <= k < n) indices ->
  exists r, permute_loop p v dim i indices = Ok r
    /\ m_type r = m_type p /\ m_name r = m_name p /\ m_unit r = m_unit p
    /\ dimensions r = dimensions v
    /\ wf_variable r
    /\ forall ix, in_range (dimensions v) ix ->
         element (m_model r) (linear (dimensions v) ix)
         = match zlookup indices (ix dim - i) with
           | Some k => element (m_model v)
                         (linear (dimensions v) (with_index ix dim k))
           | None => element (m_model p) (linear (dimensions v) ix)
           end.
Proof.
  intros Hv Hn. induction indices as [|k rest IH]; intros p i Hp Hty Hdims Hi Hlen Hks.
  - exists p. cbn [permute_loop]. repeat (split; [first [reflexivity|assumption]|]).
    intros ix _. unfold zlookup. destruct (ix dim - i <? 0); [reflexivity|].
    now destruct (Z.to_nat (ix dim - i)).
  - cbn [permute_loop]. cbn [List.length] in Hlen.
    inversion Hks as [|? ? Hk Hrest]; subst.
    assert (Hrange : match Dims.size (dimensions v) dim with
                     | Ok m => 0 <= k /\ k + 1 <= m
                     | Throw _ => k = 0 /\ k + 1 = 1
                     end) by (rewrite Hn; lia).
    destruct (@data_copy_spec p v dim i k (k + 1) n Hp Hv Hty
                ltac:(rewrite Hdims; exact Hn) Hi ltac:(lia) ltac:(lia)
                ltac:(intros; now rewrite Hdims) Hrange)
      as [p' [Hp' [H1 [H2 [H3 [H4 [Hwp' Hel]]]]]]].
    rewrite Hp'. cbn [bind].
    destruct (IH p' (i + 1) Hwp'
                ltac:(rewrite (wf_type Hwp'), H1, <- (wf_type Hp); exact Hty)
                ltac:(congruence) ltac:(lia) ltac:(lia) Hrest)
      as [r [Hr [H1' [H2' [H3' [H4' [Hwr Hel']]]]]]].
    exists r. split; [exact Hr|].
    split; [congruence|]. split; [congruence|]. split; [congruence|].
    split; [exact H4'|]. split; [exact Hwr|].
    intros ix Hix. rewrite (Hel' ix Hix). rewrite Hdims in Hel.
    destruct (Z.compare_spec (ix dim) i) as [E|E|E].
    + replace (ix dim - (i + 1)) with (-1) by lia.
      replace (ix dim - i) with 0 by lia.
      change (zlookup rest (-1)) with (@None Z). change (zlookup (k :: rest) 0) with (Some k).
      rewrite (Hel ix Hix).
      replace ((i <=? ix dim) && (ix dim <? i + (k + 1 - k))) with true
        by (symmetry; apply andb_true_intro; split; [apply Z.leb_le|apply Z.ltb_lt]; lia).
      f_equal. apply linear_ext. intros l _. unfold with_index.
      destruct (Dim_eqb l dim); [lia|reflexivity].
    + rewrite !zlookup_neg by lia. rewrite (Hel ix Hix).
      replace ((i <=? ix dim) && (ix dim <? i + (k + 1 - k))) with false; [reflexivity|].
      symmetry. apply andb_false_iff. left. apply Z.leb_gt. lia.
    + rewrite (@zlookup_cons _ k rest (ix dim - i)) by lia.
      replace (ix dim - i - 1) with (ix dim - (i + 1)) by lia.
      destruct (zlookup rest (ix dim - (i + 1))); [reflexivity|].
      rewrite (Hel ix Hix).
      replace ((i <=? ix dim) && (ix dim <? i + (k + 1 - k))) with false; [reflexivity|].
      symmetry. apply andb_false_iff. right. apply Z.ltb_ge. lia.
Qed.

Lemma permute_spec (v : Variable_) (dim : Dim) (n : Z) (indices : list Z) :
  wf_variable v -> Dims.size (dimensions v) dim = Ok n ->
  Z.of_nat (List.length indices) <= n ->
  Forall (fun k => 0 <= k < n) indices ->
  exists r, permute v dim indices = Ok r
    /\ m_type r = m_type v /\ m_name r = m_name v /\ m_unit r = m_unit v
    /\ dimensions r = dimensions v
    /\ wf_variable r
    /\ forall ix, in_range (dimensions v) ix ->
         element (m_model r) (linear (dimensions v) ix)
         = match zlookup indices (ix dim) with
           | Some k => element (m_model v)
                         (linear (dimensions v) (with_index ix dim k))
           | None => element (m_model v) (linear (dimensions v) ix)
           end.
Proof.
  intros Hv Hn Hlen Hks.
  destruct (@permute_loop_spec v dim n Hv Hn indices v 0 Hv eq_refl eq_refl
              (Z.le_refl 0) ltac:(lia) Hks)
    as [r [Hr [H1 [H2 [H3 [H4 [Hwr Hel]]]]]]].
  exists r. split; [exact Hr|]. repeat (split; [assumption|]).
  intros ix Hix. rewrite (Hel ix Hix). now rewrite Z.sub_0_r.
Qed.

(** X19.  [permute(var, dim, indices)], for at most as many indices as
    the extent of [dim], each of them below that extent: the result has the
    tag, name, unit and dimensions of [var]; slab [i] along [dim] holds
    slab [indices[i]] of [var] for every [i] below the number of indices,
    and the later slabs are those of [var].  Nothing checks that the
    indices are a permutation: an index given twice gives its slab
    twice. *)
Theorem permute_elements (v : Variable_) (dim : Dim) (n : Z) (indices : list Z) :
  wf_variable v -> Dims.size (dimensions v) dim = Ok n ->
  Z.of_nat (List.length indices) <= n ->
  Forall (fun k => 0 <= k < n) indices ->
  exists r, permute v dim indices = Ok r
    /\ m_type r = m_type v /\ m_name r = m_name v /\ m_unit r = m_unit v
    /\ dimensions r = dimensions v
    /\ wf_variable r
    /\ forall ix, in_range (dimensions v) ix ->
         element (m_model r) (linear (dimensions v) ix)
         = match zlookup indices (ix dim) with
           | Some k => element (m_model v)
                         (linear (dimensions v) (with_index ix dim k))
           | None => element (m_model v) (linear (dimensions v) ix)
           end.
Proof. exact (@permute_spec v dim n indices). Qed.

Lemma permute_elements_witness :
  exists r, permute transpose_lhs DimY [2; 2] = Ok r
    /\ m_type r = m_type transpose_lhs /\ m_name r = m_name transpose_lhs
    /\ m_unit r = m_unit transpose_lhs
    /\ dimensions r = dimensions transpose_lhs
    /\ wf_variable r
    /\ forall ix, in_range (dimensions transpose_lhs) ix ->
         element (m_model r) (linear (dimensions transpose_lhs) ix)
         = match zlookup [2; 2] (ix DimY) with
           | Some k => element (m_model transpose_lhs)
                         (linear (dimensions transpose_lhs) (with_index ix DimY k))
           | None => element (m_model transpose_lhs)
                       (linear (dimensions transpose_lhs) ix)
           end.
Proof.
  apply (@permute_elements transpose_lhs DimY 3 [2; 2]);
    [solve_wf|reflexivity|cbn; lia|repeat constructor; lia].
Defined.

(** X20.  [permute] composes as permutations do: permuting by [p] and then
    by [q], both as long as the extent of [dim], is permuting once by the
    indices [p[q[0]], p[q[1]], ...]; and permuting by [0, 1, ..., n-1]
    returns the Variable. *)
Theorem permute_compose (v : Variable_) (dim : Dim) (n : Z) (p q : list Z) :
  wf_variable v -> Dims.size (dimensions v) dim = Ok n ->
  Z.of_nat (List.length p) = n -> Z.of_nat (List.length q) = n ->
  Forall (fun k => 0 <= k < n) p -> Forall (fun k => 0 <= k < n) q ->
  permute v dim (zseq n) = Ok v
  /\ exists vp, permute v dim p = Ok vp
       /\ permute vp dim q
          = permute v dim (map (fun j => match zlookup p j with
                                         | Some k => k
                                         | None => j
                                         end) q).
Proof.
  intros Hv Hn Hlp Hlq Hp Hq.
  assert (Hn0 : 0 <= n) by lia.
  assert (Hd : distinct_labels (dimensions v)) by exact (proj1 (wf_dimensions Hv)).
  assert (Hidx : forall ix, in_range (dimensions v) ix -> 0 <= ix dim < n).
  { intros ix Hix. exact (proj1 (in_range_size ix Hd) Hix dim n Hn). }
  split.
  - assert (Hz : Forall (fun k => 0 <= k < n) (zseq n)).
    { apply Forall_forall. intros k Hk. now apply zseq_In. }
    destruct (@permute_spec v dim n (zseq n) Hv Hn
                ltac:(rewrite zseq_length; lia) Hz)
      as [r [Hr [H1 [H2 [H3 [H4 [Hwr Hel]]]]]]].
    rewrite Hr. f_equal. apply Variable_ext; try assumption.
    intros ix Hix. rewrite H4 in Hix |- *. rewrite (Hel ix Hix).
    rewrite zlookup_zseq by (now apply Hidx). f_equal.
    apply linear_ext. intros l _. unfold with_index.
    destruct (Dim_eqb l dim) eqn:El; [|reflexivity].
    apply Dim_eqb_eq in El. now subst l.
  - destruct (@permute_spec v dim n p Hv Hn ltac:(lia) Hp)
      as [vp [Hvp [H1 [H2 [H3 [H4 [Hwp Hel]]]]]]].
    exists vp. split; [exact Hvp|].
    assert (Hnp : Dims.size (dimensions vp) dim = Ok n) by (now rewrite H4).
    destruct (@permute_spec vp dim n q Hwp Hnp ltac:(lia) Hq)
      as [r [Hr [H1' [H2' [H3' [H4' [Hwr Hel']]]]]]].
    set (pq := map (fun j => match zlookup p j with Some k => k | None => j end) q).
    assert (Hpq : Forall (fun k => 0 <= k < n) pq).
    { unfold pq. apply Forall_forall. intros k Hk. apply in_map_iff in Hk.
      destruct Hk as [j [Hj Hin]]. rewrite Forall_forall in Hp, Hq.
      destruct (zlookup p j) as [k'|] eqn:Ek.
      - subst k. apply Hp. unfold zlookup in Ek. destruct (j <? 0); [discriminate|].
        eapply nth_error_In; eauto.
      - subst k. now apply Hq. }
    destruct (@permute_spec v dim n pq Hv Hn
                ltac:(unfold pq; rewrite length_map; lia) Hpq)
      as [r2 [Hr2 [H12 [H22 [H32 [H42 [Hwr2 Hel2]]]]]]].
    rewrite Hr, Hr2. f_equal. apply Variable_ext; try assumption; try congruence.
    intros ix Hix. rewrite H4', H4 in Hix |- *. rewrite H4 in Hel'.
    rewrite (Hel' ix Hix), (Hel2 ix Hix).
    pose proof (Hidx ix Hix) as Hi.
    unfold pq. rewrite zlookup_map.
    destruct (zlookup q (ix dim)) as [j|] eqn:Ej.
    + cbn [option_map].
      assert (Hj : 0 <= j < n).
      { rewrite Forall_forall in Hq. apply Hq. unfold zlookup in Ej.
        destruct (ix dim <? 0); [discriminate|]. eapply nth_error_In; eauto. }
      assert (Hixj : in_range (dimensions v) (with_index ix dim j)).
      { apply in_range_size; [exact Hd|]. intros l m Hm.
        destruct (Dim_eq_dec l dim) as [->|Hne].
        - rewrite with_index_same. congruence.
        - rewrite with_index_other by assumption.
          exact (proj1 (in_range_size ix Hd) Hix l m Hm). }
      rewrite (Hel _ Hixj). rewrite with_index_same.
      destruct (zlookup p j) as [k|] eqn:Ek.
      * f_equal. apply linear_ext. intros l _. unfold with_index.
        destruct (Dim_eqb l dim); reflexivity.
      * exfalso. unfold zlookup in Ek. destruct (Z.ltb_spec j 0); [lia|].
        apply nth_error_None in Ek. lia.
    + exfalso. unfold zlookup in Ej. destruct (Z.ltb_spec (ix dim) 0); [lia|].
      apply nth_error_None in Ej. lia.
Qed.

Lemma permute_compose_witness :
  permute transpose_lhs DimY (zseq 3) = Ok transpose_lhs
  /\ exists vp, permute transpose_lhs DimY [1; 2; 0] = Ok vp
       /\ permute vp DimY [2; 0; 1]
          = permute transpose_lhs DimY
              (map (fun j => match zlookup [1; 2; 0] j with
                             | Some k => k
                             | None => j
                             end) [2; 0; 1]).
Proof.
  apply (@permute_compose transpose_lhs DimY 3 [1; 2; 0] [2; 0; 1]);
    [solve_wf|reflexivity|reflexivity|reflexivity
    |repeat constructor; lia|repeat constructor; lia].
Defined.


(* ===================================================================== *)
(** * [RebinHelper::rebinInner]: every access is in bounds *)
(* ===================================================================== *)

Lemma zlookup_Some_ex A (l : list A) i :
  0 <= i < Z.of_nat (List.length l) -> exists x, zlookup l i = Some x.
Proof.
  intros H. unfold zlookup. destruct (Z.ltb_spec i 0); [lia|].
  destruct (nth_error l (Z.to_nat i)) eqn:E; [eauto|].
  apply nth_error_None in E. lia.
Qed.

Section RebinInner.

Variables xold xnew oldData : list float.
Variables oldSize newSize oldOffset newOffset : Z.

Hypothesis Hxold : Z.of_nat (List.length xold) = oldSize + 1.
Hypothesis Hxnew : Z.of_nat (List.length xnew) = newSize + 1.
Hypothesis HoldOffset : 0 <= oldOffset.
Hypothesis HnewOffset : 0 <= newOffset.
Hypothesis Hold : oldOffset + oldSize <= Z.of_nat (List.length oldData).

Lemma rebinInner_while_returns : forall (fuel : nat) (iold inew : Z) (newData : list float),
  0 <= iold -> 0 <= inew ->
  (oldSize - iold) + (newSize - inew) <= Z.of_nat fuel ->
  newOffset + newSize <= Z.of_nat (List.length newData) ->
  exists r,
    rebinInner_while fuel xold xnew oldData oldSize newSize oldOffset newOffset
                     iold inew newData = Ok r
    /\ List.length r = List.length newData
    /\ forall p, ~ (newOffset + inew <= p < newOffset + newSize) ->
                 zlookup r p = zlookup newData p.
Proof.
  induction fuel as [|fuel IH]; intros iold inew newData Hi Hn Hfuel Hnew.
  - cbn [rebinInner_while].
    destruct (Z.ltb_spec iold oldSize), (Z.ltb_spec inew newSize); cbn [andb];
      try lia; exists newData; auto.
  - cbn [rebinInner_while].
    destruct (Z.ltb_spec iold oldSize) as [Ho|Ho]; cbn [andb];
      [|exists newData; auto].
    destruct (Z.ltb_spec inew newSize) as [Hw|Hw]; [|exists newData; auto].
    destruct (@zlookup_Some_ex _ xold iold ltac:(lia)) as [xo_low ->].
    destruct (@zlookup_Some_ex _ xold (iold + 1) ltac:(lia)) as [xo_high ->].
    destruct (@zlookup_Some_ex _ xnew inew ltac:(lia)) as [xn_low ->].
    destruct (@zlookup_Some_ex _ xnew (inew + 1) ltac:(lia)) as [xn_high ->].
    destruct (PrimFloat.leb xn_high xo_low).
    { destruct (IH iold (inew + 1) newData ltac:(lia) ltac:(lia) ltac:(lia) Hnew)
        as [r [Hr [Hlen Hp]]].
      exists r. split; [exact Hr|]. split; [exact Hlen|].
      intros p Hnp. apply Hp. lia. }
    destruct (PrimFloat.leb xo_high xn_low).
    { destruct (IH (iold + 1) inew newData ltac:(lia) ltac:(lia) ltac:(lia) Hnew)
        as [r [Hr [Hlen Hp]]].
      exists r. split; [exact Hr|]. split; [exact Hlen|]. exact Hp. }
    destruct (@zlookup_Some_ex _ newData (newOffset + inew) ltac:(lia)) as [n ->].
    destruct (@zlookup_Some_ex _ oldData (oldOffset + iold) ltac:(lia)) as [o ->].
    cbv zeta.
    set (newData' := zupd newData (newOffset + inew) _).
    assert (Hlen' : List.length newData' = List.length newData)
      by (unfold newData'; apply zupd_length).
    assert (Hframe : forall p, ~ (newOffset + inew <= p < newOffset + newSize) ->
                               zlookup newData' p = zlookup newData p).
    { intros p Hnp. unfold newData'. apply zlookup_zupd_ne. lia. }
    destruct (PrimFloat.ltb xo_high xn_high).
    + destruct (IH (iold + 1) inew newData' ltac:(lia) ltac:(lia) ltac:(lia)
                  ltac:(rewrite Hlen'; exact Hnew))
        as [r [Hr [Hlen Hp]]].
      exists r. split; [exact Hr|]. split; [congruence|].
      intros p Hnp. rewrite (Hp p Hnp). now apply Hframe.
    + destruct (IH iold (inew + 1) newData' ltac:(lia) ltac:(lia) ltac:(lia)
                  ltac:(rewrite Hlen'; exact Hnew))
        as [r [Hr [Hlen Hp]]].
      exists r. split; [exact Hr|]. split; [congruence|].
      intros p Hnp. rewrite (Hp p ltac:(lia)). now apply Hframe.
Qed.

End RebinInner.

Lemma volume_resize d dim : forall n n' d',
  Dims.size d dim = Ok n -> Dims.resize d dim n' = Ok d' ->
  Dims.volume d * n' = Dims.volume d' * n.
Proof.
  induction d as [|[l m] d IH]; intros n n' d'; cbn [Dims.size Dims.resize];
    [discriminate|].
  destruct (Dim_eqb l dim).
  - intros Hn Hr. injection Hn as <-. injection Hr as <-. cbn [Dims.volume]. lia.
  - intros Hn Hr. destruct (Dims.resize d dim n') as [r|] eqn:Er; [|discriminate].
    cbn [bind] in Hr. injection Hr as <-. cbn [Dims.volume].
    pose proof (IH n n' r Hn Er) as H.
    transitivity (m * (Dims.volume d * n')); [ring|rewrite H; ring].
Qed.

Lemma volume_size_divides d dim n :
  Dims.size d dim = Ok n -> exists count, Dims.volume d = count * n
    /\ (extents_nonneg d -> 0 <= count).
Proof.
  induction d as [|[l m] d IH]; cbn [Dims.size]; [discriminate|].
  destruct (Dim_eqb l dim).
  - intros H. injection H as <-. exists (Dims.volume d). cbn [Dims.volume].
    split; [lia|]. intros Hn. apply extents_nonneg_cons in Hn. now apply volume_nonneg.
  - intros H. destruct (IH H) as [c [Hc Hc0]]. exists (m * c). cbn [Dims.volume].
    split; [rewrite Hc; lia|]. intros Hn. apply extents_nonneg_cons in Hn.
    cbn in Hn. destruct Hn as [Hm Hn]. specialize (Hc0 Hn). nia.
Qed.

(** X21.  [rebinInner] on the data of a Variable with dimensions
    [oldDims] and of the Variable with the extent of [dim] resized to
    [newSize], with [oldSize + 1] old edges and [newSize + 1] new edges,
    [oldSize] not zero: it returns, whatever the values of the edges and of
    the data (sorted or not, finite or not).  Every pass of the [while]
    loop moves one of the two bin indices up, so the loop ends within
    [oldSize + newSize] passes; every read of an edge, every read of the
    old data and every update of the new data is inside its vector; and
    the new data keep their length. *)
Theorem rebinInner_returns (dim : Dim) (oldDims newDims : Dimensions)
        (oldData newData xold xnew : list float) (oldSize newSize : Z) :
  extents_nonneg oldDims ->
  Dims.size oldDims dim = Ok oldSize -> 0 < oldSize -> 0 <= newSize ->
  Dims.resize oldDims dim newSize = Ok newDims ->
  Z.of_nat (List.length oldData) = Dims.volume oldDims ->
  Z.of_nat (List.length newData) = Dims.volume newDims ->
  Z.of_nat (List.length xold) = oldSize + 1 ->
  Z.of_nat (List.length xnew) = newSize + 1 ->
  exists r, rebinInner dim oldDims oldData newDims newData xold xnew = Ok r
            /\ List.length r = List.length newData.
Proof.
  intros Hnn Hos Hpos Hns Hr Hold Hnew Hxo Hxn.
  assert (Hnsz : Dims.size newDims dim = Ok newSize).
  { assert (Hc : Dims.contains oldDims dim = true) by (eapply size_Ok_contains; eauto).
    destruct (@resize_spec oldDims dim newSize Hc) as [d' [Hr' [_ [Hs _]]]].
    congruence. }
  destruct (volume_size_divides _ _ Hos) as [count [Hcount Hc0]].
  specialize (Hc0 Hnn).
  pose proof (@volume_resize oldDims dim oldSize newSize newDims Hos Hr) as Hvol.
  assert (Hnewvol : Dims.volume newDims = count * newSize) by nia.
  unfold rebinInner. rewrite Hos, Hnsz. cbn [bind].
  destruct (Z.eqb_spec oldSize 0) as [?|_]; [lia|].
  rewrite Hcount, Z.quot_mul by lia.
  assert (Hloop : forall (k : nat) (data : list float),
            Z.of_nat k <= count -> List.length data = List.length newData ->
            exists r,
              foldM (fun data c =>
                       rebinInner_while (Z.to_nat (oldSize + newSize)) xold xnew oldData
                                        oldSize newSize (c * oldSize) (c * newSize) 0 0 data)
                    (zseq (Z.of_nat k)) data = Ok r
              /\ List.length r = List.length newData).
  { induction k as [|k IH]; intros data Hk Hlen.
    - exists data. split; [reflexivity|exact Hlen].
    - destruct (IH data ltac:(lia) Hlen) as [r [Hfold Hlr]].
      replace (Z.of_nat (S k)) with (Z.of_nat k + 1) by lia.
      rewrite zseq_succ by lia. rewrite foldM_app, Hfold. cbn [bind foldM].
      destruct (@rebinInner_while_returns xold xnew oldData oldSize newSize
                  (Z.of_nat k * oldSize) (Z.of_nat k * newSize)
                  Hxo Hxn ltac:(nia) ltac:(nia) ltac:(nia)
                  (Z.to_nat (oldSize + newSize)) 0 0 r
                  (Z.le_refl 0) (Z.le_refl 0) ltac:(lia)
                  ltac:(rewrite Hlr; nia))
        as [r' [Hr' [Hlen' _]]].
      rewrite Hr'. exists r'. split; [reflexivity|congruence]. }
  destruct (Hloop (Z.to_nat count) newData ltac:(lia) eq_refl) as [r [Hfold Hlr]].
  rewrite Z2Nat.id in Hfold by lia. exists r. split; assumption.
Qed.

Lemma rebinInner_returns_witness :
  exists r, rebinInner DimX [(DimY, 2); (DimX, 2)] [1; 2; 3; 4]%float
                       [(DimY, 2); (DimX, 1)] [0; 0]%float
                       [1; 2; 3]%float [1; 3]%float = Ok r
            /\ List.length r = List.length [0; 0]%float.
Proof.
  apply (@rebinInner_returns DimX [(DimY, 2); (DimX, 2)] [(DimY, 2); (DimX, 1)]
           [1; 2; 3; 4]%float [0; 0]%float [1; 2; 3]%float [1; 3]%float 2 1);
    try reflexivity; try lia.
  repeat constructor; cbn; lia.
Defined.


(* ===================================================================== *)
(** * Slice (dataset.h) *)
(* ===================================================================== *)

Lemma zseq_sorted_from (k : nat) : forall a : nat,
  StronglySorted Z.lt (map Z.of_nat (seq a k)).
Proof.
  induction k as [|k IH]; intros a; cbn [seq map]; constructor; [apply IH|].
  apply Forall_forall. intros x Hx. apply in_map_iff in Hx.
  destruct Hx as [y [<- Hy]]. apply in_seq in Hy. lia.
Qed.

Lemma zseq_sorted n : StronglySorted Z.lt (zseq n).
Proof. unfold zseq. apply zseq_sorted_from. Qed.

Lemma filter_sorted (f : Z -> bool) (l : list Z) :
  StronglySorted Z.lt l -> StronglySorted Z.lt (filter f l).
Proof.
  induction 1 as [|a l Hs IH Ha]; cbn [filter]; [constructor|].
  destruct (f a); [|exact IH]. constructor; [exact IH|].
  rewrite Forall_forall in *. intros x Hx. apply filter_In in Hx. now apply Ha.
Qed.

Lemma Slice_overwrite_None slices dim b e :
  Slice_overwrite slices dim b e = None
  <-> ~ In dim (map (fun sl : Dim * Z * Z => fst (fst sl)) slices).
Proof.
  induction slices as [|[[d b0] e0] rest IH]; cbn [Slice_overwrite map fst In].
  - tauto.
  - destruct (Dim_eqb d dim) eqn:E.
    + apply Dim_eqb_eq in E. split; [discriminate|tauto].
    + apply Dim_eqb_neq in E.
      destruct (Slice_overwrite rest dim b e) as [l|].
      * split; [discriminate|]. intros H. exfalso. apply H. right.
        destruct (in_dec Dim_eq_dec dim
                    (map (fun sl : Dim * Z * Z => fst (fst sl)) rest)) as [Hin|Hno];
          [exact Hin|]. apply IH in Hno. discriminate.
      * split; [|reflexivity]. intros _ [H|H]; [contradiction|]. now apply IH.
Qed.

Lemma Slice_overwrite_Some slices dim b e : forall slices',
  Slice_overwrite slices dim b e = Some slices' ->
  NoDup (map (fun sl : Dim * Z * Z => fst (fst sl)) slices) ->
  In dim (map (fun sl : Dim * Z * Z => fst (fst sl)) slices)
  /\ map (fun sl : Dim * Z * Z => fst (fst sl)) slices'
     = map (fun sl : Dim * Z * Z => fst (fst sl)) slices
  /\ slices' = map (fun sl : Dim * Z * Z =>
                      if Dim_eqb (fst (fst sl)) dim then (dim, b, e) else sl) slices.
Proof.
  induction slices as [|[[d b0] e0] rest IH]; intros slices';
    cbn [Slice_overwrite map fst]; [discriminate|].
  intros H Hnd. apply NoDup_cons_iff in Hnd. destruct Hnd as [Hd Hnd].
  destruct (Dim_eqb d dim) eqn:E.
  - apply Dim_eqb_eq in E. subst d. injection H as <-.
    split; [now left|]. split; [reflexivity|]. f_equal.
    clear IH. induction rest as [|[[d1 b1] e1] rest IH1]; [reflexivity|].
    cbn [map fst In] in *. apply NoDup_cons_iff in Hnd. destruct Hnd as [_ Hnd].
    assert (E1 : Dim_eqb d1 dim = false) by (apply Dim_eqb_neq; tauto).
    rewrite E1. f_equal. apply IH1; tauto.
  - destruct (Slice_overwrite rest dim b e) as [rest'|] eqn:Er; [|discriminate].
    injection H as <-. destruct (IH rest' eq_refl Hnd) as [Hin [Hl Hm]].
    split; [now right|]. cbn [map fst]. split; [now rewrite Hl|]. now rewrite <- Hm.
Qed.

Lemma Slice_drop_spec vars dim : forall indices,
  Forall (fun i => 0 <= i < Z.of_nat (List.length vars)) indices ->
  Slice_drop vars indices dim
  = Ok (filter (fun i => match zlookup vars i with
                         | Some var => negb (Dim_eqb (coordDimension (m_type var)) dim)
                         | None => true
                         end) indices).
Proof.
  induction indices as [|i rest IH]; intros Hv; cbn [Slice_drop filter]; [reflexivity|].
  inversion Hv as [|? ? Hi Hrest]; subst.
  destruct (@zlookup_Some_ex _ vars i Hi) as [var Hvar]. rewrite Hvar.
  rewrite (IH Hrest). cbn [bind].
  destruct (Dim_eqb (coordDimension (m_type var)) dim); reflexivity.
Qed.

Lemma Slice_call_spec (s : Slice) (dim : Dim) (b e : Z) :
  Slice_invariant s ->
  exists s',
    Slice_call s dim b e = Ok s'
    /\ Slice_invariant s'
    /\ m_dataset s' = m_dataset s
    /\ (In dim (map (fun sl : Dim * Z * Z => fst (fst sl)) (m_slices s)) ->
        m_indices s' = m_indices s
        /\ m_slices s' = map (fun sl : Dim * Z * Z =>
                                if Dim_eqb (fst (fst sl)) dim then (dim, b, e) else sl)
                             (m_slices s))
    /\ (~ In dim (map (fun sl : Dim * Z * Z => fst (fst sl)) (m_slices s)) ->
        m_slices s' = m_slices s ++ [(dim, b, e)]
        /\ m_indices s'
           = if e =? -1
             then filter (fun i => match zlookup (m_variables (m_dataset s)) i with
                                   | Some var =>
                                       negb (Dim_eqb (coordDimension (m_type var)) dim)
                                   | None => true
                                   end) (m_indices s)
             else m_indices s).
Proof.
  intros [Hs Hv Hnd]. unfold Slice_call.
  destruct (Slice_overwrite (m_slices s) dim b e) as [slices|] eqn:Eo.
  - destruct (Slice_overwrite_Some _ _ _ _ Eo Hnd) as [Hin [Hl Hm]].
    eexists. split; [reflexivity|]. cbn [m_dataset m_indices m_slices].
    split; [constructor; cbn [m_dataset m_indices m_slices]; [assumption|assumption|]|].
    { now rewrite Hl. }
    split; [reflexivity|]. split; [intros _; split; [reflexivity|exact Hm]|].
    intros Hno. contradiction.
  - pose proof (proj1 (Slice_overwrite_None _ _ _ _) Eo) as Hno.
    assert (Hnd' : NoDup (map (fun sl : Dim * Z * Z => fst (fst sl))
                              (m_slices s ++ [(dim, b, e)]))).
    { rewrite map_app. cbn [map fst].
      apply NoDup_app; [exact Hnd|repeat constructor; intros []|].
      intros x Hx [Hx'|[]]. subst x. contradiction. }
    destruct (Z.eqb_spec e (-1)) as [He|He].
    + rewrite (@Slice_drop_spec (m_variables (m_dataset s)) dim (m_indices s) Hv). cbn [bind].
      eexists. split; [reflexivity|]. cbn [m_dataset m_indices m_slices].
      split.
      { constructor; cbn [m_dataset m_indices m_slices].
        - now apply filter_sorted.
        - apply Forall_forall. intros i Hi. apply filter_In in Hi.
          rewrite Forall_forall in Hv. now apply Hv.
        - exact Hnd'. }
      split; [reflexivity|]. split; [intros Hin; contradiction|].
      intros _. split; reflexivity.
    + eexists. split; [reflexivity|]. cbn [m_dataset m_indices m_slices].
      split; [constructor; cbn [m_dataset m_indices m_slices]; assumption|].
      split; [reflexivity|]. split; [intros Hin; contradiction|].
      intros _. split; reflexivity.
Qed.

Lemma zseq_valid (n : nat) : Forall (fun i => 0 <= i < Z.of_nat n) (zseq (Z.of_nat n)).
Proof. apply Forall_forall. intros i Hi. now apply zseq_In. Qed.

Lemma Slice_all_invariant (d : Dataset) : Slice_invariant (Slice_all d).
Proof.
  constructor; cbn [Slice_all m_dataset m_indices m_slices map];
    [apply zseq_sorted|apply zseq_valid|constructor].
Qed.

Lemma Slice_select_invariant (d : Dataset) (select : string) :
  Slice_invariant (Slice_select d select).
Proof.
  constructor; cbn [Slice_select m_dataset m_indices m_slices map].
  - apply filter_sorted, zseq_sorted.
  - apply Forall_forall. intros i Hi. apply filter_In in Hi.
    pose proof (zseq_valid (List.length (m_variables d))) as H.
    rewrite Forall_forall in H. now apply H.
  - constructor.
Qed.

(** X22.  The two constructors of [Slice] build, and [operator()] keeps,
    a selection whose indices are increasing positions of the Dataset and
    whose restrictions name no dimension twice; on such a [Slice],
    [operator()] returns (it never reads past the end of the Dataset),
    refers to the same Dataset, and selects no Variable that was not
    selected before. *)
Theorem Slice_invariant_preserved (d : Dataset) (select : string) :
  Slice_invariant (Slice_all d)
  /\ Slice_invariant (Slice_select d select)
  /\ forall s dim b e, Slice_invariant s ->
       exists s', Slice_call s dim b e = Ok s'
                  /\ Slice_invariant s'
                  /\ m_dataset s' = m_dataset s
                  /\ incl (m_indices s') (m_indices s)
                  /\ Slice_size s' <= Slice_size s.
Proof.
  split; [apply Slice_all_invariant|]. split; [apply Slice_select_invariant|].
  - intros s dim b e Hinv.
    destruct (@Slice_call_spec s dim b e Hinv) as [s' [Hc [Hinv' [Hd [Hold Hnew]]]]].
    exists s'. split; [exact Hc|]. split; [exact Hinv'|]. split; [exact Hd|].
    assert (Hincl : m_indices s' = m_indices s
                    \/ exists f, m_indices s' = filter f (m_indices s)).
    { destruct (in_dec Dim_eq_dec dim
                  (map (fun sl : Dim * Z * Z => fst (fst sl)) (m_slices s))) as [Hin|Hno].
      - left. exact (proj1 (Hold Hin)).
      - destruct (Hnew Hno) as [_ Hi]. destruct (e =? -1); [right; eauto|now left]. }
    unfold Slice_size. destruct Hincl as [->|[f ->]].
    + split; [apply incl_refl|lia].
    + split; [apply incl_filter|]. pose proof (filter_length_le f (m_indices s)). lia.
Qed.

(** X23.  [Slice::operator()(dim, begin, end)] on a [Slice] whose
    restrictions name no dimension twice.  When [dim] is restricted
    already, the new bounds replace the old ones where they stand, and the
    selection of Variables is left as it is, also when [end] is [-1]: a
    point slice of a dimension that was range-sliced before keeps the
    coordinate of that dimension.  When [dim] is not restricted yet, the
    restriction is appended, and on a point slice ([end = -1]) exactly the
    selected Variables whose coordinate dimension is [dim] are dropped. *)
Theorem Slice_call_restricts (s : Slice) (dim : Dim) (b e : Z) :
  Slice_invariant s ->
  exists s',
    Slice_call s dim b e = Ok s'
    /\ (In dim (map (fun sl : Dim * Z * Z => fst (fst sl)) (m_slices s)) ->
        m_indices s' = m_indices s
        /\ m_slices s' = map (fun sl : Dim * Z * Z =>
                                if Dim_eqb (fst (fst sl)) dim then (dim, b, e) else sl)
                             (m_slices s))
    /\ (~ In dim (map (fun sl : Dim * Z * Z => fst (fst sl)) (m_slices s)) ->
        m_slices s' = m_slices s ++ [(dim, b, e)]
        /\ (e <> -1 -> m_indices s' = m_indices s)
        /\ (e = -1 ->
            forall i, In i (m_indices s') <->
              In i (m_indices s)
              /\ exists var, zlookup (m_variables (m_dataset s)) i = Some var
                             /\ coordDimension (m_type var) <> dim)).
Proof.
  intros Hinv.
  destruct (@Slice_call_spec s dim b e Hinv) as [s' [Hc [_ [_ [Hold Hnew]]]]].
  exists s'. split; [exact Hc|]. split; [exact Hold|].
  intros Hno. destruct (Hnew Hno) as [Hsl Hi]. split; [exact Hsl|]. split.
  - intros He. apply Z.eqb_neq in He. now rewrite He in Hi.
  - intros He. subst e. change (-1 =? -1) with true in Hi. cbv iota in Hi. intros i. rewrite Hi, filter_In. split.
    + intros [Hin Hf]. split; [exact Hin|].
      pose proof (inv_indices Hinv) as Hv. rewrite Forall_forall in Hv.
      destruct (@zlookup_Some_ex _ (m_variables (m_dataset s)) i (Hv i Hin)) as [var Hvar].
      exists var. split; [exact Hvar|]. rewrite Hvar in Hf.
      apply negb_true_iff, Dim_eqb_neq in Hf. exact Hf.
    + intros [Hin [var [Hvar Hne]]]. split; [exact Hin|]. rewrite Hvar.
      apply negb_true_iff, Dim_eqb_neq. exact Hne.
Qed.

Lemma Slice_call_restricts_witness :
  exists s', Slice_call (Slice_all workspace) Tof 0 (-1) = Ok s'
             /\ m_slices s' = [(Tof, 0, -1)]
             /\ forall i, In i (m_indices s') <->
                  In i (m_indices (Slice_all workspace))
                  /\ exists var, zlookup (m_variables workspace) i = Some var
                                 /\ coordDimension (m_type var) <> Tof.
Proof.
  destruct (@Slice_call_restricts (Slice_all workspace) Tof 0 (-1)
              (Slice_all_invariant workspace))
    as [s' [Hc [_ Hnew]]].
  exists s'. split; [exact Hc|].
  destruct (Hnew ltac:(cbn; tauto)) as [Hsl [_ Hi]].
  split; [exact Hsl|]. exact (Hi eq_refl).
Defined.

Lemma Slice_dimensions_fold (dim : Dim) : forall (sls : list (Dim * Z * Z)) (size0 : Z),
  (~ In dim (map (fun sl : Dim * Z * Z => fst (fst sl)) sls) ->
   fold_left (fun size (sl : Dim * Z * Z) =>
                if Dim_eqb (fst (fst sl)) dim
                then if snd sl =? -1 then -1 else snd sl - snd (fst sl)
                else size) sls size0 = size0)
  /\ (NoDup (map (fun sl : Dim * Z * Z => fst (fst sl)) sls) ->
      forall b e, In (dim, b, e) sls ->
      fold_left (fun size (sl : Dim * Z * Z) =>
                   if Dim_eqb (fst (fst sl)) dim
                   then if snd sl =? -1 then -1 else snd sl - snd (fst sl)
                   else size) sls size0 = if e =? -1 then -1 else e - b).
Proof.
  induction sls as [|[[d b0] e0] rest IH]; intros size0; cbn [map fst snd In fold_left].
  - split; [reflexivity|]. intros _ b e [].
  - split.
    + intros Hno. assert (E : Dim_eqb d dim = false) by (apply Dim_eqb_neq; tauto).
      rewrite E. apply IH. tauto.
    + intros Hnd b e Hin. apply NoDup_cons_iff in Hnd. destruct Hnd as [Hd Hnd].
      destruct Hin as [Hin|Hin].
      * injection Hin as Ed Eb Ee. subst d b0 e0. rewrite Dim_eqb_refl.
        exact (proj1 (IH _) Hd).
      * assert (E : Dim_eqb d dim = false).
        { apply Dim_eqb_neq. intros ->. apply Hd.
          apply in_map_iff. exists (dim, b, e). split; [reflexivity|exact Hin]. }
        rewrite E. exact (proj2 (IH _) Hnd b e Hin).
Qed.

(** X24.  [Slice::dimensions()] on a [Slice] whose restrictions name no
    dimension twice lists the labels of the registry of the Dataset, in
    the order of the registry: a dimension that is not restricted has the
    extent of the registry, a range-sliced one [end - begin], and a
    point-sliced one stays in the list, with the extent [-1]. *)
Theorem Slice_dimensions_extents (s : Slice) :
  Slice_invariant s ->
  map fst (Slice_dimensions s) = Dims.labels (m_dimensions (m_dataset s))
  /\ forall dim n, In (dim, n) (m_dimensions (m_dataset s)) ->
       (~ In dim (map (fun sl : Dim * Z * Z => fst (fst sl)) (m_slices s)) ->
        In (dim, n) (Slice_dimensions s))
       /\ (forall b e, In (dim, b, e) (m_slices s) ->
           In (dim, if e =? -1 then -1 else e - b) (Slice_dimensions s)).
Proof.
  intros Hinv. unfold Slice_dimensions. split.
  - rewrite map_map. reflexivity.
  - intros dim n Hin. split.
    + intros Hno. apply in_map_iff. exists (dim, n). split; [|exact Hin].
      cbn [fst snd]. f_equal.
      exact (proj1 (Slice_dimensions_fold dim (m_slices s) n) Hno).
    + intros b e Hsl. apply in_map_iff. exists (dim, n). split; [|exact Hin].
      cbn [fst snd]. f_equal.
      exact (proj2 (Slice_dimensions_fold dim (m_slices s) n) (inv_slices Hinv) b e Hsl).
Qed.

Lemma Slice_dimensions_extents_witness :
  exists s', Slice_call (Slice_all workspace) Spectrum 1 (-1) = Ok s'
             /\ In (Spectrum, -1) (Slice_dimensions s')
             /\ Slice_invariant s'.
Proof.
  destruct (@Slice_call_spec (Slice_all workspace) Spectrum 1 (-1)
              (Slice_all_invariant workspace)) as [s' [Hc [Hinv [Hd [_ Hnew]]]]].
  exists s'. split; [exact Hc|]. split; [|exact Hinv].
  destruct (Hnew ltac:(cbn; tauto)) as [Hsl _].
  destruct (@Slice_dimensions_extents s' Hinv) as [_ H].
  assert (Hin : In (Spectrum, 2) (m_dimensions (m_dataset s'))).
  { rewrite Hd. cbn. tauto. }
  apply (proj2 (H Spectrum 2 Hin) 1 (-1)). rewrite Hsl. cbn. tauto.
Defined.


(* ===================================================================== *)
(** * [filter] *)
(* ===================================================================== *)

Lemma kept_length mask : forall i,
  Z.of_nat (List.length (kept mask i)) + Z.of_nat (count_occ Z.eq_dec mask 0)
  = Z.of_nat (List.length mask).
Proof.
  induction mask as [|m rest IH]; intros i; cbn [kept count_occ List.length]; [reflexivity|].
  specialize (IH (i + 1)).
  destruct (Z.eqb_spec m 0) as [->|Hm].
  - destruct (Z.eq_dec 0 0) as [_|?]; [|contradiction]. lia.
  - destruct (Z.eq_dec m 0) as [?|_]; [contradiction|]. cbn [List.length]. lia.
Qed.

Lemma kept_range mask : forall i,
  Forall (fun k => i <= k < i + Z.of_nat (List.length mask)) (kept mask i).
Proof.
  induction mask as [|m rest IH]; intros i; cbn [kept List.length]; [constructor|].
  specialize (IH (i + 1)).
  assert (H : Forall (fun k => i <= k < i + Z.of_nat (S (List.length rest)))
                     (kept rest (i + 1))).
  { eapply Forall_impl; [|exact IH]. cbn beta. intros k Hk. lia. }
  destruct (m =? 0); [exact H|]. constructor; [lia|exact H].
Qed.

Lemma kept_all mask : forall i,
  count_occ Z.eq_dec mask 0 = 0%nat ->
  forall j, 0 <= j < Z.of_nat (List.length mask) -> zlookup (kept mask i) j = Some (i + j).
Proof.
  induction mask as [|m rest IH]; intros i Hc j Hj; cbn [List.length] in Hj; [lia|].
  cbn [kept count_occ] in *. destruct (Z.eq_dec m 0) as [?|Hm]; [discriminate|].
  apply Z.eqb_neq in Hm. rewrite Hm.
  destruct (Z.eq_dec j 0) as [->|Hj0].
  - cbn. f_equal. lia.
  - rewrite zlookup_cons by lia. rewrite (IH (i + 1) Hc (j - 1)) by lia. f_equal. lia.
Qed.

Lemma filter_loop_spec (var : Variable_) (dim : Dim) (n m : Z) :
  wf_variable var -> Dims.size (dimensions var) dim = Ok n ->
  forall (mask : list Z) (out : Variable_) (iOut iIn : Z),
  wf_variable out -> Vector_type (m_model out) = Vector_type (m_model var) ->
  Dims.size (dimensions out) dim = Ok m ->
  (forall l, l <> dim -> Dims.size (dimensions out) l = Dims.size (dimensions var) l) ->
  0 <= iOut -> 0 <= iIn ->
  iIn + Z.of_nat (List.length mask) <= n ->
  iOut + Z.of_nat (List.length (kept mask iIn)) <= m ->
  exists r, filter_loop out var dim mask iOut iIn = Ok r
    /\ m_type r = m_type out /\ m_name r = m_name out /\ m_unit r = m_unit out
    /\ dimensions r = dimensions out
    /\ wf_variable r
    /\ forall ix, in_range (dimensions out) ix ->
         element (m_model r) (linear (dimensions out) ix)
         = match zlookup (kept mask iIn) (ix dim - iOut) with
           | Some k => element (m_model var)
                         (linear (dimensions var) (with_index ix dim k))
           | None => element (m_model out) (linear (dimensions out) ix)
           end.
Proof.
  intros Hv Hn. induction mask as [|m0 rest IH];
    intros out iOut iIn Hout Hty Hm Hsame HiOut HiIn Hlen Hfit.
  - exists out. cbn [filter_loop kept]. repeat (split; [first [reflexivity|assumption]|]).
    intros ix _. unfold zlookup. destruct (ix dim - iOut <? 0); [reflexivity|].
    now destruct (Z.to_nat (ix dim - iOut)).
  - cbn [filter_loop kept]. cbn [List.length] in Hlen. cbn [kept] in Hfit.
    destruct (Z.eqb_spec m0 0) as [E0|E0]; cbn [negb].
    + exact (IH out iOut (iIn + 1) Hout Hty Hm Hsame HiOut ltac:(lia) ltac:(lia) Hfit).
    + cbn [List.length] in Hfit.
      assert (Hrange : match Dims.size (dimensions var) dim with
                       | Ok k => 0 <= iIn /\ iIn + 1 <= k
                       | Throw _ => iIn = 0 /\ iIn + 1 = 1
                       end) by (rewrite Hn; lia).
      destruct (@data_copy_spec out var dim iOut iIn (iIn + 1) m Hout Hv Hty Hm
                  HiOut ltac:(lia) ltac:(lia) Hsame Hrange)
        as [out' [Hc [H1 [H2 [H3 [H4 [Hwf' Hel]]]]]]].
      rewrite Hc. cbn [bind].
      destruct (IH out' (iOut + 1) (iIn + 1) Hwf'
                  ltac:(rewrite (wf_type Hwf'), H1, <- (wf_type Hout); exact Hty)
                  ltac:(rewrite H4; exact Hm)
                  ltac:(intros l Hl; rewrite H4; now apply Hsame)
                  ltac:(lia) ltac:(lia) ltac:(lia) ltac:(lia))
        as [r [Hr [H1' [H2' [H3' [H4' [Hwr Hel']]]]]]].
      exists r. split; [exact Hr|].
      split; [congruence|]. split; [congruence|]. split; [congruence|].
      split; [congruence|]. split; [exact Hwr|].
      intros ix Hix. rewrite H4 in Hel'. rewrite (Hel' ix Hix).
      destruct (Z.compare_spec (ix dim) iOut) as [E|E|E].
      * replace (ix dim - (iOut + 1)) with (-1) by lia.
        replace (ix dim - iOut) with 0 by lia.
        rewrite zlookup_neg by lia.
        change (zlookup (iIn :: kept rest (iIn + 1)) 0) with (Some iIn).
        rewrite (Hel ix Hix).
        replace ((iOut <=? ix dim) && (ix dim <? iOut + (iIn + 1 - iIn))) with true
          by (symmetry; apply andb_true_intro; split; [apply Z.leb_le|apply Z.ltb_lt]; lia).
        f_equal. apply linear_ext. intros l _. unfold with_index.
        destruct (Dim_eqb l dim); [lia|reflexivity].
      * rewrite !zlookup_neg by lia. rewrite (Hel ix Hix).
        replace ((iOut <=? ix dim) && (ix dim <? iOut + (iIn + 1 - iIn))) with false;
          [reflexivity|].
        symmetry. apply andb_false_iff. left. apply Z.leb_gt. lia.
      * rewrite (@zlookup_cons _ iIn (kept rest (iIn + 1)) (ix dim - iOut)) by lia.
        replace (ix dim - iOut - 1) with (ix dim - (iOut + 1)) by lia.
        destruct (zlookup (kept rest (iIn + 1)) (ix dim - (iOut + 1))); [reflexivity|].
        rewrite (Hel ix Hix).
        replace ((iOut <=? ix dim) && (ix dim <? iOut + (iIn + 1 - iIn))) with false;
          [reflexivity|].
        symmetry. apply andb_false_iff. right. apply Z.ltb_ge. lia.
Qed.

(** X25.  [filter(var, filter)] for a one-dimensional mask along [dim]
    with as many entries as the extent of [dim] in [var]: the result has
    the tag, name and unit of [var]; its extent along [dim] is the number
    of mask entries that are not zero, the other dimensions are those of
    [var]; and its slab [j] along [dim] is the slab of [var] at the
    position of the [j]-th entry of the mask that is not zero. *)
Theorem filter_elements (var : Variable_) (dim : Dim) (n : Z) (mask : list Z) :
  wf_variable var -> Dims.size (dimensions var) dim = Ok n ->
  Z.of_nat (List.length mask) = n ->
  exists r, Variable_filter var [(dim, n)] mask = Ok r
    /\ m_type r = m_type var /\ m_name r = m_name var /\ m_unit r = m_unit var
    /\ wf_variable r
    /\ Dims.resize (dimensions var) dim (Z.of_nat (List.length (kept mask 0)))
       = Ok (dimensions r)
    /\ forall ix, in_range (dimensions r) ix ->
         exists k, zlookup (kept mask 0) (ix dim) = Some k
           /\ 0 <= k < n
           /\ zlookup mask k <> Some 0
           /\ element (m_model r) (linear (dimensions r) ix)
              = element (m_model var) (linear (dimensions var) (with_index ix dim k)).
Proof.
  intros Hv Hn Hlen. pose proof (kept_length mask 0) as Hk.
  assert (Hkept : forall j k, zlookup (kept mask 0) j = Some k ->
                              0 <= k < n /\ zlookup mask k <> Some 0).
  { intros j k Hj. unfold zlookup in Hj. destruct (j <? 0); [discriminate|].
    apply nth_error_In in Hj. clear Hk.
    assert (Hgen : forall (mask : list Z) i, In k (kept mask i) ->
                     i <= k < i + Z.of_nat (List.length mask)
                     /\ zlookup mask (k - i) <> Some 0).
    { clear. induction mask as [|m rest IH]; intros i; cbn [kept List.length]; [intros []|].
      destruct (Z.eqb_spec m 0) as [E|E].
      - intros Hin. destruct (IH (i + 1) Hin) as [Hr Hz]. split; [lia|].
        rewrite zlookup_cons by lia. now replace (k - i - 1) with (k - (i + 1)) by lia.
      - intros [->|Hin].
        + split; [lia|]. rewrite Z.sub_diag. cbn. congruence.
        + destruct (IH (i + 1) Hin) as [Hr Hz]. split; [lia|].
          rewrite zlookup_cons by lia. now replace (k - i - 1) with (k - (i + 1)) by lia. }
    destruct (Hgen mask 0 Hj) as [Hr Hz]. rewrite Z.sub_0_r in Hz. split; [lia|exact Hz]. }
  unfold Variable_filter. cbn [Dims.ndim List.length Z.of_nat].
  change (Z.pos 1 =? 1) with true. cbn [negb].
  change (Dims.label [(dim, n)] 0) with dim. cbv zeta.
  destruct (Z.eqb_spec (Z.of_nat (count_occ Z.eq_dec mask 0)) 0) as [Er|Er].
  - exists var. split; [reflexivity|]. repeat (split; [first [reflexivity|assumption]|]).
    split; [apply resize_same; rewrite Hn; f_equal; lia|].
    intros ix Hix.
    pose proof (proj1 (in_range_size ix (proj1 (wf_dimensions Hv))) Hix dim n Hn) as Hi.
    assert (Hl : zlookup (kept mask 0) (ix dim) = Some (0 + ix dim))
      by (apply kept_all; lia).
    exists (0 + ix dim). split; [exact Hl|].
    destruct (Hkept _ _ Hl) as [Hr Hz]. split; [exact Hr|]. split; [exact Hz|].
    f_equal. apply linear_ext. intros l _. unfold with_index.
    destruct (Dim_eqb l dim) eqn:El; [|reflexivity]. apply Dim_eqb_eq in El. subst l. lia.
  - rewrite Hn. cbn [bind].
    replace (n - Z.of_nat (count_occ Z.eq_dec mask 0))
      with (Z.of_nat (List.length (kept mask 0))) by lia.
    set (m := Z.of_nat (List.length (kept mask 0))).
    assert (Hc : Dims.contains (dimensions var) dim = true) by (eapply size_Ok_contains; eauto).
    destruct (@resize_spec (dimensions var) dim m Hc) as [dims [Hr [Hl [Hsz [Ho _]]]]].
    pose proof (@resize_wf (dimensions var) dims dim m (wf_dimensions Hv)
                  ltac:(unfold m; lia) Hr) as Hd'.
    rewrite Hr. cbn [bind].
    destruct (@setDimensions_spec var dims Hv Hd') as [m0 [Hset [Hty0 Hsz0]]].
    rewrite Hset. cbn [bind].
    assert (Hwf0 : wf_variable (set_object var dims m0)).
    { constructor; cbn [set_object m_type m_model dimensions];
        [rewrite Hty0; exact (wf_type Hv)|exact Hsz0|exact Hd']. }
    destruct (@filter_loop_spec var dim n m Hv Hn mask (set_object var dims m0) 0 0
                Hwf0 Hty0 Hsz Ho (Z.le_refl 0) (Z.le_refl 0) ltac:(lia) ltac:(unfold m; lia))
      as [r [Hloop [H1 [H2 [H3 [H4 [Hwr Hel]]]]]]].
    exists r. split; [exact Hloop|]. cbn [set_object m_type m_name m_unit dimensions] in *.
    repeat (split; [assumption|]). split; [now rewrite H4|].
    intros ix Hix. rewrite H4 in Hix |- *.
    pose proof (proj1 (in_range_size ix (proj1 Hd')) Hix dim m Hsz) as Hi.
    rewrite (Hel ix Hix), Z.sub_0_r.
    destruct (@zlookup_Some_ex _ (kept mask 0) (ix dim) Hi) as [k Hkk].
    rewrite Hkk. exists k. split; [reflexivity|].
    destruct (Hkept _ _ Hkk) as [Hr' Hz]. auto.
Qed.

Lemma filter_elements_witness :
  exists r, Variable_filter transpose_lhs [(DimY, 3)] [1; 0; 1] = Ok r
    /\ m_type r = m_type transpose_lhs /\ m_name r = m_name transpose_lhs
    /\ m_unit r = m_unit transpose_lhs
    /\ wf_variable r
    /\ Dims.resize (dimensions transpose_lhs) DimY
                   (Z.of_nat (List.length (kept [1; 0; 1] 0)))
       = Ok (dimensions r)
    /\ forall ix, in_range (dimensions r) ix ->
         exists k, zlookup (kept [1; 0; 1] 0) (ix DimY) = Some k
           /\ 0 <= k < 3
           /\ zlookup [1; 0; 1] k <> Some 0
           /\ element (m_model r) (linear (dimensions r) ix)
              = element (m_model transpose_lhs)
                  (linear (dimensions transpose_lhs) (with_index ix DimY k)).
Proof.
  apply (@filter_elements transpose_lhs DimY 3 [1; 0; 1]); [solve_wf|reflexivity|reflexivity].
Defined.

(* ===================================================================== *)
(** * Equality of Variables *)
(* ===================================================================== *)

Lemma list_equal_eq A (eq : A -> A -> bool) :
  (forall x y, eq x y = true <-> x = y) ->
  forall l1 l2, list_equal eq l1 l2 = true <-> l1 = l2.
Proof.
  intros Heq. induction l1 as [|x l1 IH]; intros [|y l2]; cbn [list_equal];
    try (split; [discriminate|discriminate]); [split; reflexivity|].
  rewrite andb_true_iff, Heq, IH. split; [intros [-> ->]; reflexivity|].
  intros H. now inversion H.
Qed.

Lemma list_equal_self A (eq : A -> A -> bool) (l : list A) :
  list_equal eq l l = forallb (fun x => eq x x) l.
Proof. induction l as [|x l IH]; cbn [list_equal forallb]; [reflexivity|now rewrite IH]. Qed.

Lemma Vector_equals_eq (ma mb : Vector) :
  In (Vector_type ma) [TInt32; TInt64; TString] ->
  (Vector_equals ma mb = true <-> ma = mb).
Proof.
  intros Hty.
  destruct ma as [l|l|l|l|l|l]; cbn [Vector_type In] in Hty;
    try (exfalso; intuition discriminate);
    destruct mb as [l'|l'|l'|l'|l'|l']; cbn [Vector_equals];
    try (split; discriminate).
  - rewrite (list_equal_eq Z.eqb Z.eqb_eq).
    split; [intros ->; reflexivity|intros H; now inversion H].
  - rewrite (list_equal_eq Z.eqb Z.eqb_eq).
    split; [intros ->; reflexivity|intros H; now inversion H].
  - rewrite (list_equal_eq String.eqb String.eqb_eq).
    split; [intros ->; reflexivity|intros H; now inversion H].
Qed.

(** X26.  The deep comparison of [Variable::operator==] on two Variables
    that own their data: for elements of type [int32_t], [int64_t] or
    [std::string] it holds exactly when the two have the same tag, name,
    unit, dimensions and elements; for elements of type [double] it holds
    of a Variable and itself exactly when no element differs from itself,
    so a Variable that holds a NaN does not compare equal to a copy of
    itself that has an object of its own. *)
Theorem Variable_equals_exact (a b : Variable_) :
  (In (Vector_type (m_model a)) [TInt32; TInt64; TString] ->
   (Variable_equals a b = true <-> a = b))
  /\ (forall l, m_model a = VecDouble l ->
        Variable_equals a a = forallb (fun x => PrimFloat.eqb x x) l)
  /\ (Variable_equals a b = true ->
      m_name a = m_name b /\ m_unit a = m_unit b /\ m_type a = m_type b
      /\ dimensions a = dimensions b
      /\ Vector_type (m_model a) = Vector_type (m_model b)
      /\ Vector_size (m_model a) = Vector_size (m_model b)).
Proof.
  assert (Hmeta : Variable_equals a b = true <->
                  m_name a = m_name b /\ m_unit a = m_unit b /\ m_type a = m_type b
                  /\ dimensions a = dimensions b
                  /\ Vector_equals (m_model a) (m_model b) = true).
  { unfold Variable_equals. rewrite !andb_true_iff.
    rewrite String.eqb_eq, Unit_eqb_eq, Tag_eqb_eq, dims_eqb_eq. tauto. }
  assert (Hlen : forall A (eq : A -> A -> bool) l1 l2,
            list_equal eq l1 l2 = true -> List.length l1 = List.length l2).
  { intros A eq. induction l1 as [|x l1 IH]; intros [|y l2]; cbn [list_equal List.length];
      try discriminate; [reflexivity|].
    intros H. apply andb_prop in H. destruct H as [_ H]. now rewrite (IH l2 H). }
  split; [|split].
  - intros Hty. rewrite Hmeta, (Vector_equals_eq _ (m_model b) Hty). split.
    + intros [Hn [Hu [Ht [Hd Hm]]]].
      destruct a as [ta na ua da ma], b as [tb nb ub db mb].
      cbn [m_name m_unit m_type dimensions m_model] in *. congruence.
    + intros <-. repeat (split; [reflexivity|]). reflexivity.
  - intros l Hl. unfold Variable_equals.
    rewrite String.eqb_refl, Unit_eqb_refl, Tag_eqb_refl, dims_eqb_refl, Hl.
    cbn [andb Vector_equals]. apply list_equal_self.
  - intros H. apply Hmeta in H. destruct H as [Hn [Hu [Ht [Hd Hm]]]].
    repeat (split; [assumption|]).
    destruct (m_model a), (m_model b); cbn [Vector_equals Vector_type Vector_size] in *;
      try discriminate; (split; [reflexivity|]); f_equal; eapply Hlen; eauto.
Qed.


(* ===================================================================== *)
(** * [Variable::setDimensions] *)
(* ===================================================================== *)

Lemma zlookup_repeat A (x : A) (k : nat) p :
  0 <= p < Z.of_nat k -> zlookup (repeat x k) p = Some x.
Proof.
  intros Hp. unfold zlookup. destruct (Z.ltb_spec p 0); [lia|].
  apply nth_error_repeat. lia.
Qed.

(** X27.  [Variable::setDimensions] does nothing when the dimensions are
    the ones the Variable has.  With other dimensions whose volume is at
    most the number of elements the Variable holds (a number below [2^63],
    so that [volume()] does not wrap and the new vector is no longer than
    the one that exists), also ones that only put the labels in another
    order or keep the volume, the data are lost: the Variable gets a fresh
    object with [volume()] elements, all of them value-initialised; the
    tag, the name and the unit stay. *)
Theorem setDimensions_resets (v : Variable_) (dims : Dimensions) :
  extents_nonneg dims ->
  Dims.volume dims <= Vector_size (m_model v) ->
  Vector_size (m_model v) < 2 ^ 63 ->
  (dims = dimensions v -> setDimensions v dims = Ok v)
  /\ (dims <> dimensions v ->
      exists m, setDimensions v dims = Ok (set_object v dims m)
        /\ Vector_type m = Vector_type (m_model v)
        /\ Vector_size m = Dims_volume64 dims
        /\ forall p, 0 <= p < Dims_volume64 dims ->
             element m p = Some (value_initialised (Vector_type (m_model v)))).
Proof.
  intros Hn Hle Hmax. unfold setDimensions. split.
  - intros ->. now rewrite dims_eqb_refl.
  - intros Hne. apply dims_eqb_neq in Hne. rewrite Hne.
    pose proof (volume_nonneg Hn) as Hv.
    rewrite volume64_wrap, wrap_small by lia. unfold Vector_clone.
    destruct (Z.ltb_spec (Dims.volume dims) 0) as [?|_]; [lia|].
    cbn [bind]. eexists. split; [reflexivity|].
    destruct (m_model v); cbn [Vector_type Vector_size element value_initialised];
      rewrite repeat_length;
      (split; [reflexivity|]); (split; [lia|]);
      intros p Hp; rewrite zlookup_repeat by lia; reflexivity.
Qed.

Lemma setDimensions_resets_witness :
  exists m, setDimensions transpose_lhs [(DimX, 2); (DimY, 3)]
            = Ok (set_object transpose_lhs [(DimX, 2); (DimY, 3)] m)
    /\ Vector_type m = Vector_type (m_model transpose_lhs)
    /\ Vector_size m = Dims_volume64 [(DimX, 2); (DimY, 3)]
    /\ forall p, 0 <= p < Dims_volume64 [(DimX, 2); (DimY, 3)] ->
         element m p = Some (value_initialised (Vector_type (m_model transpose_lhs))).
Proof.
  assert (Hn : extents_nonneg [(DimX, 2); (DimY, 3)]) by (repeat constructor; cbn; lia).
  apply (proj2 (@setDimensions_resets transpose_lhs [(DimX, 2); (DimY, 3)] Hn
                  ltac:(cbn; lia) ltac:(cbn; lia))).
  discriminate.
Defined.


(* ===================================================================== *)
(** * A point slice and the range slice of one slab *)
(* ===================================================================== *)

Lemma erase_resize d dim k : forall d1 d2,
  Dims.resize d dim k = Ok d1 -> Dims.erase d dim = Ok d2 -> Dims.erase d1 dim = Ok d2.
Proof.
  induction d as [|[l m] d IH]; intros d1 d2; cbn [Dims.resize Dims.erase]; [discriminate|].
  destruct (Dim_eqb l dim) eqn:E.
  - intros Hr He. injection Hr as <-. cbn [Dims.erase]. now rewrite E.
  - intros Hr He.
    destruct (Dims.resize d dim k) as [r1|] eqn:Er; [|discriminate].
    destruct (Dims.erase d dim) as [r2|] eqn:Ee; [|discriminate].
    cbn [bind] in Hr, He. injection Hr as <-. injection He as <-.
    cbn [Dims.erase]. rewrite E, (IH r1 r2 eq_refl eq_refl). reflexivity.
Qed.

Lemma linear_erase_unit d dim (jx : Index) : forall d',
  Dims.erase d dim = Ok d' -> Dims.size d dim = Ok 1 -> jx dim = 0 ->
  linear d jx = linear d' jx.
Proof.
  induction d as [|[l m] d IH]; intros d'; cbn [Dims.erase Dims.size]; [discriminate|].
  destruct (Dim_eqb l dim) eqn:E.
  - intros He Hs Hj. injection He as <-. apply Dim_eqb_eq in E. subst l.
    cbn [linear]. rewrite Hj. lia.
  - intros He Hs Hj. destruct (Dims.erase d dim) as [r|] eqn:Er; [|discriminate].
    cbn [bind] in He. injection He as <-. cbn [linear].
    rewrite (IH r eq_refl Hs Hj), (@volume_erase d dim 1 r Er Hs). f_equal. lia.
Qed.

(** X28.  A point slice and the range slice of the same single slab hold
    the same data: for a well-formed Variable with extent [n] along [dim]
    and [0 <= i < n], [slice(var, dim, i)] and [slice(var, dim, i, i + 1)]
    both return, with the same elements in the same order; they differ in
    their dimensions only, the range slice keeping [dim] with extent 1
    where the point slice has dropped it. *)
Theorem slice_point_is_unit_range (v : Variable_) (dim : Dim) (n i : Z) :
  wf_variable v -> Dims.size (dimensions v) dim = Ok n -> 0 <= i < n ->
  exists s r,
    slice v dim i = Ok s
    /\ slice_range v dim i (i + 1) = Ok r
    /\ m_model s = m_model r
    /\ Dims.size (dimensions r) dim = Ok 1
    /\ Dims.erase (dimensions r) dim = Ok (dimensions s)
    /\ m_type s = m_type r /\ m_name s = m_name r /\ m_unit s = m_unit r.
Proof.
  intros Hwf Hn Hi.
  destruct (@slice_point_spec v dim n i Hwf Hn Hi)
    as [s [Hs [Hst [Hsn [Hsu [Hws [He Hsel]]]]]]].
  destruct (@slice_range_is_slice v dim n i (i + 1) Hwf Hn ltac:(lia) ltac:(lia) ltac:(lia))
    as [r [Hr [Hrt [Hrn [Hru [Hwr [Hres Hrel]]]]]]].
  replace (i + 1 - i) with 1 in Hres by lia.
  destruct (@resize_Ok_spec (dimensions v) dim 1 (dimensions r) Hres) as [_ [Hr1 Hrsz]].
  pose proof (@erase_resize (dimensions v) dim 1 (dimensions r) (dimensions s) Hres He)
    as Her.
  destruct (@erase_Ok_spec (dimensions v) dim (dimensions s) He
              (proj1 (wf_dimensions Hwf))) as [_ [Hno [Hsz _]]].
  exists s, r. split; [exact Hs|]. split; [exact Hr|].
  split; [|split; [exact Hr1|split; [exact Her|repeat split; congruence]]].
  apply (@Vector_ext (dimensions s)).
  - exact (wf_dimensions Hws).
  - rewrite (wf_type Hws), (wf_type Hwr). congruence.
  - exact (wf_size Hws).
  - rewrite (wf_size Hwr), (@volume_erase (dimensions r) dim 1 (dimensions s) Her Hr1). lia.
  - intros ix Hix. rewrite (Hsel ix Hix).
    set (jx := with_index ix dim 0).
    assert (Hj : in_range (dimensions r) jx).
    { apply in_range_size; [exact (proj1 (wf_dimensions Hwr))|]. intros l m Hm.
      destruct (Dim_eq_dec l dim) as [->|Hne].
      - unfold jx. rewrite with_index_same. rewrite Hr1 in Hm. injection Hm as <-. lia.
      - unfold jx. rewrite with_index_other by assumption.
        rewrite Hrsz, <- Hsz in Hm by assumption.
        exact (proj1 (in_range_size ix (proj1 (wf_dimensions Hws))) Hix l m Hm). }
    assert (El : linear (dimensions s) ix = linear (dimensions r) jx).
    { rewrite (@linear_erase_unit (dimensions r) dim jx (dimensions s) Her Hr1)
        by (unfold jx; apply with_index_same).
      symmetry. unfold jx. now apply linear_absent. }
    rewrite El, (Hrel jx Hj). f_equal. apply linear_ext. intros l _.
    unfold jx, with_index. rewrite Dim_eqb_refl.
    destruct (Dim_eqb l dim); [lia|reflexivity].
Qed.

Lemma slice_point_is_unit_range_witness :
  exists s r,
    slice slice_parent DimX 2 = Ok s
    /\ slice_range slice_parent DimX 2 (2 + 1) = Ok r
    /\ m_model s = m_model r
    /\ Dims.size (dimensions r) DimX = Ok 1
    /\ Dims.erase (dimensions r) DimX = Ok (dimensions s)
    /\ m_type s = m_type r /\ m_name s = m_name r /\ m_unit s = m_unit r.
Proof.
  apply (@slice_point_is_unit_range slice_parent DimX 4 2); [solve_wf|reflexivity|lia].
Defined.
